(** * stream-7z: remote archive inspection over HTTP range requests

    A shallow embedding of the Go packages [lib/utils], [lib/formats],
    [lib/rangehttp] and [lib] (the archive facade), with the properties of
    the specification stated and settled over it. *)

From Stdlib Require Import Strings.Ascii Strings.String Numbers.DecimalString.
From Stdlib Require Import Lists.List Bool.Bool Arith.Arith ZArith.ZArith Lia.
Import ListNotations.

Open Scope string_scope.
Open Scope nat_scope.
Open Scope list_scope.

(** A Go [string] is an immutable sequence of bytes: [list ascii].  String
    literals are written as Rocq strings and coerced. *)
Abbreviation gostring := (list ascii).
Coercion list_ascii_of_string : string >-> list.

(* ================================================================== *)
(** ** Package [strings] (Go standard library): the functions used     *)
(* ================================================================== *)

Module Strings.

(** [a == b] on Go strings. *)
Fixpoint streq (a b : gostring) : bool :=
  match a, b with
  | [], [] => true
  | x :: a', y :: b' => Ascii.eqb x y && streq a' b'
  | _, _ => false
  end.

(** [len(s) >= len(prefix) && s[:len(prefix)] == prefix] *)
Definition HasPrefix (s prefix : gostring) : bool :=
  (length prefix <=? length s) && streq (firstn (length prefix) s) prefix.

(** [len(s) >= len(suffix) && s[len(s)-len(suffix):] == suffix] *)
Definition HasSuffix (s suffix : gostring) : bool :=
  (length suffix <=? length s)
  && streq (skipn (length s - length suffix) s) suffix.

Definition TrimPrefix (s prefix : gostring) : gostring :=
  if HasPrefix s prefix then skipn (length prefix) s else s.

Definition TrimSuffix (s suffix : gostring) : gostring :=
  if HasSuffix s suffix then firstn (length s - length suffix) s else s.

(** [Contains(s, substr)]: [substr] occurs at some index of [s]. *)
Fixpoint Contains (s substr : gostring) : bool :=
  HasPrefix s substr
  || match s with
     | [] => false
     | _ :: s' => Contains s' substr
     end.

(** The longest prefix without the byte ['/'], and what follows it. *)
Fixpoint span_elem (s : gostring) : gostring * gostring :=
  match s with
  | [] => ([], [])
  | c :: s' =>
      if Ascii.eqb c "/" then ([], s)
      else let (e, r) := span_elem s' in (c :: e, r)
  end.

(** [Split(s, "/")]: the segments of a path. *)
Fixpoint segments_aux (cur : gostring) (s : gostring) : list gostring :=
  match s with
  | [] => [rev cur]
  | c :: s' =>
      if Ascii.eqb c "/" then rev cur :: segments_aux [] s'
      else segments_aux (c :: cur) s'
  end.

Definition segments (s : gostring) : list gostring := segments_aux [] s.

(** [Join(elems, "/")] *)
Fixpoint join (elems : list gostring) : gostring :=
  match elems with
  | [] => []
  | [e] => e
  | e :: rest => e ++ "/" ++ join rest
  end.

End Strings.

(* ================================================================== *)
(** ** Package [path] (Go standard library): [Clean]                    *)
(* ================================================================== *)

Module Path.
Import Strings.

(** The output buffer of [Clean] (its [lazybuf]) is kept as the stack of
    the bytes written so far, last byte first: [out.w] is the length of
    the stack, [out.append c] pushes, [out.w--] pops, and after a pop
    [out.index(out.w)] is the byte just popped. *)
Definition lazybuf := list ascii.

(** [r+k == n || path[r+k] == '/'], on the input left after [r+k]. *)
Definition end_or_slash (rest : gostring) : bool :=
  match rest with
  | [] => true
  | c :: _ => Ascii.eqb c "/"
  end.

(** [out.w--; for out.w > dotdot && out.index(out.w) != '/' { out.w-- }] *)
Fixpoint backtrack (out : lazybuf) (dotdot : nat) : lazybuf :=
  match out with
  | [] => []
  | c :: out' =>
      if (dotdot <? length out') && negb (Ascii.eqb c "/")
      then backtrack out' dotdot
      else out'
  end.

(** The main loop [for r < n], on the input [path[r:]] still to read.
    Every round consumes at least one byte, so [len(path)] rounds are
    enough; [fuel] counts them. *)
Fixpoint Clean_loop (fuel : nat) (rooted : bool) (rest : gostring)
         (out : lazybuf) (dotdot : nat) : lazybuf :=
  match fuel with
  | O => out
  | S fuel' =>
      match rest with
      | [] => out
      | c :: rest1 =>
          if Ascii.eqb c "/" then
            (* empty path element *)
            Clean_loop fuel' rooted rest1 out dotdot
          else if Ascii.eqb c "." && end_or_slash rest1 then
            (* . element *)
            Clean_loop fuel' rooted rest1 out dotdot
          else if Ascii.eqb c "."
                  && match rest1 with
                     | c1 :: rest2 => Ascii.eqb c1 "." && end_or_slash rest2
                     | [] => false
                     end then
            (* .. element: remove to last / *)
            let rest2 := tl rest1 in
            if dotdot <? length out then
              (* can backtrack *)
              Clean_loop fuel' rooted rest2 (backtrack out dotdot) dotdot
            else if negb rooted then
              (* cannot backtrack, but not rooted, so append .. element *)
              let out1 := if 0 <? length out then "/"%char :: out else out in
              let out2 := "."%char :: "."%char :: out1 in
              Clean_loop fuel' rooted rest2 out2 (length out2)
            else
              Clean_loop fuel' rooted rest2 out dotdot
          else
            (* real path element: add slash if needed, copy element *)
            let out1 :=
              if (rooted && negb (length out =? 1))
                 || (negb rooted && negb (length out =? 0))
              then "/"%char :: out else out in
            let (elem, rest') := span_elem rest in
            Clean_loop fuel' rooted rest' (rev elem ++ out1) dotdot
      end
  end.

(** [path.Clean] *)
Definition Clean (path : gostring) : gostring :=
  match path with
  | [] => "."
  | c :: _ =>
      let rooted := Ascii.eqb c "/" in
      let out :=
        if rooted
        then Clean_loop (length path) rooted (tl path) ["/"%char] 1
        else Clean_loop (length path) rooted path [] 0 in
      (* Turn empty string into "." *)
      if length out =? 0 then "." else rev out
  end.

End Path.

(* ================================================================== *)
(** ** Package [lib/utils]: paths                                       *)
(* ================================================================== *)

Module Utils.
Import Strings.

(** NormalizePath normalizes archive file paths. *)
Definition NormalizePath (p : gostring) : gostring :=
  let p := TrimPrefix p "/" in
  let p := Path.Clean p in
  let p := TrimPrefix p "/" in
  p.

(** IsValidPath checks if a path is valid and not attempting path
    traversal. *)
Definition IsValidPath (p : gostring) : bool :=
  if Contains p ".." then false
  else
    let normalized := NormalizePath p in
    if Contains normalized ".." then false
    else true.

(** IsDir checks if a path represents a directory. *)
Definition IsDir (p : gostring) : bool := HasSuffix p "/".

(** PathMatchesPrefix checks if path starts with prefix. *)
Definition PathMatchesPrefix (filePath prefix : gostring) : bool :=
  let filePath := NormalizePath filePath in
  let prefix := NormalizePath prefix in
  if streq prefix [] then true
  else HasPrefix filePath (prefix ++ "/") || streq filePath prefix.

End Utils.

(** The tables of [lib/utils/path_test.go]. *)
Module PathTests.
Import Strings Utils.

Definition str (s : string) : gostring := s.

Definition TestNormalizePath : list (gostring * gostring) :=
  [ (str "/path/to/file", str "path/to/file");
    (str "path/to/file", str "path/to/file");
    (str "/path/../to/file", str "to/file");
    (str "./path/to/file", str "path/to/file");
    ([], str ".");
    (str "/", str ".") ].

Definition TestIsValidPath : list (gostring * bool) :=
  [ (str "path/to/file", true);
    (str "file.txt", true);
    (str "../../../etc/passwd", false);
    (str "path/../to/file", false);
    (str "path/to/../file", false);
    (str "..", false);
    (str ".", true) ].

End PathTests.

(* ================================================================== *)
(** ** Go values shared by the packages                                 *)
(* ================================================================== *)

Module Go.

(** Two's-complement wrap-around of [int64] (and of [int] on the 64-bit
    targets the program is built for). *)
Definition wrap64 (z : Z) : Z :=
  ((z + 2 ^ 63) mod 2 ^ 64 - 2 ^ 63)%Z.

(** An error raised outside this repository (the Go runtime, [net/http],
    a decoder library): [io.EOF], or an error known by its text. *)
Inductive liberr : Type :=
| io_EOF
| lib_error (text : gostring).

(** An [error] value of the program.  [FormatError m] is
    [&formats.FormatError{Message: m}] (no cause), [WrapError ctx e] is
    [utils.WrapError(e, ctx)], [ErrPathTraversal] is the sentinel of
    [lib/utils/errors.go], [ErrorsNew t] is [errors.New(t)], [EOF] is
    [io.EOF] and [External t] is an outside error passed on. *)
Inductive error : Type :=
| FormatError (Message : gostring)
| WrapError (context : gostring) (cause : error)
| ErrPathTraversal
| ErrorsNew (text : gostring)
| EOF
| External (text : gostring).

Definition of_lib (e : liberr) : error :=
  match e with
  | io_EOF => EOF
  | lib_error t => External t
  end.

(** [err.Error()] *)
Fixpoint Error (e : error) : gostring :=
  match e with
  | FormatError m => m
  | WrapError ctx c => ctx ++ ": " ++ Error c
  | ErrPathTraversal => "path traversal detected"
  | ErrorsNew t => t
  | EOF => "EOF"
  | External t => t
  end.

(** A call that returns [(value, error)] with exactly one of them set. *)
Inductive Result (E A : Type) : Type :=
| Ok (a : A)
| Err (e : E).
Arguments Ok {E A} a.
Arguments Err {E A} e.

(** What a forward-only decoder yields through repeated [Next()]: the
    headers in order, then the error that ends the iteration ([io.EOF] at
    the regular end). *)
Record Stream (H : Type) : Type := mkStream {
  items : list H;
  stop : liberr
}.
Arguments mkStream {H} items stop.
Arguments items {H} s.
Arguments stop {H} s.

End Go.

(* ================================================================== *)
(** ** Package [lib/rangehttp]                                          *)
(* ================================================================== *)

Module Rangehttp.
Import Strings Go.

(** [net/http], as the client uses it. *)
Record Request : Type := mkRequest {
  Method : gostring;
  URL : gostring;
  Header : list (gostring * gostring)
}.

(** A response body: the bytes not read yet; one [Read] hands over at most
    [S short] of them. *)
Record Body : Type := mkBody {
  pending : gostring;
  short : nat
}.

Record Response : Type := mkResponse {
  StatusCode : Z;
  ContentLength : Z;
  Body_ : Body
}.

Definition StatusOK : Z := 200.
Definition StatusPartialContent : Z := 206.

(** [*http.Client] together with the origin behind it: [Do] answers a
    request, [NewRequestWithContext] fails on a URL it cannot parse. *)
Record HTTPClient : Type := mkHTTPClient {
  NewRequestWithContext : gostring -> gostring -> Result liberr Request;
  Do : Request -> Result liberr Response
}.

(** [validHeaderFieldByte] of [net/textproto]: the token characters of
    RFC 7230. *)
Definition validHeaderFieldByte (c : ascii) : bool :=
  let n := nat_of_ascii c in
  ((48 <=? n) && (n <=? 57)) || ((65 <=? n) && (n <=? 90))
  || ((97 <=? n) && (n <=? 122))
  || existsb (Ascii.eqb c) (list_ascii_of_string "!#$%&'*+-.^_`|~").

(** One round of the loop of [canonicalMIMEHeaderKey]: upper case for the
    first letter and after each dash, lower case elsewhere. *)
Definition canonical_byte (upper : bool) (c : ascii) : ascii :=
  let n := nat_of_ascii c in
  if upper && (97 <=? n) && (n <=? 122) then ascii_of_nat (n - 32)
  else if negb upper && (65 <=? n) && (n <=? 90) then ascii_of_nat (n + 32)
  else c.

Fixpoint canonical_loop (upper : bool) (a : gostring) : gostring :=
  match a with
  | [] => []
  | c :: rest =>
      let c := canonical_byte upper c in
      c :: canonical_loop (Ascii.eqb c "-") rest
  end.

(** [textproto.CanonicalMIMEHeaderKey]: a key with a byte that is not a
    token character (a space included) is returned unchanged, any other
    key in its canonical form. *)
Definition CanonicalMIMEHeaderKey (s : gostring) : gostring :=
  if forallb validHeaderFieldByte s then canonical_loop true s else s.

(** [h[key] = []string{value}] on the header map: the entry of [key] is
    replaced, or added. *)
Fixpoint Header_put (h : list (gostring * gostring)) (k v : gostring)
  : list (gostring * gostring) :=
  match h with
  | [] => [(k, v)]
  | (k', v') :: rest =>
      if streq k' k then (k, v) :: rest else (k', v') :: Header_put rest k v
  end.

(** [req.Header.Set(k, v)]: the entry goes under the canonical form of
    the key. *)
Definition Header_Set (h : list (gostring * gostring)) (k v : gostring)
  : list (gostring * gostring) :=
  Header_put h (CanonicalMIMEHeaderKey k) v.

Definition set_header (req : Request) (k v : gostring) : Request :=
  mkRequest req.(Method) req.(URL) (Header_Set req.(Header) k v).

(** [%d] of [fmt.Sprintf] *)
Definition itoa (z : Z) : gostring :=
  list_ascii_of_string (NilZero.string_of_int (Z.to_int z)).

(** The requests sent so far, oldest first: the state that the transport
    threads through every call. *)
Definition Net : Type := list Request.
Definition IO (A : Type) : Type := Net -> A * Net.
Definition ret {A} (a : A) : IO A := fun net => (a, net).
Definition bind {A B} (m : IO A) (k : A -> IO B) : IO B :=
  fun net => let (a, net') := m net in k a net'.
Definition send (req : Request) : IO unit := fun net => (tt, net ++ [req]).

(** Client provides HTTP Range request capabilities. *)
Record Client : Type := mkClient {
  httpClient : HTTPClient;
  headers : list (gostring * gostring);
  userAgent : gostring;
  timeout : Z
}.

(** [Read(p)] with [len(p) = k] on a response body. *)
Definition Body_Read (b : Body) (k : nat)
  : (gostring * option error) * Body :=
  match b.(pending) with
  | [] => (([], Some EOF), b)
  | _ =>
      let n := Nat.min k (S b.(short)) in
      ((firstn n b.(pending), None),
       mkBody (skipn n b.(pending)) b.(short))
  end.

(** [io.CopyN(io.Discard, b, n)]: the error, and the body afterwards. *)
Definition CopyN_Discard (b : Body) (n : Z) : option error * Body :=
  if (n <=? 0)%Z then (None, b)
  else if (n <=? Z.of_nat (length b.(pending)))%Z
  then (None, mkBody (skipn (Z.to_nat n) b.(pending)) b.(short))
  else (Some EOF, mkBody [] b.(short)).

(** skipReader wraps a reader to skip initial bytes.  Used when server
    doesn't support range requests. *)
Record skipReader : Type := mkSkipReader {
  reader : Body;
  skip : Z;
  length_ : Z;
  skipped : Z;
  read : Z;
  skipOnce : bool                    (* [true] once [Do] has run *)
}.

Definition skipReader_Read (s : skipReader) (k : nat)
  : (gostring * option error) * skipReader :=
  (* Skip initial bytes on first read *)
  let '(err, s) :=
    if s.(skipOnce) then (None, s)
    else
      let (err, b) := CopyN_Discard s.(reader) s.(skip) in
      match err with
      | Some _ =>
          (err, mkSkipReader b s.(skip) s.(length_) s.(skipped) s.(read) true)
      | None =>
          (err, mkSkipReader b s.(skip) s.(length_) s.(skip) s.(read) true)
      end in
  match err with
  | Some e => (([], Some e), s)
  | None =>
      (* Has enough been read? *)
      if (0 <? s.(length_))%Z && (s.(length_) <=? s.(read))%Z
      then (([], Some EOF), s)
      else
        (* Limit read size if needed *)
        let k :=
          if (0 <? s.(length_))%Z then
            let remaining := (s.(length_) - s.(read))%Z in
            if (remaining <? Z.of_nat k)%Z then Z.to_nat remaining else k
          else k in
        let '((p, err), b) := Body_Read s.(reader) k in
        ((p, err),
         mkSkipReader b s.(skip) s.(length_) s.(skipped)
                      (wrap64 (s.(read) + Z.of_nat (length p))) true)
  end.

(** The [io.ReadCloser] values that [RangeRequest] returns. *)
Inductive ReadCloser : Type :=
| Plain (b : Body)                   (* [resp.Body], or an [io.NopCloser] *)
| Skip (s : skipReader).

Definition Read (r : ReadCloser) (k : nat)
  : (gostring * option error) * ReadCloser :=
  match r with
  | Plain b => let (res, b') := Body_Read b k in (res, Plain b')
  | Skip s => let (res, s') := skipReader_Read s k in (res, Skip s')
  end.

(** [io.NopCloser(strings.NewReader(...))] on the empty string *)
Definition empty_reader : ReadCloser := Plain (mkBody [] 0).

(** The request that [RangeRequest] sends: the client's headers, its user
    agent when it has one, and the [Range] header. *)
Definition build_request (c : Client) (req : Request) (start length : Z)
  : Request :=
  (* Set headers *)
  let req := fold_left (fun r kv => set_header r (fst kv) (snd kv))
                       c.(headers) req in
  let req := if negb (streq c.(userAgent) [])
             then set_header req "User-Agent" c.(userAgent)
             else req in
  (* Set Range header *)
  if (0 <? length)%Z then
    set_header req "Range"
      ("bytes=" ++ itoa start ++ "-"
                ++ itoa (wrap64 (wrap64 (start + length) - 1)))
  else
    (* length == -1 means read to end *)
    set_header req "Range" ("bytes=" ++ itoa start ++ "-").

(** RangeRequest performs a Range HTTP request. *)
Definition RangeRequest (c : Client) (url : gostring) (start length : Z)
  : IO (Result error ReadCloser) :=
  if (length =? 0)%Z then ret (Ok empty_reader)
  else
    match c.(httpClient).(NewRequestWithContext) "GET" url with
    | Err err => ret (Err (WrapError "failed to create HTTP request"
                                      (of_lib err)))
    | Ok req =>
        let req := build_request c req start length in
        bind (send req) (fun _ =>
        match c.(httpClient).(Do) req with
        | Err err => ret (Err (WrapError "HTTP request failed" (of_lib err)))
        | Ok resp =>
            (* Status code *)
            if (resp.(StatusCode) =? StatusPartialContent)%Z
               || (resp.(StatusCode) =? StatusOK)%Z then
              if (resp.(StatusCode) =? StatusOK)%Z && (0 <? start)%Z then
                (* Server doesn't support range requests: discard the
                   bytes before start *)
                let length :=
                  if (length =? -1)%Z
                  then wrap64 (resp.(ContentLength) - start)
                  else length in
                ret (Ok (Skip (mkSkipReader resp.(Body_) start length 0 0
                                            false)))
              else ret (Ok (Plain resp.(Body_)))
            else
              ret (Err (ErrorsNew ("unexpected status code: "
                                     ++ itoa resp.(StatusCode))))
        end)
    end.

(** RangeReader provides io.ReaderAt interface using HTTP Range
    requests. *)
Record RangeReader : Type := mkRangeReader {
  client : Client;
  url : gostring;
  size : Z;
  closed : bool
}.

(** The loop of [ReadAt]: [p[:total]] as filled so far, and the reader.
    Every round adds at least one byte or returns, so [length] rounds are
    enough; [fuel] counts them. *)
Fixpoint ReadAt_loop (fuel : nat) (rd : ReadCloser) (plen : nat)
         (length : Z) (p : gostring) : gostring * option error :=
  match fuel with
  | O => (p, None)
  | S fuel' =>
      let total := Z.of_nat (List.length p) in
      if (total <? length)%Z then
        let '((data, err), rd') := Read rd (plen - List.length p) in
        let p := p ++ data in
        let total := Z.of_nat (List.length p) in
        match err with
        | Some EOF =>
            if (total =? length)%Z then (p, None) else (p, Some EOF)
        | Some e => (p, Some e)
        | None => ReadAt_loop fuel' rd' plen length p
        end
      else (p, None)
  end.

(** ReadAt reads len(p) bytes starting at offset off; [plen] is [len(p)],
    and the result is the part of [p] that was filled, with the error. *)
Definition ReadAt (r : RangeReader) (plen : nat) (off : Z)
  : IO (gostring * option error) :=
  if r.(closed) then ret ([], Some (ErrorsNew "reader is closed"))
  else if (off <? 0)%Z then ret ([], Some (ErrorsNew "negative offset"))
  else if (r.(size) <=? off)%Z then ret ([], Some EOF)
  else
    (* Calculate read length *)
    let length := Z.of_nat plen in
    let length :=
      if (r.(size) <? wrap64 (off + length))%Z
      then wrap64 (r.(size) - off) else length in
    (* Perform range request *)
    bind (RangeRequest r.(client) r.(url) off length) (fun res =>
    match res with
    | Err err => ret ([], Some err)
    | Ok rd => ret (ReadAt_loop (S (Z.to_nat length)) rd plen length [])
    end).

(** Close closes the RangeReader and cancels any ongoing requests. *)
Definition Close (r : RangeReader) : RangeReader :=
  if r.(closed) then r
  else mkRangeReader r.(client) r.(url) r.(size) true.

(** [io.ReadAll(r)] through a buffer of [k] bytes; [None] when [fuel]
    rounds did not reach the end of the stream. *)
Fixpoint ReadAll (fuel : nat) (k : nat) (rd : ReadCloser)
  : option (gostring * option error) :=
  match fuel with
  | O => None
  | S fuel' =>
      let '((data, err), rd') := Read rd k in
      match err with
      | Some EOF => Some (data, None)
      | Some e => Some (data, Some e)
      | None =>
          match ReadAll fuel' k rd' with
          | Some (more, err') => Some (data ++ more, err')
          | None => None
          end
      end
  end.

(** [h[key]] on the header map: the value of the entry of [key], or the
    empty string. *)
Fixpoint Header_lookup (h : list (gostring * gostring)) (key : gostring)
  : gostring :=
  match h with
  | [] => []
  | (k, v) :: rest => if streq k key then v else Header_lookup rest key
  end.

(** [req.Header.Get(key)]: the value under the canonical form of [key],
    or the empty string. *)
Definition Header_Get (h : list (gostring * gostring)) (key : gostring)
  : gostring :=
  Header_lookup h (CanonicalMIMEHeaderKey key).

(** Size returns the total size of the remote file. *)
Definition Size (r : RangeReader) : Z := r.(size).

Definition SeekStart : Z := 0.
Definition SeekCurrent : Z := 1.
Definition SeekEnd : Z := 2.

(** Seek implements io.Seeker (for compatibility).  Note: This doesn't
    maintain any internal offset state. *)
Definition Seek (r : RangeReader) (offset whence : Z) : Result error Z :=
  if (whence =? SeekStart)%Z then
    if (offset <? 0)%Z || (r.(size) <? offset)%Z
    then Err (ErrorsNew "invalid offset")
    else Ok offset
  else if (whence =? SeekEnd)%Z then
    if (0 <? offset)%Z || (offset <? wrap64 (- r.(size)))%Z
    then Err (ErrorsNew "invalid offset")
    else Ok (wrap64 (r.(size) + offset))
  else Err (ErrorsNew "invalid whence").

(** SectionReader creates an io.SectionReader for a portion of the file. *)
Record SectionReader : Type := mkSectionReader {
  r_ : RangeReader;
  off : Z;
  limit : Z;
  current : Z
}.

(** NewSectionReader creates a new SectionReader. *)
Definition NewSectionReader (r : RangeReader) (off n : Z) : SectionReader :=
  mkSectionReader r off (wrap64 (off + n)) off.

(** Read implements io.Reader; [plen] is [len(p)]. *)
Definition Section_Read (s : SectionReader) (plen : nat)
  : IO ((gostring * option error) * SectionReader) :=
  if (s.(limit) <=? s.(current))%Z then ret (([], Some EOF), s)
  else
    let max := wrap64 (s.(limit) - s.(current)) in
    let plen := if (max <? Z.of_nat plen)%Z then Z.to_nat max else plen in
    bind (ReadAt s.(r_) plen s.(current)) (fun res =>
    ret (res,
         mkSectionReader s.(r_) s.(off) s.(limit)
           (wrap64 (s.(current) + Z.of_nat (length (fst res)))))).

(** ReadAt implements io.ReaderAt. *)
Definition Section_ReadAt (s : SectionReader) (plen : nat) (off_ : Z)
  : IO (gostring * option error) :=
  if (off_ <? 0)%Z || (wrap64 (s.(limit) - s.(off)) <=? off_)%Z
  then ret ([], Some EOF)
  else
    let off_ := wrap64 (off_ + s.(off)) in
    let max := wrap64 (s.(limit) - off_) in
    if (max <? Z.of_nat plen)%Z then
      bind (ReadAt s.(r_) (Z.to_nat max) off_) (fun res =>
      match snd res with
      | None => ret (fst res, Some EOF)
      | Some err => ret (fst res, Some err)
      end)
    else ReadAt s.(r_) plen off_.

(** Seek implements io.Seeker. *)
Definition Section_Seek (s : SectionReader) (offset whence : Z)
  : Result error Z * SectionReader :=
  let target :=
    if (whence =? SeekStart)%Z then Some (wrap64 (offset + s.(off)))
    else if (whence =? SeekCurrent)%Z
    then Some (wrap64 (offset + s.(current)))
    else if (whence =? SeekEnd)%Z then Some (wrap64 (offset + s.(limit)))
    else None in
  match target with
  | None => (Err (ErrorsNew "invalid whence"), s)
  | Some offset =>
      if (offset <? s.(off))%Z then (Err (ErrorsNew "seek before start"), s)
      else if (s.(limit) <? offset)%Z
      then (Err (ErrorsNew "seek beyond end"), s)
      else (Ok (wrap64 (offset - s.(off))),
            mkSectionReader s.(r_) s.(off) s.(limit) offset)
  end.

(** Size returns the size of the section. *)
Definition Section_Size (s : SectionReader) : Z :=
  wrap64 (s.(limit) - s.(off)).

End Rangehttp.

(* ================================================================== *)
(** ** The decoder libraries, as the handlers see them                  *)
(* ================================================================== *)

(** [archive/tar] *)
Module tar.
Record Header : Type := mkHeader {
  Name : gostring;
  Size : Z;
  ModTime : Z;
  Typeflag : ascii
}.
Definition TypeDir : ascii := "5"%char.
End tar.

(** [github.com/yeka/zip] *)
Module zip.
Record File : Type := mkFile {
  Name : gostring;
  IsEncrypted : bool;
  UncompressedSize64 : Z;
  CompressedSize64 : Z;
  ModTime : Z;                       (* FileInfo().ModTime() *)
  IsDir : bool;                      (* FileInfo().IsDir() *)
  (** [Open()] after [SetPassword(pw)] ([Some pw]) or with no password
      set ([None]): the error, if any. *)
  Open : option gostring -> option Go.liberr
}.
Record Reader : Type := mkReader {
  File_ : list File;
  Comment : gostring
}.
End zip.

(** [github.com/nwaples/rardecode/v2] *)
Module rardecode.
Record FileHeader : Type := mkFileHeader {
  Name : gostring;
  UnPackedSize : Z;
  PackedSize : Z;
  ModificationTime : Z;
  IsDir : bool
}.
End rardecode.

(** [github.com/bodgit/sevenzip] *)
Module sevenzip.
Record File : Type := mkFile {
  Name : gostring;
  UncompressedSize : Z;
  Modified : Z;
  IsDir : bool;                      (* FileInfo().IsDir() *)
  Open : option Go.liberr            (* the error of [Open()], if any *)
}.
Record Reader : Type := mkReader {
  File_ : list File
}.
End sevenzip.

(** [github.com/saintfish/chardet] and [golang.org/x/text]: the detector,
    and the decoder of each encoding. *)
Module chardet.
Record Result_ : Type := mkResult {
  Charset : gostring;
  Confidence : Z
}.
Inductive Encoding : Type :=
| UTF8 | UTF16BE | UTF16LE | ISO8859_1 | ISO8859_2 | Windows1251
| ShiftJIS | GB18030 | GBK | EUCKR | Big5.
Record Codec : Type := mkCodec {
  DetectAll : gostring -> Go.Result Go.liberr (list Result_);
  (** [io.ReadAll(transform.NewReader(bytes.NewReader(b), enc.NewDecoder()))] *)
  Decode : Encoding -> gostring -> Go.Result Go.liberr gostring
}.
End chardet.

(* ================================================================== *)
(** ** Package [lib/formats]                                            *)
(* ================================================================== *)

Module Formats.
Import Strings Go.

(** The random-access surface handed to a handler ([io.ReaderAt] over the
    remote file), given by what reading it yields: the bytes of a
    [ReadAt(make([]byte, n), off)] and, for each external decoder, what
    that decoder makes of the file.  The origin is immutable for the
    lifetime of a session, so each is a function. *)
Record ReaderAt : Type := mkReaderAt {
  ReadAt : nat -> Z -> gostring * option liberr;
  zip_NewReader : Result liberr zip.Reader;
  (** [rardecode.NewReader(section)] ([None]) or with the option
      [rardecode.Password(pw)] ([Some pw]) *)
  rardecode_NewReader :
    option gostring -> Result liberr (Stream rardecode.FileHeader);
  sevenzip_NewReader : Result liberr sevenzip.Reader;
  sevenzip_NewReaderWithPassword : gostring -> Result liberr sevenzip.Reader;
  (** [tar.NewReader] over [gzip.NewReader(section)] and the like *)
  gzip_NewReader : Result liberr (Stream tar.Header);
  bzip2_NewReader : Stream tar.Header;
  xz_NewReader : Result liberr (Stream tar.Header);
  plain : Stream tar.Header
}.

(** FileEntry represents a file within an archive. *)
Record FileEntry : Type := mkFileEntry {
  Path : gostring;
  Size : Z;
  CompressedSize : Z;
  ModTime : Z;
  IsDir : bool
}.

(** ArchiveInfo contains metadata about an archive. *)
Record ArchiveInfo : Type := mkArchiveInfo {
  IsEncrypted : bool;
  RequiresPassword : bool;
  TotalFiles : Z;
  TotalSize : Z;
  Files : list FileEntry;
  Comment : gostring
}.

(** Common errors *)
Definition ErrFormatNotDetected := FormatError "unable to detect archive format".
Definition ErrPasswordIncorrect := FormatError "incorrect password".
Definition ErrPasswordRequired := FormatError "password required".
Definition ErrFileNotFound := FormatError "file not found in archive".
Definition ErrNotSupported := FormatError "operation not supported".

(** Field updates of [*ArchiveInfo]. *)
Definition set_IsEncrypted (b : bool) (i : ArchiveInfo) : ArchiveInfo :=
  mkArchiveInfo b i.(RequiresPassword) i.(TotalFiles) i.(TotalSize)
                i.(Files) i.(Comment).
Definition set_RequiresPassword (b : bool) (i : ArchiveInfo) : ArchiveInfo :=
  mkArchiveInfo i.(IsEncrypted) b i.(TotalFiles) i.(TotalSize)
                i.(Files) i.(Comment).

(** [info.Files = append(info.Files, entry)] followed by
    [if !entry.IsDir { info.TotalFiles++; info.TotalSize += entry.Size }] *)
Definition add_entry (entry : FileEntry) (i : ArchiveInfo) : ArchiveInfo :=
  mkArchiveInfo i.(IsEncrypted) i.(RequiresPassword)
    (if entry.(IsDir) then i.(TotalFiles) else wrap64 (i.(TotalFiles) + 1))
    (if entry.(IsDir) then i.(TotalSize)
     else wrap64 (i.(TotalSize) + entry.(Size)))
    (i.(Files) ++ [entry]) i.(Comment).

(** [strings.Contains(err.Error(), "password") ||
     strings.Contains(err.Error(), "encrypted")] *)
Definition password_error (err : error) : bool :=
  Contains (Error err) "password" || Contains (Error err) "encrypted".

(** The value pair [*ArchiveInfo, error] of [GetInfo], the pair
    [[]FileEntry, error] of [ListFiles], and the triple of [ExtractFile]
    (the stream is named by the entry it reads). *)
Definition InfoResult : Type := option ArchiveInfo * option error.
Definition ListResult : Type := Result error (list FileEntry).
Definition ExtractResult : Type := Result error (gostring * Z).

(** The directory filter that [TarFormat.ListFiles], [RarFormat.ListFiles]
    and [SevenZipFormat.ListFiles] apply to each entry, on the [innerPath]
    they computed before the loop; [true] is [continue]. *)
Definition skip_entry (innerPath normalizedName : gostring) : bool :=
  if negb (streq innerPath []) then
    if streq innerPath "/" then
      Contains (TrimSuffix normalizedName "/") "/"
    else
      if negb (HasPrefix normalizedName innerPath) then true
      else
        let relativePath := TrimPrefix normalizedName innerPath in
        Contains (TrimSuffix relativePath "/") "/"
  else false.

(** [innerPath = utils.NormalizePath(innerPath)], then, when the result
    is not empty, [innerPath = innerPath + "/"]. *)
Definition inner_prefix (innerPath : gostring) : gostring :=
  let innerPath := Utils.NormalizePath innerPath in
  if negb (streq innerPath []) then innerPath ++ "/" else innerPath.

(* ---------------------------------------------------------------- *)
(** *** [tar.go] *)

Module TarFormat.

Definition no_encryption : error :=
  FormatError "TAR format does not support encryption".

Definition byte_at (magic : gostring) (i : nat) : ascii :=
  nth i magic zero.

(** detectCompression determines the compression type. *)
Definition detectCompression (reader : ReaderAt) : Result error gostring :=
  match reader.(ReadAt) 10 0%Z with
  | (_, Some err) => Err (of_lib err)
  | (magic, None) =>
      if Ascii.eqb (byte_at magic 0) (ascii_of_nat 31)
         && Ascii.eqb (byte_at magic 1) (ascii_of_nat 139)
      then Ok (list_ascii_of_string "gzip")
      else if Ascii.eqb (byte_at magic 0) "B"
              && Ascii.eqb (byte_at magic 1) "Z"
      then Ok (list_ascii_of_string "bzip2")
      else if Ascii.eqb (byte_at magic 0) (ascii_of_nat 253)
              && Ascii.eqb (byte_at magic 1) (ascii_of_nat 55)
              && Ascii.eqb (byte_at magic 2) (ascii_of_nat 122)
              && Ascii.eqb (byte_at magic 3) (ascii_of_nat 88)
              && Ascii.eqb (byte_at magic 4) (ascii_of_nat 90)
              && Ascii.eqb (byte_at magic 5) (ascii_of_nat 0)
      then Ok (list_ascii_of_string "xz")
      else Ok (list_ascii_of_string "none")
  end.

(** wrapReader wraps the reader with appropriate decompression; the
    result is read through [tar.NewReader]. *)
Definition wrapReader (reader : ReaderAt) (compression : gostring)
  : Result liberr (Stream tar.Header) :=
  if streq compression "gzip" then reader.(gzip_NewReader)
  else if streq compression "bzip2" then Ok reader.(bzip2_NewReader)
  else if streq compression "xz" then reader.(xz_NewReader)
  else Ok reader.(plain).

Definition entry_of (header : tar.Header) : FileEntry :=
  mkFileEntry header.(tar.Name) header.(tar.Size) 0 header.(tar.ModTime)
              (Ascii.eqb header.(tar.Typeflag) tar.TypeDir).

Fixpoint GetInfo_loop (headers : list tar.Header) (stop : liberr)
         (info : ArchiveInfo) : InfoResult :=
  match headers with
  | [] =>
      match stop with
      | io_EOF => (Some info, None)
      | err =>
          (None, Some (WrapError "failed to read TAR header" (of_lib err)))
      end
  | header :: rest =>
      GetInfo_loop rest stop (add_entry (entry_of header) info)
  end.

(** GetInfo retrieves metadata about the TAR archive. *)
Definition GetInfo (reader : ReaderAt) (size : Z) (password : gostring)
  : InfoResult :=
  if negb (streq password []) then (None, Some no_encryption)
  else
    match detectCompression reader with
    | Err err => (None, Some err)
    | Ok compression =>
        match wrapReader reader compression with
        | Err err =>
            (None, Some (WrapError "failed to create decompressor"
                                   (of_lib err)))
        | Ok tarReader =>
            GetInfo_loop tarReader.(items) tarReader.(stop)
              (mkArchiveInfo false false 0 0 [] [])
        end
    end.

Fixpoint ListFiles_loop (headers : list tar.Header) (stop : liberr)
         (innerPath : gostring) (files : list FileEntry) : ListResult :=
  match headers with
  | [] =>
      match stop with
      | io_EOF => Ok files
      | err => Err (WrapError "failed to read TAR header" (of_lib err))
      end
  | header :: rest =>
      let normalizedName := Utils.NormalizePath header.(tar.Name) in
      if skip_entry innerPath normalizedName
      then ListFiles_loop rest stop innerPath files
      else ListFiles_loop rest stop innerPath (files ++ [entry_of header])
  end.

(** ListFiles returns a list of files in the TAR archive. *)
Definition ListFiles (reader : ReaderAt) (size : Z)
           (innerPath password : gostring) : ListResult :=
  if negb (streq password []) then Err no_encryption
  else
    match detectCompression reader with
    | Err err => Err err
    | Ok compression =>
        match wrapReader reader compression with
        | Err err =>
            Err (WrapError "failed to create decompressor" (of_lib err))
        | Ok tarReader =>
            ListFiles_loop tarReader.(items) tarReader.(stop)
              (inner_prefix innerPath) []
        end
    end.

Fixpoint ExtractFile_loop (headers : list tar.Header) (stop : liberr)
         (filePath : gostring) : ExtractResult :=
  match headers with
  | [] =>
      match stop with
      | io_EOF => Err ErrFileNotFound
      | err => Err (WrapError "failed to read TAR header" (of_lib err))
      end
  | header :: rest =>
      if streq (Utils.NormalizePath header.(tar.Name)) filePath
      then Ok (header.(tar.Name), header.(tar.Size))
      else ExtractFile_loop rest stop filePath
  end.

(** ExtractFile extracts a single file from the TAR archive. *)
Definition ExtractFile (reader : ReaderAt) (size : Z)
           (filePath password : gostring) : ExtractResult :=
  if negb (streq password []) then Err no_encryption
  else
    match detectCompression reader with
    | Err err => Err err
    | Ok compression =>
        match wrapReader reader compression with
        | Err err =>
            Err (WrapError "failed to create decompressor" (of_lib err))
        | Ok tarReader =>
            ExtractFile_loop tarReader.(items) tarReader.(stop)
              (Utils.NormalizePath filePath)
        end
    end.

(** Detect checks if the reader contains a TAR archive. *)
Definition Detect (reader : ReaderAt) (size : Z) : bool * option error :=
  (* the compression formats first *)
  match reader.(ReadAt) 10 0%Z with
  | (_, Some err) => (false, Some (of_lib err))
  | (magic, None) =>
      if Ascii.eqb (byte_at magic 0) (ascii_of_nat 31)
         && Ascii.eqb (byte_at magic 1) (ascii_of_nat 139)
      then (true, None)
      else if Ascii.eqb (byte_at magic 0) "B"
              && Ascii.eqb (byte_at magic 1) "Z"
      then (true, None)
      else if Ascii.eqb (byte_at magic 0) (ascii_of_nat 253)
              && Ascii.eqb (byte_at magic 1) (ascii_of_nat 55)
              && Ascii.eqb (byte_at magic 2) (ascii_of_nat 122)
              && Ascii.eqb (byte_at magic 3) (ascii_of_nat 88)
              && Ascii.eqb (byte_at magic 4) (ascii_of_nat 90)
              && Ascii.eqb (byte_at magic 5) (ascii_of_nat 0)
      then (true, None)
      else
        (* Plain TAR: the mark at offset 257 *)
        match reader.(ReadAt) 6 257%Z with
        | (ustar, None) =>
            if streq (map (byte_at ustar) (seq 0 5)) "ustar"
            then (true, None) else (false, None)
        | (_, Some _) => (false, None)
        end
  end.

End TarFormat.

(* ---------------------------------------------------------------- *)
(** *** [zip.go] *)

Module ZipFormat.
Section WithCodec.
Variable codec : chardet.Codec.

(** getEncoding returns the appropriate encoding for the given charset
    name. *)
Definition getEncoding (charset : gostring) : option chardet.Encoding :=
  if streq charset "UTF-8" then Some chardet.UTF8
  else if streq charset "UTF-16BE" then Some chardet.UTF16BE
  else if streq charset "UTF-16LE" then Some chardet.UTF16LE
  else if streq charset "ISO-8859-1" then Some chardet.ISO8859_1
  else if streq charset "ISO-8859-2" then Some chardet.ISO8859_2
  else if streq charset "windows-1251" then Some chardet.Windows1251
  else if streq charset "Shift_JIS" then Some chardet.ShiftJIS
  else if streq charset "GB-18030" || streq charset "GB18030"
  then Some chardet.GB18030
  else if streq charset "GBK" then Some chardet.GBK
  else if streq charset "EUC-KR" then Some chardet.EUCKR
  else if streq charset "Big5" then Some chardet.Big5
  else None.

(** The loop of [decodeName] over the detector's results. *)
Fixpoint pick_encoding (results : list chardet.Result_)
  : option chardet.Encoding :=
  match results with
  | [] => None
  | r :: rest =>
      if (30 <? r.(chardet.Confidence))%Z then
        match getEncoding r.(chardet.Charset) with
        | Some enc => Some enc
        | None => pick_encoding rest
        end
      else pick_encoding rest
  end.

(** decodeName handles various character encodings in ZIP file names. *)
Definition decodeName (name : gostring) : gostring :=
  match codec.(chardet.DetectAll) name with
  | Err _ => name
  | Ok results =>
      match pick_encoding results with
      | None => name
      | Some enc =>
          match codec.(chardet.Decode) enc name with
          | Err _ => name
          | Ok content => content
          end
      end
  end.

Definition entry_of (file : zip.File) : FileEntry :=
  let fileName := decodeName file.(zip.Name) in
  let isDir := HasSuffix fileName "/" || file.(zip.IsDir) in
  mkFileEntry fileName (wrap64 file.(zip.UncompressedSize64))
              (wrap64 file.(zip.CompressedSize64)) file.(zip.ModTime) isDir.

Fixpoint GetInfo_loop (files : list zip.File) (password : gostring)
         (passwordVerified : bool) (info : ArchiveInfo) : InfoResult :=
  match files with
  | [] =>
      (* If archive is encrypted and password wasn't provided, indicate
         it's required *)
      if info.(IsEncrypted) && streq password [] then
        (Some (set_RequiresPassword true info), Some ErrPasswordRequired)
      else (Some info, None)
  | file :: rest =>
      let continue_ (passwordVerified : bool) (info : ArchiveInfo) :=
        GetInfo_loop rest password passwordVerified
                     (add_entry (entry_of file) info) in
      if file.(zip.IsEncrypted) then
        let info := set_IsEncrypted true info in
        if negb passwordVerified && negb (streq password []) then
          (* Verify password by trying to open the file *)
          match file.(zip.Open) (Some password) with
          | Some err =>
              if Contains (Error (of_lib err)) "password" then
                (Some (set_RequiresPassword true info),
                 Some ErrPasswordIncorrect)
              else
                (None, Some (WrapError "failed to verify password"
                                       (of_lib err)))
          | None => continue_ true info
          end
        else if streq password [] then
          continue_ passwordVerified (set_RequiresPassword true info)
        else continue_ passwordVerified info
      else continue_ passwordVerified info
  end.

(** GetInfo retrieves metadata about the ZIP archive. *)
Definition GetInfo (reader : ReaderAt) (size : Z) (password : gostring)
  : InfoResult :=
  match reader.(zip_NewReader) with
  | Err err =>
      (None, Some (WrapError "failed to open ZIP archive" (of_lib err)))
  | Ok zipReader =>
      GetInfo_loop zipReader.(zip.File_) password false
        (mkArchiveInfo false false 0 0 [] zipReader.(zip.Comment))
  end.

(** The filter of [ZipFormat.ListFiles]; [true] is [continue]. *)
Definition skip_entry_zip (listAll isRoot : bool)
           (innerPath normalizedName : gostring) : bool :=
  if listAll then false
  else if isRoot then
    Contains (TrimSuffix normalizedName "/") "/"
  else
    if negb (HasPrefix normalizedName innerPath) then true
    else
      let relativePath := TrimPrefix normalizedName innerPath in
      Contains (TrimSuffix relativePath "/") "/".

Fixpoint ListFiles_loop (zfiles : list zip.File) (listAll isRoot : bool)
         (innerPath password : gostring) (passwordVerified : bool)
         (files : list FileEntry) : ListResult :=
  match zfiles with
  | [] => Ok files
  | file :: rest =>
      let fileName := decodeName file.(zip.Name) in
      let normalizedName := Utils.NormalizePath fileName in
      if skip_entry_zip listAll isRoot innerPath normalizedName then
        ListFiles_loop rest listAll isRoot innerPath password
                       passwordVerified files
      else
        let continue_ (passwordVerified : bool) :=
          ListFiles_loop rest listAll isRoot innerPath password
                         passwordVerified (files ++ [entry_of file]) in
        (* Verify password if file is encrypted *)
        if file.(zip.IsEncrypted) then
          if negb passwordVerified then
            if streq password [] then Err ErrPasswordRequired
            else
              match file.(zip.Open) (Some password) with
              | Some err =>
                  if Contains (Error (of_lib err)) "password"
                  then Err ErrPasswordIncorrect
                  else Err (WrapError "failed to open encrypted file"
                                      (of_lib err))
              | None => continue_ true
              end
          else continue_ passwordVerified
        else continue_ passwordVerified
  end.

(** ListFiles returns a list of files in the ZIP archive. *)
Definition ListFiles (reader : ReaderAt) (size : Z)
           (innerPath password : gostring) : ListResult :=
  match reader.(zip_NewReader) with
  | Err err => Err (WrapError "failed to open ZIP archive" (of_lib err))
  | Ok zipReader =>
      (* the original input is kept before NormalizePath: the empty
         string lists every file, "/" lists the first level *)
      let originalInnerPath := innerPath in
      let listAll := streq originalInnerPath [] in
      let isRoot := streq originalInnerPath "/" in
      let innerPath := Utils.NormalizePath innerPath in
      let innerPath := if streq innerPath "." then [] else innerPath in
      let innerPath :=
        if negb (streq innerPath []) && negb listAll && negb isRoot
        then innerPath ++ "/" else innerPath in
      ListFiles_loop zipReader.(zip.File_) listAll isRoot innerPath
                     password false []
  end.

Fixpoint ExtractFile_loop (zfiles : list zip.File)
         (filePath password : gostring) : ExtractResult :=
  match zfiles with
  | [] => Err ErrFileNotFound
  | file :: rest =>
      let fileName := decodeName file.(zip.Name) in
      if streq (Utils.NormalizePath fileName) filePath then
        if file.(zip.IsEncrypted) && streq password []
        then Err ErrPasswordRequired
        else
          let set := if file.(zip.IsEncrypted)
                     then Some password else None in
          match file.(zip.Open) set with
          | Some err =>
              if file.(zip.IsEncrypted)
                 && Contains (Error (of_lib err)) "password"
              then Err ErrPasswordIncorrect
              else Err (WrapError "failed to open file" (of_lib err))
          | None => Ok (fileName, wrap64 file.(zip.UncompressedSize64))
          end
      else ExtractFile_loop rest filePath password
  end.

(** ExtractFile extracts a single file from the ZIP archive. *)
Definition ExtractFile (reader : ReaderAt) (size : Z)
           (filePath password : gostring) : ExtractResult :=
  match reader.(zip_NewReader) with
  | Err err => Err (WrapError "failed to open ZIP archive" (of_lib err))
  | Ok zipReader =>
      ExtractFile_loop zipReader.(zip.File_)
                       (Utils.NormalizePath filePath) password
  end.

End WithCodec.

(** Detect checks if the reader contains a ZIP archive. *)
Definition Detect (reader : ReaderAt) (size : Z) : bool * option error :=
  match reader.(ReadAt) 4 0%Z with
  | (_, Some err) => (false, Some (of_lib err))
  | (magic, None) =>
      let b := TarFormat.byte_at magic in
      if Ascii.eqb (b 0) "P" && Ascii.eqb (b 1) "K"
         && ((Ascii.eqb (b 2) (ascii_of_nat 3)
              && Ascii.eqb (b 3) (ascii_of_nat 4))
             || (Ascii.eqb (b 2) (ascii_of_nat 5)
                 && Ascii.eqb (b 3) (ascii_of_nat 6))
             || (Ascii.eqb (b 2) (ascii_of_nat 7)
                 && Ascii.eqb (b 3) (ascii_of_nat 8)))
      then (true, None)
      else (false, None)
  end.

End ZipFormat.

(* ---------------------------------------------------------------- *)
(** *** [rar.go] *)

Module RarFormat.

(** The two ways the handlers open the decoder. *)
Definition open (reader : ReaderAt) (password : gostring)
  : Result liberr (Stream rardecode.FileHeader) :=
  if negb (streq password [])
  then reader.(rardecode_NewReader) (Some password)
  else reader.(rardecode_NewReader) None.

Definition entry_of (header : rardecode.FileHeader) : FileEntry :=
  mkFileEntry header.(rardecode.Name) header.(rardecode.UnPackedSize)
              header.(rardecode.PackedSize)
              header.(rardecode.ModificationTime)
              header.(rardecode.IsDir).

Fixpoint GetInfo_loop (headers : list rardecode.FileHeader)
         (stop : liberr) (password : gostring) (info : ArchiveInfo)
  : InfoResult :=
  match headers with
  | [] =>
      match stop with
      | io_EOF =>
          if info.(IsEncrypted) && streq password [] then
            (Some (set_RequiresPassword true info),
             Some ErrPasswordRequired)
          else (Some info, None)
      | err =>
          (* Is the error due to encryption? *)
          if password_error (of_lib err) then
            let info :=
              set_RequiresPassword true (set_IsEncrypted true info) in
            if negb (streq password [])
            then (Some info, Some ErrPasswordIncorrect)
            else (Some info, Some ErrPasswordRequired)
          else
            (None, Some (WrapError "failed to read RAR header"
                                   (of_lib err)))
      end
  | header :: rest =>
      GetInfo_loop rest stop password (add_entry (entry_of header) info)
  end.

(** GetInfo retrieves metadata about the RAR archive. *)
Definition GetInfo (reader : ReaderAt) (size : Z) (password : gostring)
  : InfoResult :=
  match open reader password with
  | Err err =>
      (None, Some (WrapError "failed to open RAR archive" (of_lib err)))
  | Ok rarReader =>
      GetInfo_loop rarReader.(items) rarReader.(stop) password
        (mkArchiveInfo false false 0 0 [] [])
  end.

(** The error branch shared by [ListFiles] and [ExtractFile]. *)
Definition header_error (err : liberr) (password : gostring) : error :=
  if password_error (of_lib err) then
    if negb (streq password []) then ErrPasswordIncorrect
    else ErrPasswordRequired
  else WrapError "failed to read RAR header" (of_lib err).

Fixpoint ListFiles_loop (headers : list rardecode.FileHeader)
         (stop : liberr) (innerPath password : gostring)
         (files : list FileEntry) : ListResult :=
  match headers with
  | [] =>
      match stop with
      | io_EOF => Ok files
      | err => Err (header_error err password)
      end
  | header :: rest =>
      let normalizedName := Utils.NormalizePath header.(rardecode.Name) in
      if skip_entry innerPath normalizedName
      then ListFiles_loop rest stop innerPath password files
      else ListFiles_loop rest stop innerPath password
                          (files ++ [entry_of header])
  end.

(** ListFiles returns a list of files in the RAR archive. *)
Definition ListFiles (reader : ReaderAt) (size : Z)
           (innerPath password : gostring) : ListResult :=
  match open reader password with
  | Err err => Err (WrapError "failed to open RAR archive" (of_lib err))
  | Ok rarReader =>
      ListFiles_loop rarReader.(items) rarReader.(stop)
                     (inner_prefix innerPath) password []
  end.

Fixpoint ExtractFile_loop (headers : list rardecode.FileHeader)
         (stop : liberr) (filePath password : gostring) : ExtractResult :=
  match headers with
  | [] =>
      match stop with
      | io_EOF => Err ErrFileNotFound
      | err => Err (header_error err password)
      end
  | header :: rest =>
      if streq (Utils.NormalizePath header.(rardecode.Name)) filePath
      then Ok (header.(rardecode.Name), header.(rardecode.UnPackedSize))
      else ExtractFile_loop rest stop filePath password
  end.

(** ExtractFile extracts a single file from the RAR archive. *)
Definition ExtractFile (reader : ReaderAt) (size : Z)
           (filePath password : gostring) : ExtractResult :=
  match open reader password with
  | Err err => Err (WrapError "failed to open RAR archive" (of_lib err))
  | Ok rarReader =>
      ExtractFile_loop rarReader.(items) rarReader.(stop)
                       (Utils.NormalizePath filePath) password
  end.

(** Detect checks if the reader contains a RAR archive. *)
Definition Detect (reader : ReaderAt) (size : Z) : bool * option error :=
  match reader.(ReadAt) 8 0%Z with
  | (_, Some err) => (false, Some (of_lib err))
  | (magic, None) =>
      let b := TarFormat.byte_at magic in
      (* RAR 4.x *)
      if (7 <=? 8) && Ascii.eqb (b 0) "R" && Ascii.eqb (b 1) "a"
         && Ascii.eqb (b 2) "r" && Ascii.eqb (b 3) "!"
         && Ascii.eqb (b 4) (ascii_of_nat 26)
         && Ascii.eqb (b 5) (ascii_of_nat 7)
         && Ascii.eqb (b 6) (ascii_of_nat 0)
      then (true, None)
      (* RAR 5.x *)
      else if (8 <=? 8) && Ascii.eqb (b 0) "R" && Ascii.eqb (b 1) "a"
              && Ascii.eqb (b 2) "r" && Ascii.eqb (b 3) "!"
              && Ascii.eqb (b 4) (ascii_of_nat 26)
              && Ascii.eqb (b 5) (ascii_of_nat 7)
              && Ascii.eqb (b 6) (ascii_of_nat 1)
              && Ascii.eqb (b 7) (ascii_of_nat 0)
      then (true, None)
      else (false, None)
  end.

End RarFormat.

(* ---------------------------------------------------------------- *)
(** *** [sevenzip.go] *)

Module SevenZipFormat.

(** The two ways the handlers open the decoder. *)
Definition open (reader : ReaderAt) (password : gostring)
  : Result liberr sevenzip.Reader :=
  if negb (streq password [])
  then reader.(sevenzip_NewReaderWithPassword) password
  else reader.(sevenzip_NewReader).

(** The error branch taken when the decoder cannot be opened or an entry
    cannot be opened, in [ListFiles] and [ExtractFile]. *)
Definition open_error (err : liberr) (password context : gostring)
  : error :=
  if password_error (of_lib err) then
    if negb (streq password []) then ErrPasswordIncorrect
    else ErrPasswordRequired
  else WrapError context (of_lib err).

Definition entry_of (file : sevenzip.File) : FileEntry :=
  mkFileEntry file.(sevenzip.Name) (wrap64 file.(sevenzip.UncompressedSize))
              0 file.(sevenzip.Modified) file.(sevenzip.IsDir).

(** [isEncrypted] of one round of the loop of [GetInfo]. *)
Definition entry_encrypted (file : sevenzip.File) (password : gostring)
  : bool :=
  if streq password [] then
    (* Try to open without password *)
    match file.(sevenzip.Open) with
    | Some err => password_error (of_lib err)
    | None => false
    end
  else false.

Fixpoint GetInfo_loop (files : list sevenzip.File) (password : gostring)
         (info : ArchiveInfo) : ArchiveInfo :=
  match files with
  | [] => info
  | file :: rest =>
      let isEncrypted := entry_encrypted file password in
      let info :=
        if isEncrypted
        then set_RequiresPassword true (set_IsEncrypted true info)
        else info in
      let info := add_entry (entry_of file) info in
      if isEncrypted
      then info (* Stop if we find encrypted content and no password *)
      else GetInfo_loop rest password info
  end.

(** GetInfo retrieves metadata about the 7z archive. *)
Definition GetInfo (reader : ReaderAt) (size : Z) (password : gostring)
  : InfoResult :=
  match open reader password with
  | Err err =>
      (* Is the error due to the password? *)
      if password_error (of_lib err) then
        let info := mkArchiveInfo true true 0 0 [] [] in
        if negb (streq password [])
        then (Some info, Some ErrPasswordIncorrect)
        else (Some info, Some ErrPasswordRequired)
      else
        (None, Some (WrapError "failed to open 7z archive" (of_lib err)))
  | Ok szReader =>
      let info :=
        GetInfo_loop szReader.(sevenzip.File_) password
                     (mkArchiveInfo false false 0 0 [] []) in
      if info.(IsEncrypted) && streq password []
      then (Some info, Some ErrPasswordRequired)
      else (Some info, None)
  end.

Fixpoint ListFiles_loop (szfiles : list sevenzip.File)
         (innerPath : gostring) (files : list FileEntry)
  : list FileEntry :=
  match szfiles with
  | [] => files
  | file :: rest =>
      let normalizedName := Utils.NormalizePath file.(sevenzip.Name) in
      if skip_entry innerPath normalizedName
      then ListFiles_loop rest innerPath files
      else ListFiles_loop rest innerPath (files ++ [entry_of file])
  end.

(** ListFiles returns a list of files in the 7z archive. *)
Definition ListFiles (reader : ReaderAt) (size : Z)
           (innerPath password : gostring) : ListResult :=
  match open reader password with
  | Err err => Err (open_error err password "failed to open 7z archive")
  | Ok szReader =>
      Ok (ListFiles_loop szReader.(sevenzip.File_)
                         (inner_prefix innerPath) [])
  end.

Fixpoint ExtractFile_loop (szfiles : list sevenzip.File)
         (filePath password : gostring) : ExtractResult :=
  match szfiles with
  | [] => Err ErrFileNotFound
  | file :: rest =>
      if streq (Utils.NormalizePath file.(sevenzip.Name)) filePath then
        match file.(sevenzip.Open) with
        | Some err => Err (open_error err password "failed to open file")
        | None =>
            Ok (file.(sevenzip.Name),
                wrap64 file.(sevenzip.UncompressedSize))
        end
      else ExtractFile_loop rest filePath password
  end.

(** ExtractFile extracts a single file from the 7z archive. *)
Definition ExtractFile (reader : ReaderAt) (size : Z)
           (filePath password : gostring) : ExtractResult :=
  match open reader password with
  | Err err => Err (open_error err password "failed to open 7z archive")
  | Ok szReader =>
      ExtractFile_loop szReader.(sevenzip.File_)
                       (Utils.NormalizePath filePath) password
  end.

(** Detect checks if the reader contains a 7z archive. *)
Definition Detect (reader : ReaderAt) (size : Z) : bool * option error :=
  match reader.(ReadAt) 6 0%Z with
  | (_, Some err) => (false, Some (of_lib err))
  | (magic, None) =>
      let b := TarFormat.byte_at magic in
      if Ascii.eqb (b 0) (ascii_of_nat 55)
         && Ascii.eqb (b 1) (ascii_of_nat 122)
         && Ascii.eqb (b 2) (ascii_of_nat 188)
         && Ascii.eqb (b 3) (ascii_of_nat 175)
         && Ascii.eqb (b 4) (ascii_of_nat 39)
         && Ascii.eqb (b 5) (ascii_of_nat 28)
      then (true, None)
      else (false, None)
  end.

End SevenZipFormat.

(* ---------------------------------------------------------------- *)
(** *** [format.go]: the interface and the registry *)

(** The four handlers that the [init] functions register. *)
Inductive Handler : Type := Zip | Rar | SevenZip | Tar.

Definition handlers : list Handler := [Zip; Rar; SevenZip; Tar].

Section Dispatch.
Variable codec : chardet.Codec.

Definition Name (h : Handler) : gostring :=
  match h with
  | Zip => "zip" | Rar => "rar" | SevenZip => "7z" | Tar => "tar"
  end.

Definition GetInfo (h : Handler)
  : ReaderAt -> Z -> gostring -> InfoResult :=
  match h with
  | Zip => ZipFormat.GetInfo codec
  | Rar => RarFormat.GetInfo
  | SevenZip => SevenZipFormat.GetInfo
  | Tar => TarFormat.GetInfo
  end.

Definition ListFiles (h : Handler)
  : ReaderAt -> Z -> gostring -> gostring -> ListResult :=
  match h with
  | Zip => ZipFormat.ListFiles codec
  | Rar => RarFormat.ListFiles
  | SevenZip => SevenZipFormat.ListFiles
  | Tar => TarFormat.ListFiles
  end.

Definition ExtractFile (h : Handler)
  : ReaderAt -> Z -> gostring -> gostring -> ExtractResult :=
  match h with
  | Zip => ZipFormat.ExtractFile codec
  | Rar => RarFormat.ExtractFile
  | SevenZip => SevenZipFormat.ExtractFile
  | Tar => TarFormat.ExtractFile
  end.
End Dispatch.

Definition Extensions (h : Handler) : list gostring :=
  match h with
  | Zip => [list_ascii_of_string ".zip"]
  | Rar => [list_ascii_of_string ".rar"]
  | SevenZip => [list_ascii_of_string ".7z"]
  | Tar => map list_ascii_of_string
               [".tar"; ".tar.gz"; ".tgz"; ".tar.bz2"; ".tbz2"; ".tar.xz";
                ".txz"]%string
  end.

Definition Detect (h : Handler) : ReaderAt -> Z -> bool * option error :=
  match h with
  | Zip => ZipFormat.Detect
  | Rar => RarFormat.Detect
  | SevenZip => SevenZipFormat.Detect
  | Tar => TarFormat.Detect
  end.

(** [err == nil && detected] *)
Definition detected (h : Handler) (reader : ReaderAt) (size : Z) : bool :=
  match Detect h reader size with
  | (true, None) => true
  | _ => false
  end.

(** The loop of [DetectFormat] over the extensions of one format;
    [true] is [return format, nil]. *)
Fixpoint try_extensions (h : Handler) (exts : list gostring)
         (reader : ReaderAt) (size : Z) (extension : gostring) : bool :=
  match exts with
  | [] => false
  | ext :: rest =>
      if streq ext extension then
        if detected h reader size then true
        else try_extensions h rest reader size extension
      else try_extensions h rest reader size extension
  end.

(** First try by extension *)
Fixpoint by_extension (formats : list Handler) (reader : ReaderAt)
         (size : Z) (extension : gostring) : option Handler :=
  match formats with
  | [] => None
  | format :: rest =>
      if try_extensions format (Extensions format) reader size extension
      then Some format
      else by_extension rest reader size extension
  end.

(** Try all formats *)
Fixpoint by_content (formats : list Handler) (reader : ReaderAt) (size : Z)
  : option Handler :=
  match formats with
  | [] => None
  | format :: rest =>
      if detected format reader size then Some format
      else by_content rest reader size
  end.

(** DetectFormat attempts to detect the archive format.  The registry is a
    Go map, and a [range] over it goes through the formats in an order
    that is not specified: [first] and [second] are the orders of the two
    loops. *)
Definition DetectFormat (first second : list Handler) (reader : ReaderAt)
           (size : Z) (extension : gostring) : Result error Handler :=
  match by_extension first reader size extension with
  | Some format => Ok format
  | None =>
      match by_content second reader size with
      | Some format => Ok format
      | None => Err ErrFormatNotDetected
      end
  end.

(** Format defines the interface that all archive format handlers must
    implement ([Detect] and [Extensions] are left out).  A method call
    runs against the transport: it may send range requests. *)
Module Format.
Record t : Type := mk {
  Name : gostring;
  GetInfo : ReaderAt -> Z -> gostring -> Rangehttp.IO InfoResult;
  ListFiles :
    ReaderAt -> Z -> gostring -> gostring -> Rangehttp.IO ListResult;
  ExtractFile :
    ReaderAt -> Z -> gostring -> gostring -> Rangehttp.IO ExtractResult
}.
End Format.

(** The range requests that a handler sends while a decoder reads the
    surface: they depend on the decoder, and are left open. *)
Definition Traffic : Type :=
  Handler -> ReaderAt -> Rangehttp.Net -> Rangehttp.Net.

Definition reading {A} (t : Rangehttp.Net -> Rangehttp.Net) (a : A)
  : Rangehttp.IO A := fun net => (a, t net).

(** A registered handler, as a [Format]. *)
Definition as_Format (codec : chardet.Codec) (traffic : Traffic)
           (h : Handler) : Format.t :=
  Format.mk (Name h)
    (fun r size password =>
       reading (traffic h r) (GetInfo codec h r size password))
    (fun r size innerPath password =>
       reading (traffic h r) (ListFiles codec h r size innerPath password))
    (fun r size filePath password =>
       reading (traffic h r) (ExtractFile codec h r size filePath password)).

End Formats.

(* ================================================================== *)
(** ** Package [lib]: the archive facade ([archive.go])                 *)
(* ================================================================== *)

Module Lib.
Import Strings Go Formats.

(** Archive represents a remote archive file accessed via HTTP Range
    requests. *)
Record Archive : Type := mkArchive {
  url : gostring;
  size : Z;
  reader : ReaderAt;
  format : Format.t
}.

(** GetInfo returns metadata about the archive. *)
Definition GetInfo (a : Archive) (password : gostring)
  : Rangehttp.IO InfoResult :=
  a.(format).(Format.GetInfo) a.(reader) a.(size) password.

(** ListFiles returns a list of files in the archive. *)
Definition ListFiles (a : Archive) (innerPath password : gostring)
  : Rangehttp.IO ListResult :=
  a.(format).(Format.ListFiles) a.(reader) a.(size) innerPath password.

(** ExtractFile extracts a single file from the archive. *)
Definition ExtractFile (a : Archive) (filePath password : gostring)
  : Rangehttp.IO ExtractResult :=
  (* Validate path *)
  if negb (Utils.IsValidPath filePath)
  then Rangehttp.ret (Err ErrPathTraversal)
  else a.(format).(Format.ExtractFile) a.(reader) a.(size) filePath password.

(** Format returns the detected archive format name. *)
Definition Format_ (a : Archive) : gostring := a.(format).(Format.Name).

(** The convenience functions create an Archive, call it, and close it.
    [NewArchive] opens the URL with the configuration of the caller; what
    it returns depends on the origin. *)
Section Quick.
Variable NewArchive : gostring -> Rangehttp.IO (Result error Archive).

(** QuickInfo creates an Archive, gets info, and closes it. *)
Definition QuickInfo (archiveURL password : gostring)
  : Rangehttp.IO InfoResult :=
  Rangehttp.bind (NewArchive archiveURL) (fun res =>
  match res with
  | Err err => Rangehttp.ret (None, Some err)
  | Ok archive => GetInfo archive password
  end).

(** QuickList creates an Archive, lists files, and closes it. *)
Definition QuickList (archiveURL innerPath password : gostring)
  : Rangehttp.IO ListResult :=
  Rangehttp.bind (NewArchive archiveURL) (fun res =>
  match res with
  | Err err => Rangehttp.ret (Err err)
  | Ok archive => ListFiles archive innerPath password
  end).

(** QuickExtract creates an Archive and extracts a file; the archive is
    closed at once on an error, and with the returned reader otherwise. *)
Definition QuickExtract (archiveURL filePath password : gostring)
  : Rangehttp.IO ExtractResult :=
  Rangehttp.bind (NewArchive archiveURL) (fun res =>
  match res with
  | Err err => Rangehttp.ret (Err err)
  | Ok archive => ExtractFile archive filePath password
  end).

End Quick.

End Lib.

(* ================================================================== *)
(** ** Package [cmd/server/handlers]: the HTTP API                      *)
(* ================================================================== *)

Module Handlers.
Import Strings Go Formats.

(** Request structures for POST JSON APIs, as [parseJSONRequest] has
    decoded them. *)
Record InfoRequest : Type := mkInfoRequest {
  info_URL : gostring;
  info_Password : gostring
}.

Record ListRequest : Type := mkListRequest {
  list_URL : gostring;
  list_Password : gostring;
  list_InnerPath : gostring
}.

Record ExtractRequest : Type := mkExtractRequest {
  extract_URL : gostring;
  extract_Password : gostring;
  extract_File : gostring
}.

(** InfoResponse represents the response for /api/info. *)
Record InfoResponse : Type := mkInfoResponse {
  IsEncrypted : bool;
  RequiresPassword : bool;
  TotalFiles : Z;
  TotalSize : Z;
  Format : gostring;
  Comment : gostring
}.

(** FileEntryResponse represents a file entry in the response. *)
Record FileEntryResponse : Type := mkFileEntryResponse {
  Path : gostring;
  Size : Z;
  CompressedSize : Z;
  ModTime : Z;
  IsDir : bool
}.

Definition StatusOK : Z := 200.
Definition StatusBadRequest : Z := 400.
Definition StatusUnauthorized : Z := 401.
Definition StatusNotFound : Z := 404.
Definition StatusInternalServerError : Z := 500.

(** What a handler writes to the [http.ResponseWriter]:
    [respondError(w, status, message, code)], [respondJSON(w, status, r)]
    with an InfoResponse or a ListResponse, the download of an extracted
    member (its headers, then the stream named by the member), or nothing
    when the handler panics on a nil pointer. *)
Inductive Reply : Type :=
| respondError (status : Z) (message code : gostring)
| respondInfo (status : Z) (response : InfoResponse)
| respondList (status : Z) (files : list FileEntryResponse)
| download (filename : gostring) (ContentLength : Z) (member : gostring)
| panic.

(** convertFileEntries converts library file entries to response
    format. *)
Definition convertFileEntries (entries : list FileEntry)
  : list FileEntryResponse :=
  map (fun entry =>
         mkFileEntryResponse entry.(Formats.Path) entry.(Formats.Size)
           entry.(Formats.CompressedSize) entry.(Formats.ModTime)
           entry.(Formats.IsDir))
      entries.

(** The password branch shared by the three handlers. *)
Definition password_reply (password : gostring) : Reply :=
  if negb (streq password []) then
    respondError StatusUnauthorized "Incorrect password" "WRONG_PASSWORD"
  else
    respondError StatusUnauthorized "Password required" "PASSWORD_REQUIRED".

Section WithArchives.
Variable NewArchive : gostring -> Rangehttp.IO (Result error Lib.Archive).
(** [filepath.Base] *)
Variable filepath_Base : gostring -> gostring.

(** Info handles POST /api/info requests. *)
Definition Info (req : InfoRequest) : Rangehttp.IO Reply :=
  (* Validate URL *)
  if streq req.(info_URL) [] then
    Rangehttp.ret (respondError StatusBadRequest "url is required"
                                "MISSING_URL")
  else
    Rangehttp.bind
      (Lib.QuickInfo NewArchive req.(info_URL) req.(info_Password))
      (fun res =>
    match snd res with
    | Some err =>
        (* Determine error type *)
        let errMsg := Error err in
        Rangehttp.ret
          (if Contains errMsg "password" then
             password_reply req.(info_Password)
           else if Contains errMsg "unsupported" || Contains errMsg "format"
           then respondError StatusBadRequest "Unsupported archive format"
                             "UNSUPPORTED_FORMAT"
           else if Contains errMsg "URL" || Contains errMsg "request failed"
           then respondError StatusBadRequest "Failed to access URL"
                             "URL_ERROR"
           else respondError StatusInternalServerError
                             "Failed to get archive info" "INTERNAL_ERROR")
    | None =>
        match fst res with
        | None => Rangehttp.ret panic
        | Some info =>
            (* Create response *)
            let response :=
              mkInfoResponse info.(Formats.IsEncrypted)
                info.(Formats.RequiresPassword) info.(Formats.TotalFiles)
                info.(Formats.TotalSize) [] info.(Formats.Comment) in
            (* Get format from a new archive instance *)
            Rangehttp.bind (NewArchive req.(info_URL)) (fun res' =>
            Rangehttp.ret
              (respondInfo StatusOK
                 match res' with
                 | Ok archive =>
                     mkInfoResponse response.(IsEncrypted)
                       response.(RequiresPassword) response.(TotalFiles)
                       response.(TotalSize) (Lib.Format_ archive)
                       response.(Comment)
                 | Err _ => response
                 end))
        end
    end).

(** List handles POST /api/list requests. *)
Definition List (req : ListRequest) : Rangehttp.IO Reply :=
  if streq req.(list_URL) [] then
    Rangehttp.ret (respondError StatusBadRequest "url is required"
                                "MISSING_URL")
  else
    Rangehttp.bind
      (Lib.QuickList NewArchive req.(list_URL) req.(list_InnerPath)
                     req.(list_Password))
      (fun res =>
    match res with
    | Err err =>
        let errMsg := Error err in
        Rangehttp.ret
          (if Contains errMsg "password" then
             password_reply req.(list_Password)
           else if Contains errMsg "not found" then
             respondError StatusNotFound "Path not found in archive"
                          "PATH_NOT_FOUND"
           else if Contains errMsg "unsupported" || Contains errMsg "format"
           then respondError StatusBadRequest "Unsupported archive format"
                             "UNSUPPORTED_FORMAT"
           else if Contains errMsg "URL" || Contains errMsg "request failed"
           then respondError StatusBadRequest "Failed to access URL"
                             "URL_ERROR"
           else respondError StatusInternalServerError
                             "Failed to list files" "INTERNAL_ERROR")
    | Ok files =>
        Rangehttp.ret (respondList StatusOK (convertFileEntries files))
    end).

(** Extract handles POST /api/extract requests. *)
Definition Extract (req : ExtractRequest) : Rangehttp.IO Reply :=
  (* Validate URL and file path *)
  if streq req.(extract_URL) [] then
    Rangehttp.ret (respondError StatusBadRequest "url is required"
                                "MISSING_URL")
  else if streq req.(extract_File) [] then
    Rangehttp.ret (respondError StatusBadRequest "file is required"
                                "MISSING_FILE")
  else
    Rangehttp.bind
      (Lib.QuickExtract NewArchive req.(extract_URL) req.(extract_File)
                        req.(extract_Password))
      (fun res =>
    match res with
    | Err err =>
        let errMsg := Error err in
        Rangehttp.ret
          (if Contains errMsg "password" then
             password_reply req.(extract_Password)
           else if Contains errMsg "not found" then
             respondError StatusNotFound "File not found in archive"
                          "FILE_NOT_FOUND"
           else if Contains errMsg "unsupported" || Contains errMsg "format"
           then respondError StatusBadRequest "Unsupported archive format"
                             "UNSUPPORTED_FORMAT"
           else if Contains errMsg "URL" || Contains errMsg "request failed"
           then respondError StatusBadRequest "Failed to access URL"
                             "URL_ERROR"
           else if Contains errMsg "path traversal" then
             respondError StatusBadRequest "Invalid file path" "INVALID_PATH"
           else respondError StatusInternalServerError
                             "Failed to extract file" "INTERNAL_ERROR")
    | Ok (member, size) =>
        (* Get filename from path; set headers for file download; stream
           file to response *)
        Rangehttp.ret (download (filepath_Base req.(extract_File)) size
                                member)
    end).

End WithArchives.

End Handlers.

(* ================================================================== *)
(** ** Vocabulary of the properties                                     *)
(* ================================================================== *)

Module Props.
Import Strings Go Formats.

(** A path has the segment [seg] when [seg] is one of the pieces between
    its slashes. *)
Definition has_segment (seg path : gostring) : Prop :=
  In seg (segments path).

(** A real path element, as [path.Clean] copies it: not empty, without a
    slash, and neither [.] nor [..]. *)
Definition normal (s : gostring) : Prop :=
  s <> [] /\ ~ In "/"%char s
  /\ s <> list_ascii_of_string "." /\ s <> list_ascii_of_string "..".

(** [rooted && out.w != 1 || !rooted && out.w != 0] *)
Definition sep_needed (rooted : bool) (out : Path.lazybuf) : bool :=
  (rooted && negb (length out =? 1)) || (negb rooted && negb (length out =? 0)).

(** The buffer that holds [k] leading [..] elements (unrooted paths). *)
Fixpoint dotdots (k : nat) : Path.lazybuf :=
  match k with
  | O => []
  | S k' =>
      "."%char :: "."%char
        :: (if 0 <? length (dotdots k') then "/"%char :: dotdots k'
            else dotdots k')
  end.

Definition base (rooted : bool) (k : nat) : Path.lazybuf :=
  if rooted then ["/"%char] else dotdots k.

(** The buffer that holds the real elements [segs] (last one first) above
    [bottom]. *)
Fixpoint stack (rooted : bool) (bottom : Path.lazybuf)
         (segs : list gostring) : Path.lazybuf :=
  match segs with
  | [] => bottom
  | s :: below =>
      let out := stack rooted bottom below in
      rev s ++ (if sep_needed rooted out then "/"%char :: out else out)
  end.

(** The shape of a cleaned relative path: [k] times [..], then real
    elements, joined by single slashes. *)
Definition clean_form (p : gostring) : Prop :=
  exists k segs,
    Forall normal segs /\ p = rev (stack false (dotdots k) segs).

(** The path elements [elems], each behind a slash. *)
Fixpoint behind_slashes (elems : list gostring) : gostring :=
  match elems with
  | [] => []
  | e :: rest => "/"%char :: e ++ behind_slashes rest
  end.

(** An entry is at the top level when its normalized name has no slash,
    a trailing one set aside. *)
Definition top_level (name : gostring) : bool :=
  negb (Contains (TrimSuffix (Utils.NormalizePath name) "/") "/").

(** What [GetInfo], called without a password, takes as encryption, for
    each handler: ZIP, a member whose encrypted flag is set; RAR, a header
    iteration that ends on a password error; 7Z, a password error at open
    time or when a member is opened; TAR, nothing. *)
Definition encryption_seen (h : Handler) (reader : ReaderAt) : Prop :=
  match h with
  | Zip =>
      exists zr file,
        reader.(zip_NewReader) = Ok zr
        /\ In file zr.(zip.File_) /\ file.(zip.IsEncrypted) = true
  | Rar =>
      exists rr,
        reader.(rardecode_NewReader) None = Ok rr
        /\ password_error (of_lib rr.(stop)) = true
  | SevenZip =>
      (exists e,
          reader.(sevenzip_NewReader) = Err e
          /\ password_error (of_lib e) = true)
      \/ (exists sr file e,
             reader.(sevenzip_NewReader) = Ok sr
             /\ In file sr.(sevenzip.File_)
             /\ file.(sevenzip.Open) = Some e
             /\ password_error (of_lib e) = true)
  | Tar => False
  end.

(** [requires_password] implies [is_encrypted]. *)
Definition flags_ok (info : ArchiveInfo) : Prop :=
  info.(RequiresPassword) = true -> info.(IsEncrypted) = true.

(** A ZIP archive none of whose members is encrypted. *)
Definition none_encrypted (zfiles : list zip.File) : Prop :=
  forall file, In file zfiles -> file.(zip.IsEncrypted) = false.

(** What is left to deliver of the pending bytes [d], when [n] bytes have
    been delivered and the cap is [cap] (no cap unless positive). *)
Definition capped (cap n : Z) (d : gostring) : gostring :=
  if (0 <? cap)%Z then firstn (Z.to_nat (cap - n)) d else d.

(** The bytes that a reader still has to deliver: the pending bytes of a
    body; for a skipReader, those behind the bytes to skip, up to its
    cap. *)
Definition stream (rd : Rangehttp.ReadCloser) : gostring :=
  match rd with
  | Rangehttp.Plain b => b.(Rangehttp.pending)
  | Rangehttp.Skip s =>
      capped s.(Rangehttp.length_) s.(Rangehttp.read)
        (if s.(Rangehttp.skipOnce) then s.(Rangehttp.reader).(Rangehttp.pending)
         else skipn (Z.to_nat s.(Rangehttp.skip))
                    s.(Rangehttp.reader).(Rangehttp.pending))
  end.

(** The counters of a reader fit [int64]. *)
Definition in_range (rd : Rangehttp.ReadCloser) : Prop :=
  match rd with
  | Rangehttp.Plain _ => True
  | Rangehttp.Skip s =>
      (0 <= s.(Rangehttp.read))%Z
      /\ (s.(Rangehttp.read)
          + Z.of_nat (length s.(Rangehttp.reader).(Rangehttp.pending))
          < 2 ^ 63)%Z
  end.

(** The cursor of a section reader lies within its section. *)
Definition cursor_ok (s : Rangehttp.SectionReader) : Prop :=
  (0 <= s.(Rangehttp.off) <= s.(Rangehttp.current))%Z
  /\ (s.(Rangehttp.current) <= s.(Rangehttp.limit) < 2 ^ 63)%Z.

(** The totals that [GetInfo] keeps beside the entries: the number of
    entries that are not directories, and the sum of their sizes. *)
Definition count_files (files : list FileEntry) : Z :=
  Z.of_nat (length (filter (fun e => negb e.(IsDir)) files)).

Fixpoint sum_sizes (files : list FileEntry) : Z :=
  match files with
  | [] => 0%Z
  | e :: rest =>
      if e.(IsDir) then sum_sizes rest else (e.(Size) + sum_sizes rest)%Z
  end.

Definition totals_ok (info : ArchiveInfo) : Prop :=
  info.(TotalFiles) = wrap64 (count_files info.(Files))
  /\ info.(TotalSize) = wrap64 (sum_sizes info.(Files)).

(** An entry is listed under [innerPath] by the TAR, RAR and 7z handlers
    when their directory filter does not skip it. *)
Definition listed (innerPath : gostring) (e : FileEntry) : bool :=
  negb (skip_entry (inner_prefix innerPath) (Utils.NormalizePath e.(Path))).

(** The surface [reader] reads the file [file]: a read that reports no
    error has filled the buffer with the bytes of the file at the offset,
    as many as the buffer holds or as are left. *)
Definition reads_file (reader : ReaderAt) (file : gostring) : Prop :=
  forall n off data,
    reader.(ReadAt) n off = (data, None) ->
    data = firstn n (skipn (Z.to_nat off) file).

(** The file is taken for a TAR archive for its mark at offset 257
    alone. *)
Definition ustar_only (reader : ReaderAt) (size : Z) : Prop :=
  detected Tar reader size = true
  /\ TarFormat.detectCompression reader = Ok (list_ascii_of_string "none").

(** The first byte of a file that is detected as ZIP, RAR or 7z. *)
Definition lead (h : Handler) : ascii :=
  match h with
  | Zip => "P"%char
  | Rar => "R"%char
  | SevenZip => ascii_of_nat 55
  | Tar => zero
  end.

(** Every archive that [NewArchive] opens has one of the four registered
    handlers for its format. *)
Definition registered_formats (codec : chardet.Codec) (traffic : Traffic)
           (NewArchive : gostring -> Rangehttp.IO (Result error Lib.Archive))
  : Prop :=
  forall url net archive net',
    NewArchive url net = (Ok archive, net') ->
    exists h, archive.(Lib.format) = as_Format codec traffic h.

(** A header map as [net/http] keeps it: one entry per key, and every key
    in its canonical form. *)
Definition well_keyed (h : list (gostring * gostring)) : Prop :=
  NoDup (map fst h)
  /\ forall k, In k (map fst h) -> Rangehttp.CanonicalMIMEHeaderKey k = k.

(** The members of a 7z archive up to and including the first one that
    cannot be opened without a password. *)
Fixpoint up_to_locked (files : list sevenzip.File) : list sevenzip.File :=
  match files with
  | [] => []
  | file :: rest =>
      if SevenZipFormat.entry_encrypted file [] then [file]
      else file :: up_to_locked rest
  end.

(** The entries that a handler has enumerated when [GetInfo], called
    without a password, returns for an archive with encryption: every
    member of a ZIP archive; the headers of a RAR archive that were read
    before the iteration ended; the members of a 7z archive up to and
    including the first that cannot be opened, and none when the archive
    itself cannot be opened.  (TAR knows no encryption.) *)
Definition enumerated (codec : chardet.Codec) (h : Handler)
           (reader : ReaderAt) : list FileEntry :=
  match h with
  | Zip =>
      match reader.(zip_NewReader) with
      | Ok zr => map (ZipFormat.entry_of codec) zr.(zip.File_)
      | Err _ => []
      end
  | Rar =>
      match reader.(rardecode_NewReader) None with
      | Ok rr => map RarFormat.entry_of rr.(items)
      | Err _ => []
      end
  | SevenZip =>
      match reader.(sevenzip_NewReader) with
      | Ok sr => map SevenZipFormat.entry_of (up_to_locked sr.(sevenzip.File_))
      | Err _ => []
      end
  | Tar => []
  end.

End Props.

(* ================================================================== *)
(** ** Sample archives and origins                                      *)
(* ================================================================== *)

Module Samples.
Import Strings Go Formats.

(** A detector that recognises nothing: names are surfaced verbatim. *)
Definition raw_codec : chardet.Codec :=
  chardet.mkCodec (fun _ => Err (lib_error "no charset detected"))
                  (fun _ name => Ok name).

Definition not_this_format {A} : Result liberr A :=
  Err (lib_error "not a valid archive").

Definition no_stream {H} : Stream H := mkStream [] (lib_error "unexpected EOF").

(** A plain TAR archive with the single member [a.txt]. *)
Definition a_txt : tar.Header := tar.mkHeader "a.txt" 5 1700000000 "0".

Definition one_file_tar : ReaderAt :=
  mkReaderAt (fun n _ => (firstn n ("a.txt" ++ repeat zero 507), None))
             not_this_format (fun _ => not_this_format)
             not_this_format (fun _ => not_this_format)
             not_this_format no_stream not_this_format
             (mkStream [a_txt] io_EOF).

(** A plain TAR archive that holds the member [a.txt] twice, the first
    time under the name [./a.txt], and is cut short after it. *)
Definition readme : tar.Header := tar.mkHeader "README" 9 1700000000 "0".
Definition dot_a_txt : tar.Header :=
  tar.mkHeader "./a.txt" 5 1700000000 "0".

Definition twice_tar : ReaderAt :=
  mkReaderAt (fun n _ => (firstn n ("README" ++ repeat zero 506), None))
             not_this_format (fun _ => not_this_format)
             not_this_format (fun _ => not_this_format)
             not_this_format no_stream not_this_format
             (mkStream [readme; dot_a_txt; a_txt]
                       (lib_error "unexpected EOF")).

(** A ZIP archive whose single member [secret.txt] is encrypted with the
    password [hunter2]. *)
Definition secret_txt : zip.File :=
  zip.mkFile "secret.txt" true 12 24 1700000000 false
    (fun set =>
       match set with
       | Some pw =>
           if streq pw "hunter2" then None
           else Some (lib_error "zip: invalid password")
       | None => Some (lib_error "zip: password required")
       end).

Definition encrypted_zip : ReaderAt :=
  mkReaderAt (fun n _ => (firstn n ("PK" ++ repeat zero 510), None))
             (Ok (zip.mkReader [secret_txt] []))
             (fun _ => not_this_format)
             not_this_format (fun _ => not_this_format)
             not_this_format no_stream not_this_format no_stream.

(** A 7z archive whose second member [vault.bin] cannot be opened
    without a password. *)
Definition readme_md : sevenzip.File :=
  sevenzip.mkFile "readme.md" 40 1700000000 false None.
Definition vault_bin : sevenzip.File :=
  sevenzip.mkFile "vault.bin" 4096 1700000000 false
    (Some (lib_error "sevenzip: password required")).
Definition notes_md : sevenzip.File :=
  sevenzip.mkFile "notes.md" 12 1700000000 false None.

Definition locked_7z : ReaderAt :=
  mkReaderAt (fun n _ => (firstn n ("7z" ++ repeat zero 510), None))
             not_this_format (fun _ => not_this_format)
             (Ok (sevenzip.mkReader [readme_md; vault_bin; notes_md]))
             (fun _ => not_this_format)
             not_this_format no_stream not_this_format no_stream.

(** Handlers that send no request of their own. *)
Definition quiet : Traffic := fun _ _ net => net.

Definition tar_archive : Lib.Archive :=
  Lib.mkArchive "http://host/a.tar" 10240 one_file_tar
                (as_Format raw_codec quiet Tar).

(** An origin that ignores the [Range] header: it answers every request
    with 200 OK and the ten bytes of the whole file, four bytes a read. *)
Definition whole_file : gostring := "0123456789".

Definition deaf_origin : Rangehttp.HTTPClient :=
  Rangehttp.mkHTTPClient
    (fun method url => Ok (Rangehttp.mkRequest method url []))
    (fun _ => Ok (Rangehttp.mkResponse 200 10 (Rangehttp.mkBody whole_file 3))).

Definition client : Rangehttp.Client :=
  Rangehttp.mkClient deaf_origin [] "Stream-7z/1.0" 30.

Definition open_reader : Rangehttp.RangeReader :=
  Rangehttp.mkRangeReader client "http://host/a.bin" 10 false.

(** A reader whose size could not be established ([Content-Length]
    unknown). *)
Definition unsized_reader : Rangehttp.RangeReader :=
  Rangehttp.mkRangeReader client "http://host/a.bin" (-1) false.

(** The surface of a file that is read without errors. *)
Definition surface (file : gostring) : ReaderAt :=
  mkReaderAt (fun n off => (firstn n (skipn (Z.to_nat off) file), None))
             not_this_format (fun _ => not_this_format)
             not_this_format (fun _ => not_this_format)
             not_this_format no_stream not_this_format no_stream.

(** The first bytes of a gzip stream. *)
Definition gz_file : gostring :=
  ascii_of_nat 31 :: ascii_of_nat 139 :: ascii_of_nat 8 :: repeat zero 509.

(** A plain TAR archive whose first member has a name that begins with
    the signature of a ZIP local file header. *)
Definition pk_tar_file : gostring :=
  "P"%char :: "K"%char :: ascii_of_nat 3 :: ascii_of_nat 4
    :: repeat zero 253 ++ list_ascii_of_string "ustar" ++ repeat zero 250.

(** An opener that finds the TAR sample behind every URL, without a
    request of its own. *)
Definition open_tar (url : gostring)
  : Rangehttp.IO (Result error Lib.Archive) :=
  Rangehttp.ret (Ok tar_archive).

(** An opener that finds the encrypted ZIP sample behind every URL. *)
Definition zip_archive : Lib.Archive :=
  Lib.mkArchive "http://host/s.zip" 512 encrypted_zip
                (as_Format raw_codec quiet Zip).

Definition open_zip (url : gostring)
  : Rangehttp.IO (Result error Lib.Archive) :=
  Rangehttp.ret (Ok zip_archive).

(** The last element of a path that has no trailing slash. *)
Definition last_element (p : gostring) : gostring :=
  last (segments p) [].

End Samples.

(* ================================================================== *)
(** ** Facts about strings                                              *)
(* ================================================================== *)

Module StringsFacts.
Import Strings.

Lemma streq_refl (a : gostring) : streq a a = true.
Proof.
  induction a as [|x a IH]; simpl; [reflexivity|].
  now rewrite Ascii.eqb_refl, IH.
Qed.

Lemma streq_eq (a b : gostring) : streq a b = true <-> a = b.
Proof.
  split.
  - revert b; induction a as [|x a IH]; intros [|y b]; simpl;
      try discriminate; [reflexivity|].
    intros H. apply andb_true_iff in H as [Hxy Hab].
    apply Ascii.eqb_eq in Hxy. f_equal; auto.
  - intros ->. apply streq_refl.
Qed.

Lemma streq_neq (a b : gostring) : streq a b = false <-> a <> b.
Proof.
  rewrite <- streq_eq. destruct (streq a b); split; congruence.
Qed.

Lemma HasPrefix_iff (s p : gostring) :
  HasPrefix s p = true <-> exists t, s = p ++ t.
Proof.
  unfold HasPrefix. rewrite andb_true_iff, Nat.leb_le, streq_eq. split.
  - intros [_ H]. exists (skipn (length p) s).
    rewrite <- H at 1. symmetry. apply firstn_skipn.
  - intros [t ->]. rewrite length_app. split; [lia|].
    rewrite firstn_app, Nat.sub_diag, firstn_all. simpl.
    now rewrite app_nil_r.
Qed.

Lemma HasPrefix_cons (c d : ascii) (s : gostring) :
  HasPrefix (c :: s) [d] = Ascii.eqb c d.
Proof.
  unfold HasPrefix. simpl. now rewrite andb_true_r.
Qed.

Lemma TrimPrefix_app (p t : gostring) : TrimPrefix (p ++ t) p = t.
Proof.
  unfold TrimPrefix.
  assert (H : HasPrefix (p ++ t) p = true) by (apply HasPrefix_iff; eauto).
  rewrite H. rewrite skipn_app, Nat.sub_diag, skipn_all. reflexivity.
Qed.

Lemma Contains_iff (s sub : gostring) :
  Contains s sub = true <-> exists a b, s = a ++ sub ++ b.
Proof.
  split.
  - induction s as [|c s IH]; simpl; rewrite orb_true_iff.
    + intros [H|H]; [|discriminate].
      apply HasPrefix_iff in H as [t Ht]. exists [], t. exact Ht.
    + intros [H|H].
      * apply HasPrefix_iff in H as [t Ht]. exists [], t. exact Ht.
      * destruct (IH H) as (a & b & ->). exists (c :: a), b. reflexivity.
  - intros (a & b & ->). induction a as [|c a IH].
    + assert (H : HasPrefix (sub ++ b) sub = true)
        by (apply HasPrefix_iff; eauto).
      simpl app. destruct (sub ++ b); simpl; rewrite H; reflexivity.
    + simpl. rewrite IH. apply orb_true_r.
Qed.

Lemma Contains_slash_In (s : gostring) :
  Contains s "/" = true <-> In "/"%char s.
Proof.
  rewrite Contains_iff. split.
  - intros (a & b & ->). apply in_or_app. right. now left.
  - intros H. apply in_split in H as (a & b & ->). exists a, b. reflexivity.
Qed.

(** *** [span_elem] *)

Lemma span_elem_spec (s : gostring) :
  let (e, r) := span_elem s in
  s = e ++ r /\ ~ In "/"%char e /\ Path.end_or_slash r = true.
Proof.
  induction s as [|c s IH]; simpl.
  - repeat split; auto.
  - destruct (Ascii.eqb c "/") eqn:Hc.
    + repeat split; auto.
    + destruct (span_elem s) as [e r]. destruct IH as (-> & Hno & Hr).
      repeat split; auto. intros [E|H]; [|auto].
      subst c. now rewrite Ascii.eqb_refl in Hc.
Qed.

Lemma span_elem_length (s : gostring) :
  length (snd (span_elem s)) <= length s.
Proof.
  pose proof (span_elem_spec s) as H. destruct (span_elem s) as [e r].
  destruct H as (-> & _). rewrite length_app. simpl. lia.
Qed.

(** *** [segments] *)

Lemma segments_aux_app (cur a b : gostring) :
  segments_aux cur (a ++ "/"%char :: b)
  = segments_aux cur a ++ segments_aux [] b.
Proof.
  revert cur. induction a as [|c a IH]; intros cur; simpl.
  - reflexivity.
  - destruct (Ascii.eqb c "/"); simpl; now rewrite IH.
Qed.

Lemma segments_app_slash (a b : gostring) :
  segments (a ++ "/"%char :: b) = segments a ++ segments b.
Proof. apply segments_aux_app. Qed.

Lemma segments_aux_plain (cur s : gostring) :
  ~ In "/"%char s -> segments_aux cur s = [rev cur ++ s].
Proof.
  revert cur. induction s as [|c s IH]; intros cur Hno; simpl.
  - now rewrite app_nil_r.
  - destruct (Ascii.eqb c "/") eqn:Hc.
    + apply Ascii.eqb_eq in Hc. subst. exfalso. apply Hno. now left.
    + rewrite IH by (intros H; apply Hno; now right).
      simpl. now rewrite <- app_assoc.
Qed.

Lemma segments_plain (s : gostring) :
  ~ In "/"%char s -> segments s = [s].
Proof. intros H. unfold segments. now rewrite segments_aux_plain. Qed.

Lemma segments_aux_nonempty (cur s : gostring) : segments_aux cur s <> [].
Proof.
  revert cur. induction s as [|c s IH]; intros cur; simpl; [discriminate|].
  destruct (Ascii.eqb c "/"); [discriminate|apply IH].
Qed.

(** A segment of a path is a substring of it. *)
Lemma segment_substring (seg s : gostring) :
  In seg (segments s) -> exists a b, s = a ++ seg ++ b.
Proof.
  unfold segments.
  assert (G : forall s cur,
             In seg (segments_aux cur s) ->
             exists a b, rev cur ++ s = a ++ seg ++ b).
  { clear s. induction s as [|c s IH]; intros cur; simpl.
    - intros [<-|[]]. exists [], []. now rewrite !app_nil_r.
    - destruct (Ascii.eqb c "/").
      + intros [<-|H].
        * exists [], (c :: s). reflexivity.
        * destruct (IH [] H) as (a & b & E). simpl in E.
          exists (rev cur ++ c :: a), b. rewrite E.
          now rewrite <- app_assoc.
      + intros H. destruct (IH (c :: cur) H) as (a & b & E).
        exists a, b. rewrite <- E. simpl. now rewrite <- app_assoc. }
  intros H. apply (G s []) in H. exact H.
Qed.

End StringsFacts.

(* ================================================================== *)
(** ** Facts about [path.Clean] and [NormalizePath]                     *)
(* ================================================================== *)

Module PathFacts.
Import Strings Path Props StringsFacts.

Lemma backtrack_seg (s out : lazybuf) (dotdot : nat) :
  ~ In "/"%char s -> dotdot <= length out ->
  backtrack (s ++ "/"%char :: out) dotdot = out.
Proof.
  induction s as [|c s IH]; intros Hno Hle.
  - simpl. now rewrite andb_false_r.
  - simpl. assert (Hc : Ascii.eqb c "/" = false).
    { apply Ascii.eqb_neq. intros ->. apply Hno. now left. }
    rewrite Hc. simpl negb. rewrite andb_true_r.
    assert (Hlt : (dotdot <? length (s ++ "/"%char :: out)) = true).
    { apply Nat.ltb_lt. rewrite length_app. simpl. lia. }
    rewrite Hlt. apply IH; [|assumption]. intros H. apply Hno. now right.
Qed.

Lemma backtrack_bottom (s out : lazybuf) (dotdot : nat) :
  s <> [] -> ~ In "/"%char s -> length out = dotdot ->
  backtrack (s ++ out) dotdot = out.
Proof.
  induction s as [|c s IH]; intros Hne Hno Hlen; [congruence|].
  assert (Hc : Ascii.eqb c "/" = false).
  { apply Ascii.eqb_neq. intros ->. apply Hno. now left. }
  simpl. rewrite Hc. simpl negb. rewrite andb_true_r.
  destruct s as [|c' s'].
  - simpl. subst dotdot. now rewrite Nat.ltb_irrefl.
  - assert (Hlt : (dotdot <? length ((c' :: s') ++ out)) = true).
    { apply Nat.ltb_lt. rewrite length_app. simpl. lia. }
    rewrite Hlt. apply IH; [discriminate| |assumption].
    intros H. apply Hno. now right.
Qed.

Lemma normal_nonempty (s : gostring) : normal s -> 0 < length s.
Proof. intros (H & _). destruct s; [congruence|simpl; lia]. Qed.

Lemma normal_rev_no_slash (s : gostring) : normal s -> ~ In "/"%char (rev s).
Proof. intros (_ & H & _) Hin. apply H. now apply in_rev. Qed.

Lemma stack_length (rooted : bool) (bottom : lazybuf) (segs : list gostring) :
  length bottom <= length (stack rooted bottom segs).
Proof.
  induction segs as [|s below IH]; simpl; [lia|].
  rewrite length_app. destruct (sep_needed _ _); simpl; lia.
Qed.

Lemma stack_length_cons (rooted : bool) (bottom : lazybuf) (s : gostring)
      (below : list gostring) :
  normal s -> length bottom < length (stack rooted bottom (s :: below)).
Proof.
  intros Hs. simpl. rewrite length_app, length_rev.
  pose proof (normal_nonempty s Hs).
  pose proof (stack_length rooted bottom below).
  destruct (sep_needed _ _); simpl; lia.
Qed.

Lemma base_length (rooted : bool) (k : nat) :
  rooted = true -> length (base rooted k) = 1.
Proof. intros ->. reflexivity. Qed.

(** Popping the last real element. *)
Lemma backtrack_stack (rooted : bool) (k : nat) (s : gostring)
      (below : list gostring) :
  normal s -> (rooted = true -> k = 0) ->
  backtrack (stack rooted (base rooted k) (s :: below))
            (length (base rooted k))
  = stack rooted (base rooted k) below.
Proof.
  intros Hs Hk. simpl.
  pose proof (stack_length rooted (base rooted k) below) as Hle.
  destruct (sep_needed rooted (stack rooted (base rooted k) below)) eqn:Hsep.
  - apply backtrack_seg; [now apply normal_rev_no_slash|assumption].
  - apply backtrack_bottom.
    + destruct Hs as (Hne & _). intros E. apply Hne.
      rewrite <- (rev_involutive s), E. reflexivity.
    + now apply normal_rev_no_slash.
    + unfold sep_needed in Hsep. destruct rooted; simpl in Hsep.
      * rewrite orb_false_r in Hsep. apply negb_false_iff, Nat.eqb_eq in Hsep.
        exact Hsep.
      * apply negb_false_iff, Nat.eqb_eq in Hsep.
        unfold base in *. lia.
Qed.

(** What the copy of a real element pushes is a normal element. *)
Lemma copied_elem_normal (c : ascii) (rest1 elem rest' : gostring) :
  Ascii.eqb c "/" = false ->
  Ascii.eqb c "." && end_or_slash rest1 = false ->
  Ascii.eqb c "."
  && match rest1 with
     | c1 :: rest2 => Ascii.eqb c1 "." && end_or_slash rest2
     | [] => false
     end = false ->
  span_elem (c :: rest1) = (elem, rest') ->
  normal elem.
Proof.
  intros Hc Hdot Hdd Hspan.
  pose proof (span_elem_spec (c :: rest1)) as H. rewrite Hspan in H.
  destruct H as (E & Hno & Hend).
  repeat split; [ |exact Hno| | ].
  - intros ->. simpl in E. subst rest'. simpl in Hend. congruence.
  - intros ->. simpl in E. injection E as -> ->.
    simpl in Hdot. congruence.
  - intros ->. simpl in E. injection E as -> ->.
    simpl in Hdd. congruence.
Qed.

(** The loop keeps the buffer in the shape [stack]: leading [..] elements
    (none when rooted), then real elements. *)
Lemma Clean_loop_inv (fuel : nat) :
  forall (rooted : bool) (rest : gostring) (k : nat) (segs : list gostring),
    Forall normal segs -> (rooted = true -> k = 0) ->
    exists k' segs',
      Forall normal segs' /\ (rooted = true -> k' = 0)
      /\ Clean_loop fuel rooted rest
                    (stack rooted (base rooted k) segs)
                    (length (base rooted k))
         = stack rooted (base rooted k') segs'.
Proof.
  induction fuel as [|fuel IH]; intros rooted rest k segs Hsegs Hk.
  - exists k, segs. auto.
  - destruct rest as [|c rest1]; [exists k, segs; auto|].
    cbn [Clean_loop].
    destruct (Ascii.eqb c "/") eqn:Hc; [now apply IH|].
    destruct (Ascii.eqb c "." && end_or_slash rest1) eqn:Hdot;
      [now apply IH|].
    destruct (Ascii.eqb c "."
              && match rest1 with
                 | c1 :: rest2 => Ascii.eqb c1 "." && end_or_slash rest2
                 | [] => false
                 end) eqn:Hdd.
    + cbv zeta.
      destruct (length (base rooted k)
                <? length (stack rooted (base rooted k) segs)) eqn:Hlt.
      * destruct segs as [|s below].
        { simpl in Hlt. now rewrite Nat.ltb_irrefl in Hlt. }
        rewrite backtrack_stack; [|now inversion Hsegs|assumption].
        apply IH; [now inversion Hsegs|assumption].
      * destruct segs as [|s below].
        2:{ apply Nat.ltb_ge in Hlt.
            pose proof (stack_length_cons rooted (base rooted k) s below) as H.
            assert (normal s) by now inversion Hsegs. specialize (H H0). lia. }
        destruct rooted; simpl negb; cbv iota.
        { now apply (IH true _ k []). }
        apply (IH false _ (S k) []); [constructor|discriminate].
    + destruct (span_elem (c :: rest1)) as [elem rest'] eqn:Hspan.
      apply (IH rooted rest' k (elem :: segs)); [|assumption].
      constructor; [|assumption].
      eapply copied_elem_normal; eauto.
Qed.

(** [len(path)] rounds are enough: more fuel changes nothing. *)
Lemma Clean_loop_fuel (f1 : nat) :
  forall (f2 : nat) (rooted : bool) (rest : gostring) (out : lazybuf)
         (dotdot : nat),
    length rest <= f1 -> length rest <= f2 ->
    Clean_loop f1 rooted rest out dotdot = Clean_loop f2 rooted rest out dotdot.
Proof.
  induction f1 as [|f1 IH]; intros f2 rooted rest out dotdot H1 H2.
  - destruct rest; [|simpl in H1; lia]. destruct f2; reflexivity.
  - destruct f2 as [|f2].
    { destruct rest; [reflexivity|simpl in H2; lia]. }
    destruct rest as [|c rest1]; [reflexivity|]. simpl in H1, H2.
    cbn [Clean_loop].
    destruct (Ascii.eqb c "/") eqn:Hc; [apply IH; lia|].
    destruct (Ascii.eqb c "." && end_or_slash rest1); [apply IH; lia|].
    assert (Htl : length (tl rest1) <= length rest1)
      by (destruct rest1; simpl; lia).
    destruct (Ascii.eqb c "." && _).
    + cbv zeta. destruct (dotdot <? length out); [apply IH; lia|].
      destruct (negb rooted); apply IH; lia.
    + pose proof (span_elem_spec (c :: rest1)) as Hs.
      destruct (span_elem (c :: rest1)) as [elem rest'] eqn:Hspan.
      destruct Hs as (E & Hno & Hend).
      assert (length rest' <= length rest1).
      { destruct elem as [|e elem'].
        - simpl in E. subst rest'. simpl in Hend. congruence.
        - apply (f_equal (@length _)) in E. simpl in E.
          rewrite length_app in E. lia. }
      apply IH; lia.
Qed.

(** *** The shape of a cleaned path *)

Lemma stack_rooted (segs : list gostring) :
  stack true ["/"%char] segs = stack false [] segs ++ ["/"%char].
Proof.
  induction segs as [|s below IH]; [reflexivity|].
  simpl. rewrite IH.
  assert (E : sep_needed true (stack false [] below ++ ["/"%char])
              = sep_needed false (stack false [] below)).
  { unfold sep_needed. rewrite length_app. simpl length.
    rewrite Nat.add_1_r. simpl. now rewrite orb_false_r. }
  rewrite E. destruct (sep_needed false _); simpl; now rewrite <- app_assoc.
Qed.

Lemma dotdots_length (k : nat) : length (dotdots k) = 0 -> k = 0.
Proof. destruct k; [reflexivity|simpl; discriminate]. Qed.

Lemma rev_dotdots_segments (k : nat) :
  segments (rev (dotdots (S k)))
  = repeat (list_ascii_of_string "..") (S k).
Proof.
  induction k as [|k IH]; [reflexivity|].
  change (dotdots (S (S k)))
    with ("."%char :: "."%char :: "/"%char :: dotdots (S k)).
  change (rev ("."%char :: "."%char :: "/"%char :: dotdots (S k)))
    with (((rev (dotdots (S k)) ++ ["/"%char]) ++ ["."%char]) ++ ["."%char]).
  replace (((rev (dotdots (S k)) ++ ["/"%char]) ++ ["."%char]) ++ ["."%char])
    with (rev (dotdots (S k)) ++ "/"%char :: ["."%char; "."%char])
    by (now rewrite <- !app_assoc).
  rewrite segments_app_slash, IH.
  change (segments ["."%char; "."%char]) with [list_ascii_of_string ".."].
  now rewrite <- repeat_cons.
Qed.

(** The segments of a cleaned relative path are its [..] elements followed
    by its real elements. *)
Lemma clean_segments (k : nat) (segs : list gostring) :
  Forall normal segs ->
  (rev (stack false (dotdots k) segs) = [] /\ k = 0 /\ segs = [])
  \/ (rev (stack false (dotdots k) segs) <> []
      /\ segments (rev (stack false (dotdots k) segs))
         = repeat (list_ascii_of_string "..") k ++ rev segs).
Proof.
  induction segs as [|s below IH]; intros Hsegs.
  - destruct k as [|k]; [left; auto|right]. cbn [stack]. split.
    + intros E. apply (f_equal (@length _)) in E.
      rewrite length_rev in E. simpl in E. discriminate.
    + rewrite rev_dotdots_segments. now rewrite app_nil_r.
  - right. inversion Hsegs as [|? ? Hs Hbelow]; subst.
    specialize (IH Hbelow). cbn [stack].
    set (out := stack false (dotdots k) below) in *.
    rewrite rev_app_distr, rev_involutive.
    split.
    { destruct Hs as (Hne & _). intros E. apply app_eq_nil in E as [_ E].
      contradiction. }
    unfold sep_needed. simpl andb. simpl orb.
    destruct (length out =? 0) eqn:Hlen; simpl negb; cbv iota.
    + apply Nat.eqb_eq in Hlen. destruct out; [|discriminate]. simpl.
      destruct IH as [(_ & -> & ->)|(Hne & _)]; [|now elim Hne].
      simpl. apply segments_plain. apply Hs.
    + apply Nat.eqb_neq in Hlen.
      destruct IH as [(E & _)|(_ & IH)].
      { apply (f_equal (@length _)) in E. rewrite length_rev in E.
        simpl in E. contradiction. }
      simpl rev at 1. rewrite <- app_assoc. simpl app at 2.
      rewrite segments_app_slash, IH, segments_plain by apply Hs.
      simpl rev. now rewrite app_assoc.
Qed.

Lemma dotdot_not_normal : ~ normal (list_ascii_of_string "..").
Proof. intros (_ & _ & _ & H). now apply H. Qed.

Lemma clean_form_segments (p : gostring) :
  clean_form p ->
  p = [] \/ exists k rest,
      Forall normal rest
      /\ segments p = repeat (list_ascii_of_string "..") k ++ rest.
Proof.
  intros (k & segs & Hsegs & ->).
  destruct (clean_segments k segs Hsegs) as [(E & _)|(_ & E)]; [now left|].
  right. exists k, (rev segs). split; [now apply Forall_rev|exact E].
Qed.

(** No segment of a cleaned relative path is empty. *)
Lemma clean_form_no_empty_segment (p : gostring) :
  clean_form p -> p = [] \/ ~ In [] (segments p).
Proof.
  intros H. destruct (clean_form_segments p H) as [->|(k & rest & Hr & E)];
    [now left|right].
  rewrite E. intros Hin. apply in_app_or in Hin as [Hin|Hin].
  - apply repeat_spec in Hin. discriminate.
  - rewrite Forall_forall in Hr. apply Hr in Hin. now destruct Hin.
Qed.

Lemma clean_form_no_dot_segment (p : gostring) :
  clean_form p -> ~ In (list_ascii_of_string ".") (segments p).
Proof.
  intros H. destruct (clean_form_segments p H) as [->|(k & rest & Hr & E)].
  - simpl. intros [E|[]]. discriminate.
  - rewrite E. intros Hin. apply in_app_or in Hin as [Hin|Hin].
    + apply repeat_spec in Hin. discriminate.
    + rewrite Forall_forall in Hr. apply Hr in Hin.
      destruct Hin as (_ & _ & Hd & _). now apply Hd.
Qed.

Lemma clean_form_dotdot_leading (p : gostring) :
  clean_form p ->
  exists k rest,
    segments p = repeat (list_ascii_of_string "..") k ++ rest
    /\ ~ In (list_ascii_of_string "..") rest.
Proof.
  intros H. destruct (clean_form_segments p H) as [->|(k & rest & Hr & E)].
  - exists 0, [[]]. split; [reflexivity|]. intros [E|[]]. discriminate.
  - exists k, rest. split; [exact E|]. intros Hin.
    rewrite Forall_forall in Hr. apply Hr in Hin.
    now apply dotdot_not_normal.
Qed.

Lemma clean_form_no_lead_slash (p : gostring) :
  clean_form p -> HasPrefix p "/" = false.
Proof.
  intros H. destruct p as [|c t]; [reflexivity|].
  change (list_ascii_of_string "/") with ["/"%char].
  rewrite HasPrefix_cons.
  destruct (Ascii.eqb c "/") eqn:Hc; [|reflexivity].
  apply Ascii.eqb_eq in Hc. subst c.
  destruct (clean_form_no_empty_segment _ H) as [E|Hno]; [discriminate|].
  exfalso. apply Hno. unfold segments. simpl. now left.
Qed.

(** [NormalizePath] yields ["."] or a cleaned relative path. *)
Lemma NormalizePath_form (p : gostring) :
  Utils.NormalizePath p = list_ascii_of_string "."
  \/ clean_form (Utils.NormalizePath p).
Proof.
  unfold Utils.NormalizePath.
  destruct (TrimPrefix p "/") as [|c p1]; [now left|].
  unfold Clean.
  destruct (Ascii.eqb c "/") eqn:Hc; cbv zeta.
  - destruct (Clean_loop_inv (length (c :: p1)) true (tl (c :: p1)) 0 [])
      as (k & segs & Hsegs & Hk & E); [constructor|reflexivity|].
    cbn [stack base length] in E |- *. rewrite E.
    rewrite stack_rooted, length_app. simpl length.
    replace (length (stack false [] segs) + 1 =? 0) with false
      by (symmetry; apply Nat.eqb_neq; lia).
    rewrite rev_app_distr. simpl rev.
    change (["/"%char] ++ rev (stack false [] segs))
      with (list_ascii_of_string "/" ++ rev (stack false [] segs)).
    rewrite TrimPrefix_app. right. exists 0, segs. auto.
  - destruct (Clean_loop_inv (length (c :: p1)) false (c :: p1) 0 [])
      as (k & segs & Hsegs & _ & E); [constructor|discriminate|].
    cbn [stack base length dotdots] in E |- *. rewrite E.
    destruct (length (stack false (dotdots k) segs) =? 0); [now left|].
    right.
    assert (Hcf : clean_form (rev (stack false (dotdots k) segs)))
      by (exists k, segs; auto).
    unfold TrimPrefix. rewrite (clean_form_no_lead_slash _ Hcf). exact Hcf.
Qed.

Lemma HasSuffix_iff (s x : gostring) :
  HasSuffix s x = true <-> exists t, s = t ++ x.
Proof.
  unfold HasSuffix. rewrite andb_true_iff, Nat.leb_le, streq_eq. split.
  - intros [_ H]. exists (firstn (length s - length x) s).
    rewrite <- H at 2. symmetry. apply firstn_skipn.
  - intros [t ->]. rewrite length_app. split; [lia|].
    replace (length t + length x - length x) with (length t) by lia.
    rewrite skipn_app, Nat.sub_diag, skipn_all. reflexivity.
Qed.

(** A normalized path neither ends with a slash nor starts with [./]. *)
Lemma NormalizePath_no_trailing_slash (p : gostring) :
  HasSuffix (Utils.NormalizePath p) "/" = false.
Proof.
  destruct (NormalizePath_form p) as [->|H]; [reflexivity|].
  destruct (HasSuffix (Utils.NormalizePath p) "/") eqn:Hs; [|reflexivity].
  apply HasSuffix_iff in Hs as [t Ht].
  destruct (clean_form_no_empty_segment _ H) as [E|Hno].
  - rewrite E in Ht. destruct t; discriminate.
  - exfalso. apply Hno. rewrite Ht.
    change (t ++ list_ascii_of_string "/") with (t ++ "/"%char :: []).
    rewrite segments_app_slash. apply in_or_app. right. now left.
Qed.

Lemma NormalizePath_no_dot_prefix (p : gostring) :
  HasPrefix (Utils.NormalizePath p) "./" = false.
Proof.
  destruct (NormalizePath_form p) as [->|H]; [reflexivity|].
  destruct (HasPrefix (Utils.NormalizePath p) "./") eqn:Hs; [|reflexivity].
  apply HasPrefix_iff in Hs as [t Ht].
  exfalso. apply (clean_form_no_dot_segment _ H). rewrite Ht.
  change (list_ascii_of_string "./" ++ t) with (["."%char] ++ "/"%char :: t).
  rewrite segments_app_slash. apply in_or_app. left. now left.
Qed.

Lemma TrimSuffix_NormalizePath (p : gostring) :
  TrimSuffix (Utils.NormalizePath p) "/" = Utils.NormalizePath p.
Proof.
  unfold TrimSuffix. now rewrite NormalizePath_no_trailing_slash.
Qed.

End PathFacts.

(* ================================================================== *)
(** ** Properties of [lib/utils]: path normalization                    *)
(* ================================================================== *)

Module PathProps.
Import Strings Go Props StringsFacts PathFacts.

(** The table of [TestNormalizePath] holds of the model. *)
Lemma TestNormalizePath_passes :
  forall t, In t PathTests.TestNormalizePath ->
            Utils.NormalizePath (fst t) = snd t.
Proof.
  intros t H. unfold PathTests.TestNormalizePath in H. simpl in H.
  repeat (destruct H as [<-|H]; [reflexivity|]). destruct H.
Qed.

(** The table of [TestIsValidPath] holds of the model. *)
Lemma TestIsValidPath_passes :
  forall t, In t PathTests.TestIsValidPath ->
            Utils.IsValidPath (fst t) = snd t.
Proof.
  intros t H. unfold PathTests.TestIsValidPath in H. simpl in H.
  repeat (destruct H as [<-|H]; [reflexivity|]). destruct H.
Qed.

(** C5, as stated, fails: the empty path normalizes to [.], which is a
    [.] segment, and a path that climbs above its root keeps its leading
    [..] segment. *)
Lemma NormalizePath_keeps_dot_and_dotdot :
  has_segment "." (Utils.NormalizePath [])
  /\ has_segment ".." (Utils.NormalizePath "../x").
Proof. split; left; reflexivity. Qed.

(** C5 (amended): for every input string [p], [NormalizePath p] has no
    leading slash; it has no [.] segment unless it is exactly ["."]; and
    its [..] segments, if any, all come first. *)
Theorem NormalizePath_normal_form :
  forall p : gostring,
    HasPrefix (Utils.NormalizePath p) "/" = false
    /\ (Utils.NormalizePath p = list_ascii_of_string "."
        \/ ~ has_segment "." (Utils.NormalizePath p))
    /\ (exists k rest,
           segments (Utils.NormalizePath p)
           = repeat (list_ascii_of_string "..") k ++ rest
           /\ ~ In (list_ascii_of_string "..") rest).
Proof.
  intros p. destruct (NormalizePath_form p) as [E|H].
  - rewrite E. split; [reflexivity|]. split; [now left|].
    exists 0, [list_ascii_of_string "."]. split; [reflexivity|].
    intros [H|[]]. discriminate.
  - split; [now apply clean_form_no_lead_slash|].
    split; [right; now apply clean_form_no_dot_segment|].
    now apply clean_form_dotdot_leading.
Qed.

(** A path that [IsValidPath] accepts normalizes without any [..]
    segment. *)
Lemma IsValidPath_no_dotdot_segment (p : gostring) :
  Utils.IsValidPath p = true -> ~ has_segment ".." (Utils.NormalizePath p).
Proof.
  unfold Utils.IsValidPath, has_segment. intros Hv Hin.
  destruct (Contains p "..") eqn:H1; [discriminate|].
  destruct (Contains (Utils.NormalizePath p) "..") eqn:H2; [discriminate|].
  apply segment_substring in Hin. apply Contains_iff in Hin. congruence.
Qed.

End PathProps.

(* ================================================================== *)
(** ** Properties of the facade: the path-traversal guard               *)
(* ================================================================== *)

Module FacadeProps.
Import Strings Go Formats Props StringsFacts PathFacts.

(** Case analysis on every [match] and [if] of a goal. *)
Ltac split_cases :=
  repeat match goal with
         | |- context [match ?x with _ => _ end] => destruct x eqn:?
         end.

Lemma of_lib_not_traversal (e : liberr) : of_lib e <> ErrPathTraversal.
Proof. destruct e; discriminate. Qed.

Lemma zip_extract_no_traversal codec files filePath password :
  ZipFormat.ExtractFile_loop codec files filePath password
  <> Err ErrPathTraversal.
Proof.
  induction files as [|file rest IH]; simpl; [discriminate|].
  split_cases; try discriminate. exact IH.
Qed.

Lemma rar_header_error_no_traversal err password :
  RarFormat.header_error err password <> ErrPathTraversal.
Proof. unfold RarFormat.header_error. split_cases; discriminate. Qed.

Lemma rar_extract_no_traversal headers stop filePath password :
  RarFormat.ExtractFile_loop headers stop filePath password
  <> Err ErrPathTraversal.
Proof.
  induction headers as [|header rest IH]; simpl.
  - destruct stop as [|t]; [discriminate|].
    intros H. injection H as H.
    now apply rar_header_error_no_traversal in H.
  - split_cases; [discriminate|exact IH].
Qed.

Lemma sevenzip_open_error_no_traversal err password context :
  SevenZipFormat.open_error err password context <> ErrPathTraversal.
Proof. unfold SevenZipFormat.open_error. split_cases; discriminate. Qed.

Lemma sevenzip_extract_no_traversal files filePath password :
  SevenZipFormat.ExtractFile_loop files filePath password
  <> Err ErrPathTraversal.
Proof.
  induction files as [|file rest IH]; simpl; [discriminate|].
  split_cases; try discriminate; [|exact IH].
  intros H. injection H as H.
  now apply sevenzip_open_error_no_traversal in H.
Qed.

Lemma tar_extract_no_traversal headers stop filePath :
  TarFormat.ExtractFile_loop headers stop filePath <> Err ErrPathTraversal.
Proof.
  induction headers as [|header rest IH]; simpl.
  - destruct stop; discriminate.
  - split_cases; [discriminate|exact IH].
Qed.

Lemma detectCompression_cases (reader : ReaderAt) :
  (exists c, TarFormat.detectCompression reader = Ok c)
  \/ (exists e, TarFormat.detectCompression reader = Err (of_lib e)).
Proof.
  unfold TarFormat.detectCompression.
  destruct (ReadAt reader 10 0%Z) as [magic [err|]]; [right; eauto|left].
  repeat match goal with
         | |- context [if ?b then _ else _] => destruct b
         end; eauto.
Qed.

(** No handler answers an extraction with the path-traversal error. *)
Lemma handler_no_traversal codec (h : Handler) reader size filePath password :
  ExtractFile codec h reader size filePath password <> Err ErrPathTraversal.
Proof.
  destruct h; simpl.
  - unfold ZipFormat.ExtractFile. destruct (zip_NewReader reader);
      [apply zip_extract_no_traversal|discriminate].
  - unfold RarFormat.ExtractFile. destruct (RarFormat.open reader password);
      [apply rar_extract_no_traversal|discriminate].
  - unfold SevenZipFormat.ExtractFile.
    destruct (SevenZipFormat.open reader password);
      [apply sevenzip_extract_no_traversal|].
    intros H. injection H as H.
    now apply sevenzip_open_error_no_traversal in H.
  - unfold TarFormat.ExtractFile.
    destruct (negb (streq password [])); [discriminate|].
    destruct (detectCompression_cases reader) as [[c ->]|[e ->]].
    + destruct (TarFormat.wrapReader reader c);
        [apply tar_extract_no_traversal|discriminate].
    + intros H. injection H as H. now apply of_lib_not_traversal in H.
Qed.

Lemma IsValidPath_false_iff (p : gostring) :
  Utils.IsValidPath p = false
  <-> Contains p ".." = true \/ Contains (Utils.NormalizePath p) ".." = true.
Proof.
  unfold Utils.IsValidPath.
  destruct (Contains p ".."), (Contains (Utils.NormalizePath p) "..");
    intuition congruence.
Qed.

(** Whatever the handler and the reader of the archive, an invalid path is
    answered by the guard alone: the transport is left as it was. *)
Lemma ExtractFile_guard_first (a : Lib.Archive) filePath password net :
  Utils.IsValidPath filePath = false ->
  Lib.ExtractFile a filePath password net = (Err ErrPathTraversal, net).
Proof. intros H. unfold Lib.ExtractFile. now rewrite H. Qed.

(** C3, as stated, fails: [path/../to/file] normalizes to [to/file], which
    has no [..] segment, and is rejected all the same. *)
Lemma ExtractFile_rejects_raw_dotdot :
  fst (Lib.ExtractFile Samples.tar_archive "path/../to/file" [] [])
  = Err ErrPathTraversal
  /\ ~ has_segment ".." (Utils.NormalizePath "path/../to/file").
Proof.
  split; [reflexivity|].
  intros [H|[H|[]]]; discriminate.
Qed.

(** C3 (amended): for every input path and each of the four handlers, the
    facade's extract fails with the path-traversal error if and only if the
    path as given, or its normalized form, contains the substring [..]; it
    does so in particular whenever the normalized form has a [..] segment;
    and when it fails this way no request has been sent. *)
Theorem ExtractFile_path_guard :
  forall (codec : chardet.Codec) (traffic : Traffic) (h : Handler)
         (url : gostring) (size : Z) (reader : ReaderAt)
         (filePath password : gostring) (net : Rangehttp.Net),
    let a := Lib.mkArchive url size reader (as_Format codec traffic h) in
    let out := Lib.ExtractFile a filePath password net in
    (fst out = Err ErrPathTraversal
     <-> Contains filePath ".." = true
         \/ Contains (Utils.NormalizePath filePath) ".." = true)
    /\ (has_segment ".." (Utils.NormalizePath filePath) ->
        fst out = Err ErrPathTraversal)
    /\ (fst out = Err ErrPathTraversal -> snd out = net).
Proof.
  intros codec traffic h url size reader filePath password net a out.
  assert (Hinv : Utils.IsValidPath filePath = false ->
                 out = (Err ErrPathTraversal, net))
    by apply ExtractFile_guard_first.
  assert (Hval : fst out = Err ErrPathTraversal ->
                 Utils.IsValidPath filePath = false).
  { destruct (Utils.IsValidPath filePath) eqn:Hv; [|reflexivity].
    subst out. unfold Lib.ExtractFile. rewrite Hv. simpl.
    intros H. now apply handler_no_traversal in H. }
  split; [|split].
  - rewrite <- IsValidPath_false_iff. split; [exact Hval|].
    intros H. now rewrite (Hinv H).
  - intros Hseg.
    destruct (Utils.IsValidPath filePath) eqn:Hv; [|now rewrite Hinv].
    now apply PathProps.IsValidPath_no_dotdot_segment in Hv.
  - intros H. now rewrite (Hinv (Hval H)).
Qed.

Lemma ExtractFile_path_guard_witness :
  has_segment ".." (Utils.NormalizePath "../../etc/passwd")
  /\ Lib.ExtractFile Samples.tar_archive "../../etc/passwd" [] []
     = (Err ErrPathTraversal, []).
Proof.
  assert (Hseg : has_segment ".." (Utils.NormalizePath "../../etc/passwd"))
    by (left; reflexivity).
  split; [exact Hseg|].
  destruct (ExtractFile_path_guard Samples.raw_codec Samples.quiet Tar
              "http://host/a.tar" 10240 Samples.one_file_tar
              "../../etc/passwd" [] []) as (_ & H2 & H3).
  specialize (H2 Hseg). specialize (H3 H2).
  rewrite (surjective_pairing (Lib.ExtractFile _ _ _ _)).
  unfold Samples.tar_archive. now rewrite H2, H3.
Defined.

End FacadeProps.

(* ================================================================== *)
(** ** Properties of the TAR handler: passwords                         *)
(* ================================================================== *)

Module TarProps.
Import Strings Go Formats StringsFacts.

(** C8, as stated, fails: the message of the error is not the one the
    claim quotes. *)
Lemma tar_password_message_differs :
  snd (TarFormat.GetInfo Samples.one_file_tar 10240 "hunter2")
  <> Some (FormatError "TAR does not support encryption").
Proof. simpl. discriminate. Qed.

(** C8 (amended): for the TAR handler and every non-empty password, each
    of GetInfo, ListFiles and ExtractFile fails with a FormatError whose
    message is [TAR format does not support encryption]. *)
Theorem tar_rejects_passwords :
  forall (reader : ReaderAt) (size : Z) (innerPath filePath password : gostring),
    password <> [] ->
    TarFormat.GetInfo reader size password
    = (None, Some (FormatError "TAR format does not support encryption"))
    /\ TarFormat.ListFiles reader size innerPath password
       = Err (FormatError "TAR format does not support encryption")
    /\ TarFormat.ExtractFile reader size filePath password
       = Err (FormatError "TAR format does not support encryption").
Proof.
  intros reader size innerPath filePath password Hpw.
  apply streq_neq in Hpw.
  unfold TarFormat.GetInfo, TarFormat.ListFiles, TarFormat.ExtractFile.
  rewrite Hpw. simpl. auto.
Qed.

Lemma tar_rejects_passwords_witness :
  TarFormat.GetInfo Samples.one_file_tar 10240 "hunter2"
  = (None, Some (FormatError "TAR format does not support encryption"))
  /\ TarFormat.ListFiles Samples.one_file_tar 10240 "/" "hunter2"
     = Err (FormatError "TAR format does not support encryption")
  /\ TarFormat.ExtractFile Samples.one_file_tar 10240 "a.txt" "hunter2"
     = Err (FormatError "TAR format does not support encryption").
Proof.
  apply (tar_rejects_passwords Samples.one_file_tar 10240 "/" "a.txt" "hunter2").
  discriminate.
Defined.

End TarProps.

(* ================================================================== *)
(** ** Properties of [GetInfo]: the encryption flags                    *)
(* ================================================================== *)

Module InfoProps.
Import Strings Go Formats Props StringsFacts.

Lemma flags_ok_add entry info : flags_ok info -> flags_ok (add_entry entry info).
Proof. exact (fun H => H). Qed.

Lemma flags_ok_encrypted b info :
  flags_ok (set_RequiresPassword b (set_IsEncrypted true info)).
Proof. intros _. reflexivity. Qed.

Lemma flags_ok_set_encrypted info : flags_ok (set_IsEncrypted true info).
Proof. intros _. reflexivity. Qed.

Lemma flags_ok_required info :
  info.(IsEncrypted) = true -> flags_ok (set_RequiresPassword true info).
Proof. intros H _. exact H. Qed.

Create HintDb flags.
#[local] Hint Resolve flags_ok_add flags_ok_encrypted flags_ok_set_encrypted
  flags_ok_required : flags.

(** *** TAR: the flags never change *)

Lemma tar_loop_flags headers stop info info' err :
  TarFormat.GetInfo_loop headers stop info = (Some info', err) ->
  info'.(IsEncrypted) = info.(IsEncrypted)
  /\ info'.(RequiresPassword) = info.(RequiresPassword).
Proof.
  revert info. induction headers as [|header rest IH]; intros info; simpl.
  - destruct stop; [|discriminate]. intros H. injection H as <- _. auto.
  - intros H. apply IH in H. exact H.
Qed.

Lemma tar_info_flags reader size password info err :
  TarFormat.GetInfo reader size password = (Some info, err) ->
  info.(IsEncrypted) = false /\ info.(RequiresPassword) = false.
Proof.
  unfold TarFormat.GetInfo.
  destruct (negb (streq password [])); [discriminate|].
  destruct (TarFormat.detectCompression reader) as [c|e]; [|discriminate].
  destruct (TarFormat.wrapReader reader c) as [t|e]; [|discriminate].
  intros H. apply tar_loop_flags in H. exact H.
Qed.

(** *** ZIP *)

Lemma zip_loop_flags codec files password verified info info' err :
  flags_ok info ->
  ZipFormat.GetInfo_loop codec files password verified info
  = (Some info', err) ->
  flags_ok info'.
Proof.
  revert verified info.
  induction files as [|file rest IH]; intros verified info Hok; simpl.
  - destruct (IsEncrypted info && streq password []) eqn:Hc;
      intros H; injection H as <- _; [|assumption].
    apply andb_true_iff in Hc as [Hc _]. auto with flags.
  - destruct (zip.IsEncrypted file); [|apply IH; auto with flags].
    destruct (negb verified && negb (streq password [])).
    + destruct (zip.Open file (Some password)) as [e|];
        [|apply IH; auto with flags].
      destruct (Contains _ _); [|discriminate].
      intros H; injection H as <- _. auto with flags.
    + destruct (streq password []); apply IH; auto with flags.
Qed.

(** Without a password the loop of the ZIP handler runs to its end, and
    what it returns is decided by the encrypted flags of the members. *)
Lemma zip_loop_no_password codec files verified info :
  exists info',
    ZipFormat.GetInfo_loop codec files [] verified info
    = (Some info',
       if info'.(IsEncrypted) then Some ErrPasswordRequired else None)
    /\ (info'.(IsEncrypted) = true -> info'.(RequiresPassword) = true)
    /\ (info.(IsEncrypted) = true
        \/ (exists file, In file files /\ file.(zip.IsEncrypted) = true) ->
        info'.(IsEncrypted) = true).
Proof.
  revert verified info.
  induction files as [|file rest IH]; intros verified info; simpl.
  - destruct (IsEncrypted info) eqn:He; simpl.
    + exists (set_RequiresPassword true info). simpl. rewrite He. auto.
    + exists info. rewrite He.
      split; [reflexivity|]. split; [discriminate|].
      intros [H|(f & [] & _)]. discriminate.
  - rewrite andb_false_r.
    destruct (zip.IsEncrypted file) eqn:Hf.
    + destruct (IH verified
                   (add_entry (ZipFormat.entry_of codec file)
                      (set_RequiresPassword true (set_IsEncrypted true info))))
        as (info' & E & Hreq & Henc).
      exists info'. split; [exact E|]. split; [exact Hreq|].
      intros _. apply Henc. now left.
    + destruct (IH verified (add_entry (ZipFormat.entry_of codec file) info))
        as (info' & E & Hreq & Henc).
      exists info'. split; [exact E|]. split; [exact Hreq|].
      intros [H|(f & [<-|Hin] & Hfe)]; apply Henc.
      * now left.
      * congruence.
      * right. eauto.
Qed.

(** *** RAR *)

Lemma rar_loop_flags headers stop password info info' err :
  flags_ok info ->
  RarFormat.GetInfo_loop headers stop password info = (Some info', err) ->
  flags_ok info'.
Proof.
  revert info. induction headers as [|header rest IH]; intros info Hok; simpl.
  - destruct stop as [|t].
    + destruct (IsEncrypted info && streq password []) eqn:Hc;
        intros H; injection H as <- _; [|assumption].
      apply andb_true_iff in Hc as [Hc _]. auto with flags.
    + destruct (password_error _); [|discriminate].
      destruct (negb (streq password []));
        intros H; injection H as <- _; auto with flags.
  - apply IH. auto with flags.
Qed.

Lemma password_error_EOF : password_error (of_lib io_EOF) = false.
Proof. reflexivity. Qed.

Lemma rar_loop_no_password headers stop info :
  info.(IsEncrypted) = false ->
  (password_error (of_lib stop) = true ->
   exists info',
     RarFormat.GetInfo_loop headers stop [] info
     = (Some info', Some ErrPasswordRequired)
     /\ info'.(IsEncrypted) = true /\ info'.(RequiresPassword) = true)
  /\ (forall info' err,
         RarFormat.GetInfo_loop headers stop [] info = (Some info', err) ->
         info'.(IsEncrypted) = true ->
         err = Some ErrPasswordRequired /\ info'.(RequiresPassword) = true).
Proof.
  revert info. induction headers as [|header rest IH]; intros info He; simpl.
  - destruct stop as [|t].
    + rewrite He. simpl. split; [discriminate|].
      intros info' err H. injection H as <- _. congruence.
    + destruct (password_error (of_lib (lib_error t))); simpl.
      * split; [intros _; eexists; split; [reflexivity|auto]|].
        intros info' err H. injection H as <- <-. auto.
      * split; [discriminate|]. intros info' err H. discriminate.
  - apply IH. exact He.
Qed.

(** *** 7Z *)

Lemma sevenzip_loop_flags files password info :
  info.(IsEncrypted) = info.(RequiresPassword) ->
  (SevenZipFormat.GetInfo_loop files password info).(IsEncrypted)
  = (SevenZipFormat.GetInfo_loop files password info).(RequiresPassword).
Proof.
  revert info. induction files as [|file rest IH]; intros info H; simpl;
    [exact H|].
  destruct (SevenZipFormat.entry_encrypted file password); [reflexivity|].
  apply IH. exact H.
Qed.

Lemma sevenzip_loop_detects files info :
  (exists file e,
      In file files /\ file.(sevenzip.Open) = Some e
      /\ password_error (of_lib e) = true) ->
  (SevenZipFormat.GetInfo_loop files [] info).(IsEncrypted) = true.
Proof.
  revert info. induction files as [|file rest IH]; intros info;
    intros (f & e & Hin & Ho & Hp); [destruct Hin|].
  simpl. destruct (SevenZipFormat.entry_encrypted file []) eqn:Hf;
    [reflexivity|].
  apply IH. destruct Hin as [<-|Hin]; [|eauto].
  unfold SevenZipFormat.entry_encrypted in Hf. simpl in Hf.
  rewrite Ho in Hf. congruence.
Qed.

(** *** Every handler *)

(** C9: for every archive, every handler and every password, the
    ArchiveInfo that GetInfo returns, alone or alongside an error,
    satisfies: requires_password implies is_encrypted. *)
Theorem GetInfo_requires_implies_encrypted :
  forall (codec : chardet.Codec) (h : Handler) (reader : ReaderAt) (size : Z)
         (password : gostring) (info : ArchiveInfo),
    fst (GetInfo codec h reader size password) = Some info ->
    info.(RequiresPassword) = true -> info.(IsEncrypted) = true.
Proof.
  intros codec h reader size password info.
  destruct (GetInfo codec h reader size password) as [oi err] eqn:E.
  simpl. intros ->. change (flags_ok info). destruct h; simpl in E.
  - unfold ZipFormat.GetInfo in E.
    destruct (zip_NewReader reader); [|discriminate].
    eapply zip_loop_flags; [|exact E]. intros H. discriminate.
  - unfold RarFormat.GetInfo in E.
    destruct (RarFormat.open reader password); [|discriminate].
    eapply rar_loop_flags; [|exact E]. intros H. discriminate.
  - unfold SevenZipFormat.GetInfo in E.
    destruct (SevenZipFormat.open reader password) as [sr|e].
    + assert (Hf := sevenzip_loop_flags (sevenzip.File_ sr) password
                      (mkArchiveInfo false false 0 0 [] []) eq_refl).
      destruct (_ && _); injection E as <- _; intros H; congruence.
    + destruct (password_error (of_lib e)); [|discriminate].
      destruct (negb (streq password [])); injection E as <- _;
        intros _; reflexivity.
  - apply tar_info_flags in E as [_ E]. intros H. congruence.
Qed.

Lemma GetInfo_requires_implies_encrypted_witness :
  exists info,
    fst (GetInfo Samples.raw_codec Zip Samples.encrypted_zip 4096 [])
    = Some info
    /\ info.(RequiresPassword) = true /\ info.(IsEncrypted) = true.
Proof.
  eexists. split; [reflexivity|]. split; [reflexivity|].
  apply (GetInfo_requires_implies_encrypted Samples.raw_codec Zip
           Samples.encrypted_zip 4096 []); reflexivity.
Defined.

(** *** The entries and the totals of the record *)

Lemma wrap64_add_l (a b : Z) : wrap64 (wrap64 a + b) = wrap64 (a + b).
Proof.
  unfold wrap64. f_equal.
  replace ((a + 2 ^ 63) mod 2 ^ 64 - 2 ^ 63 + b + 2 ^ 63)%Z
    with ((a + 2 ^ 63) mod 2 ^ 64 + b)%Z by lia.
  rewrite Zplus_mod_idemp_l. f_equal. lia.
Qed.

Lemma count_files_snoc (files : list FileEntry) (e : FileEntry) :
  count_files (files ++ [e])
  = (count_files files + (if e.(IsDir) then 0 else 1))%Z.
Proof.
  unfold count_files. rewrite filter_app, length_app, Nat2Z.inj_add.
  simpl. now destruct (IsDir e).
Qed.

Lemma sum_sizes_snoc (files : list FileEntry) (e : FileEntry) :
  sum_sizes (files ++ [e])
  = (sum_sizes files + (if e.(IsDir) then 0 else e.(Size)))%Z.
Proof.
  induction files as [|f files IH]; simpl.
  - destruct (IsDir e); lia.
  - rewrite IH. destruct (IsDir f); lia.
Qed.

Lemma totals_ok_add (e : FileEntry) (info : ArchiveInfo) :
  totals_ok info -> totals_ok (add_entry e info).
Proof.
  intros [Hf Hs]. unfold totals_ok, add_entry. cbn [TotalFiles TotalSize Files].
  rewrite count_files_snoc, sum_sizes_snoc, Hf, Hs.
  destruct (IsDir e); rewrite ?Z.add_0_r, ?wrap64_add_l; auto.
Qed.

(** *** What every loop of [GetInfo] preserves *)

Section Invariant.
Variable Inv : ArchiveInfo -> Prop.
Hypothesis Inv_add : forall e i, Inv i -> Inv (add_entry e i).
Hypothesis Inv_enc : forall b i, Inv i -> Inv (set_IsEncrypted b i).
Hypothesis Inv_req : forall b i, Inv i -> Inv (set_RequiresPassword b i).

Lemma tar_loop_inv headers stop info info' err :
  Inv info ->
  TarFormat.GetInfo_loop headers stop info = (Some info', err) -> Inv info'.
Proof.
  revert info. induction headers as [|header rest IH]; intros info Hi; simpl.
  - destruct stop; [|discriminate]. intros H. now injection H as <- _.
  - apply IH. auto.
Qed.

Lemma zip_loop_inv codec files password verified info info' err :
  Inv info ->
  ZipFormat.GetInfo_loop codec files password verified info
  = (Some info', err) ->
  Inv info'.
Proof.
  revert verified info.
  induction files as [|file rest IH]; intros verified info Hi; simpl.
  - destruct (IsEncrypted info && streq password []);
      intros H; injection H as <- _; auto.
  - destruct (zip.IsEncrypted file); [|apply IH; auto].
    destruct (negb verified && negb (streq password [])).
    + destruct (zip.Open file (Some password)) as [e|]; [|apply IH; auto].
      destruct (Contains _ _); [|discriminate].
      intros H; injection H as <- _. auto.
    + destruct (streq password []); apply IH; auto.
Qed.

Lemma rar_loop_inv headers stop password info info' err :
  Inv info ->
  RarFormat.GetInfo_loop headers stop password info = (Some info', err) ->
  Inv info'.
Proof.
  revert info. induction headers as [|header rest IH]; intros info Hi; simpl.
  - destruct stop as [|t].
    + destruct (IsEncrypted info && streq password []);
        intros H; injection H as <- _; auto.
    + destruct (password_error _); [|discriminate].
      destruct (negb (streq password []));
        intros H; injection H as <- _; auto.
  - apply IH. auto.
Qed.

Lemma sevenzip_loop_inv files password info :
  Inv info -> Inv (SevenZipFormat.GetInfo_loop files password info).
Proof.
  revert info. induction files as [|file rest IH]; intros info Hi; simpl.
  - exact Hi.
  - destruct (SevenZipFormat.entry_encrypted file password); auto.
Qed.

Lemma GetInfo_inv codec h reader size password info err :
  (forall comment, Inv (mkArchiveInfo false false 0 0 [] comment)) ->
  Inv (mkArchiveInfo true true 0 0 [] []) ->
  GetInfo codec h reader size password = (Some info, err) -> Inv info.
Proof.
  intros H0 H1. destruct h; simpl.
  - unfold ZipFormat.GetInfo.
    destruct (zip_NewReader reader) as [zr|e]; [|discriminate].
    apply zip_loop_inv, H0.
  - unfold RarFormat.GetInfo.
    destruct (RarFormat.open reader password) as [rr|e]; [|discriminate].
    apply rar_loop_inv, H0.
  - unfold SevenZipFormat.GetInfo.
    destruct (SevenZipFormat.open reader password) as [sr|e].
    + destruct (_ && _); intros H; injection H as <- _;
        apply sevenzip_loop_inv, H0.
    + destruct (password_error _); [|discriminate].
      destruct (negb _); intros H; injection H as <- _; exact H1.
  - unfold TarFormat.GetInfo.
    destruct (negb (streq password [])); [discriminate|].
    destruct (TarFormat.detectCompression reader) as [c|e]; [|discriminate].
    destruct (TarFormat.wrapReader reader c) as [t|e]; [|discriminate].
    apply tar_loop_inv, H0.
Qed.

End Invariant.

Lemma totals_ok_returned codec h reader size password info err :
  GetInfo codec h reader size password = (Some info, err) -> totals_ok info.
Proof.
  apply GetInfo_inv.
  - apply totals_ok_add.
  - intros b i H. exact H.
  - intros b i H. exact H.
  - intros comment. split; reflexivity.
  - split; reflexivity.
Qed.

Lemma zip_loop_files codec files verified info info' err :
  ZipFormat.GetInfo_loop codec files [] verified info = (Some info', err) ->
  info'.(Files) = info.(Files) ++ map (ZipFormat.entry_of codec) files
  /\ info'.(Comment) = info.(Comment).
Proof.
  revert verified info.
  induction files as [|file rest IH]; intros verified info; simpl.
  - rewrite app_nil_r.
    destruct (IsEncrypted info && true); intros H; injection H as <- _; auto.
  - rewrite andb_false_r.
    destruct (zip.IsEncrypted file); intros H; apply IH in H as [-> ->];
      simpl; now rewrite <- app_assoc.
Qed.

Lemma rar_loop_files headers stop password info info' err :
  RarFormat.GetInfo_loop headers stop password info = (Some info', err) ->
  info'.(Files) = info.(Files) ++ map RarFormat.entry_of headers.
Proof.
  revert info. induction headers as [|header rest IH]; intros info; simpl.
  - rewrite app_nil_r. destruct stop as [|t].
    + destruct (_ && _); intros H; now injection H as <- _.
    + destruct (password_error _); [|discriminate].
      destruct (negb _); intros H; now injection H as <- _.
  - intros H. apply IH in H as ->. simpl. now rewrite <- app_assoc.
Qed.

Lemma sevenzip_loop_files files info :
  (SevenZipFormat.GetInfo_loop files [] info).(Files)
  = info.(Files) ++ map SevenZipFormat.entry_of (up_to_locked files).
Proof.
  revert info. induction files as [|file rest IH]; intros info; simpl.
  - now rewrite app_nil_r.
  - destruct (SevenZipFormat.entry_encrypted file []); simpl.
    + reflexivity.
    + rewrite IH. simpl. now rewrite <- app_assoc.
Qed.

(** What the record holds, whenever it is returned for a call without a
    password. *)
Lemma GetInfo_enumerated codec h reader size info err :
  GetInfo codec h reader size [] = (Some info, err) ->
  (h = Tar \/ info.(Files) = enumerated codec h reader).
Proof.
  destruct h; simpl; [| | |now left]; intros H; right.
  - unfold ZipFormat.GetInfo in H.
    destruct (zip_NewReader reader) as [zr|e]; [|discriminate].
    now apply zip_loop_files in H as [-> _].
  - unfold RarFormat.GetInfo, RarFormat.open in H. simpl in H.
    destruct (rardecode_NewReader reader None) as [rr|e]; [|discriminate].
    now apply rar_loop_files in H as ->.
  - unfold SevenZipFormat.GetInfo, SevenZipFormat.open in H. simpl in H.
    destruct (sevenzip_NewReader reader) as [sr|e].
    + destruct (_ && _); injection H as <- _;
        now rewrite sevenzip_loop_files.
    + destruct (password_error _); [|discriminate].
      now injection H as <- _.
Qed.

(** C6: for every handler, whenever GetInfo, called with an empty password,
    detects encryption, it returns a populated ArchiveInfo together with
    the PasswordRequired error: the record has requires_password and
    is_encrypted set, it holds the entries that the handler has enumerated
    (every member for ZIP, the headers read before the failing one for
    RAR, the members up to and including the first one that cannot be
    opened for 7Z, none when the 7Z archive itself cannot be opened), and
    its totals are those of these entries.  An ArchiveInfo that reports
    encryption is never returned without that error. *)
Theorem GetInfo_dual_signal :
  forall (codec : chardet.Codec) (h : Handler) (reader : ReaderAt) (size : Z),
    (encryption_seen h reader ->
     exists info,
       GetInfo codec h reader size [] = (Some info, Some ErrPasswordRequired)
       /\ info.(IsEncrypted) = true /\ info.(RequiresPassword) = true
       /\ info.(Files) = enumerated codec h reader
       /\ info.(TotalFiles) = wrap64 (count_files (enumerated codec h reader))
       /\ info.(TotalSize) = wrap64 (sum_sizes (enumerated codec h reader)))
    /\ (forall info err,
           GetInfo codec h reader size [] = (Some info, err) ->
           info.(IsEncrypted) = true ->
           err = Some ErrPasswordRequired /\ info.(RequiresPassword) = true).
Proof.
  intros codec h reader size.
  assert (Hflags :
    (encryption_seen h reader ->
     exists info,
       GetInfo codec h reader size [] = (Some info, Some ErrPasswordRequired)
       /\ info.(IsEncrypted) = true /\ info.(RequiresPassword) = true)
    /\ (forall info err,
           GetInfo codec h reader size [] = (Some info, err) ->
           info.(IsEncrypted) = true ->
           err = Some ErrPasswordRequired /\ info.(RequiresPassword) = true)).
  { destruct h; simpl.
    - unfold ZipFormat.GetInfo. split.
      + intros (zr & file & -> & Hin & Hf).
        destruct (zip_loop_no_password codec (zip.File_ zr) false
                    (mkArchiveInfo false false 0 0 [] (zip.Comment zr)))
          as (info' & E & Hreq & Henc).
        assert (He : IsEncrypted info' = true) by (apply Henc; right; eauto).
        exists info'. rewrite E, He. auto.
      + intros info err. destruct (zip_NewReader reader) as [zr|e];
          [|discriminate].
        destruct (zip_loop_no_password codec (zip.File_ zr) false
                    (mkArchiveInfo false false 0 0 [] (zip.Comment zr)))
          as (info' & E & Hreq & _).
        rewrite E. intros H. injection H as <- <-. intros He.
        rewrite He. auto.
    - unfold RarFormat.GetInfo, RarFormat.open. simpl. split.
      + intros (rr & -> & Hp).
        now apply (rar_loop_no_password (items rr) (stop rr)
                     (mkArchiveInfo false false 0 0 [] []) eq_refl).
      + intros info err.
        destruct (rardecode_NewReader reader None) as [rr|e]; [|discriminate].
        now apply (rar_loop_no_password (items rr) (stop rr)
                     (mkArchiveInfo false false 0 0 [] []) eq_refl).
    - unfold SevenZipFormat.GetInfo, SevenZipFormat.open. simpl. split.
      + intros [(e & -> & Hp)|(sr & file & e & -> & Hd)].
        * rewrite Hp. eexists. split; [reflexivity|auto].
        * assert (He := sevenzip_loop_detects (sevenzip.File_ sr)
                          (mkArchiveInfo false false 0 0 [] [])
                          (ex_intro _ file (ex_intro _ e Hd))).
          assert (Hf := sevenzip_loop_flags (sevenzip.File_ sr) []
                          (mkArchiveInfo false false 0 0 [] []) eq_refl).
          rewrite He. simpl. eexists. split; [reflexivity|].
          split; [exact He|congruence].
      + intros info err.
        destruct (sevenzip_NewReader reader) as [sr|e].
        * assert (Hf := sevenzip_loop_flags (sevenzip.File_ sr) []
                          (mkArchiveInfo false false 0 0 [] []) eq_refl).
          destruct (IsEncrypted _) eqn:He; simpl;
            intros H; injection H as <- <-; intros He'; [|congruence].
          split; [reflexivity|congruence].
        * destruct (password_error (of_lib e)); [|discriminate].
          intros H. injection H as <- <-. auto.
    - split; [intros []|].
      intros info err H. apply tar_info_flags in H as [H _]. congruence. }
  destruct Hflags as [Hseen Honly]. split; [|exact Honly].
  intros Hs. destruct (Hseen Hs) as (info & E & He & Hr).
  exists info. split; [exact E|]. split; [exact He|]. split; [exact Hr|].
  assert (HF : info.(Files) = enumerated codec h reader).
  { destruct (GetInfo_enumerated codec h reader size info _ E) as [->|HF];
      [destruct Hs|exact HF]. }
  destruct (totals_ok_returned codec h reader size [] info _ E) as [Hn Hz].
  rewrite <- HF. auto.
Qed.

Lemma GetInfo_dual_signal_witness :
  encryption_seen Zip Samples.encrypted_zip
  /\ exists info,
      GetInfo Samples.raw_codec Zip Samples.encrypted_zip 4096 []
      = (Some info, Some ErrPasswordRequired)
      /\ info.(IsEncrypted) = true /\ info.(RequiresPassword) = true
      /\ info.(Files)
         = [mkFileEntry "secret.txt" 12 24 1700000000 false]
      /\ info.(TotalFiles) = 1%Z
      /\ info.(TotalSize) = 12%Z.
Proof.
  assert (Hseen : encryption_seen Zip Samples.encrypted_zip).
  { exists (zip.mkReader [Samples.secret_txt] []), Samples.secret_txt.
    repeat split. now left. }
  split; [exact Hseen|].
  apply (GetInfo_dual_signal Samples.raw_codec Zip Samples.encrypted_zip 4096).
  exact Hseen.
Defined.

End InfoProps.

(* ================================================================== *)
(** ** Properties of [ListFiles]: the empty inner path and the root     *)
(* ================================================================== *)

Module ListProps.
Import Strings Go Formats Props StringsFacts PathFacts.

(** Both the empty inner path and ["/"] normalize to ["."], so the prefix
    that the TAR, RAR and 7Z handlers filter by is ["./"]. *)
Lemma inner_prefix_root (innerPath : gostring) :
  innerPath = [] \/ innerPath = list_ascii_of_string "/" ->
  inner_prefix innerPath = list_ascii_of_string "./".
Proof. intros [->| ->]; reflexivity. Qed.

(** No normalized name starts with ["./"]: that prefix skips every entry. *)
Lemma skip_entry_dot_slash (name : gostring) :
  skip_entry "./" (Utils.NormalizePath name) = true.
Proof.
  unfold skip_entry. simpl streq. simpl negb. cbv iota.
  now rewrite NormalizePath_no_dot_prefix.
Qed.

Lemma tar_loop_skips_all headers stop acc files :
  TarFormat.ListFiles_loop headers stop "./" acc = Ok files -> files = acc.
Proof.
  revert acc. induction headers as [|header rest IH]; intros acc; simpl.
  - destruct stop; [|discriminate]. now intros [= <-].
  - rewrite skip_entry_dot_slash. apply IH.
Qed.

Lemma rar_loop_skips_all headers stop password acc files :
  RarFormat.ListFiles_loop headers stop "./" password acc = Ok files ->
  files = acc.
Proof.
  revert acc. induction headers as [|header rest IH]; intros acc; simpl.
  - destruct stop; [|discriminate]. now intros [= <-].
  - rewrite skip_entry_dot_slash. apply IH.
Qed.

Lemma sevenzip_loop_skips_all szfiles acc :
  SevenZipFormat.ListFiles_loop szfiles "./" acc = acc.
Proof.
  revert acc. induction szfiles as [|file rest IH]; intros acc; simpl;
    [reflexivity|].
  rewrite skip_entry_dot_slash. apply IH.
Qed.

(** With the empty inner path or ["/"], the TAR, RAR and 7Z handlers list
    no entry at all, whatever the archive holds. *)
Lemma forward_handlers_list_nothing codec (h : Handler) reader size
      innerPath password files :
  h <> Zip ->
  innerPath = [] \/ innerPath = list_ascii_of_string "/" ->
  ListFiles codec h reader size innerPath password = Ok files ->
  files = [].
Proof.
  intros Hh Hin. destruct h; [congruence| | | ]; simpl.
  - unfold RarFormat.ListFiles. rewrite (inner_prefix_root _ Hin).
    destruct (RarFormat.open reader password); [|discriminate].
    apply rar_loop_skips_all.
  - unfold SevenZipFormat.ListFiles. rewrite (inner_prefix_root _ Hin).
    destruct (SevenZipFormat.open reader password); [|discriminate].
    rewrite sevenzip_loop_skips_all. now intros [= <-].
  - unfold TarFormat.ListFiles. rewrite (inner_prefix_root _ Hin).
    destruct (negb (streq password [])); [discriminate|].
    destruct (TarFormat.detectCompression reader) as [c|]; [|discriminate].
    destruct (TarFormat.wrapReader reader c); [|discriminate].
    apply tar_loop_skips_all.
Qed.

(** *** The ZIP handler keeps the input as given *)

Lemma none_encrypted_cons file rest :
  none_encrypted (file :: rest) ->
  file.(zip.IsEncrypted) = false /\ none_encrypted rest.
Proof.
  intros H. split; [apply H; now left|].
  intros f Hf. apply H. now right.
Qed.

Lemma zip_info_loop_plain codec zfiles password verified info :
  none_encrypted zfiles -> info.(IsEncrypted) = false ->
  exists info',
    ZipFormat.GetInfo_loop codec zfiles password verified info
    = (Some info', None)
    /\ info'.(Files)
       = info.(Files) ++ map (ZipFormat.entry_of codec) zfiles.
Proof.
  revert info. induction zfiles as [|file rest IH]; intros info Hn He; simpl.
  - rewrite He. simpl. exists info. now rewrite app_nil_r.
  - apply none_encrypted_cons in Hn as [Hf Hn]. rewrite Hf.
    destruct (IH (add_entry (ZipFormat.entry_of codec file) info) Hn He)
      as (info' & E & HF).
    exists info'. split; [exact E|]. rewrite HF. simpl.
    now rewrite <- app_assoc.
Qed.

Lemma zip_list_loop_all codec zfiles isRoot innerPath password verified acc :
  none_encrypted zfiles ->
  ZipFormat.ListFiles_loop codec zfiles true isRoot innerPath password
                           verified acc
  = Ok (acc ++ map (ZipFormat.entry_of codec) zfiles).
Proof.
  revert acc. induction zfiles as [|file rest IH]; intros acc Hn; simpl.
  - now rewrite app_nil_r.
  - apply none_encrypted_cons in Hn as [Hf Hn]. rewrite Hf.
    rewrite (IH _ Hn). now rewrite <- app_assoc.
Qed.

Lemma zip_list_loop_root codec zfiles innerPath password verified acc :
  none_encrypted zfiles ->
  ZipFormat.ListFiles_loop codec zfiles false true innerPath password
                           verified acc
  = Ok (acc ++ map (ZipFormat.entry_of codec)
                   (filter (fun file =>
                              top_level (ZipFormat.decodeName codec
                                                              file.(zip.Name)))
                           zfiles)).
Proof.
  revert acc. induction zfiles as [|file rest IH]; intros acc Hn; simpl.
  - now rewrite app_nil_r.
  - apply none_encrypted_cons in Hn as [Hf Hn]. unfold top_level at 1.
    destruct (Contains _ _); simpl.
    + apply IH, Hn.
    + rewrite Hf, (IH _ Hn). simpl. now rewrite <- app_assoc.
Qed.

(** On an archive without encrypted members, the ZIP handler lists every
    entry for the empty inner path, the very list of [GetInfo], and exactly
    the top-level entries for ["/"]. *)
Lemma zip_lists_all_and_root codec reader size password zr :
  reader.(zip_NewReader) = Ok zr -> none_encrypted zr.(zip.File_) ->
  ListFiles codec Zip reader size [] password
  = Ok (map (ZipFormat.entry_of codec) zr.(zip.File_))
  /\ (exists info,
         GetInfo codec Zip reader size password = (Some info, None)
         /\ info.(Files) = map (ZipFormat.entry_of codec) zr.(zip.File_))
  /\ ListFiles codec Zip reader size "/" password
     = Ok (map (ZipFormat.entry_of codec)
               (filter (fun file =>
                          top_level (ZipFormat.decodeName codec
                                                          file.(zip.Name)))
                       zr.(zip.File_))).
Proof.
  intros Hr Hn. simpl. unfold ZipFormat.ListFiles, ZipFormat.GetInfo.
  rewrite Hr. split; [|split].
  - simpl. now rewrite zip_list_loop_all.
  - destruct (zip_info_loop_plain codec (zip.File_ zr) password false
                (mkArchiveInfo false false 0 0 [] (zip.Comment zr)) Hn eq_refl)
      as (info & E & HF).
    exists info. split; [exact E|exact HF].
  - simpl. now rewrite zip_list_loop_root.
Qed.

(** C1 at a plain TAR archive with the single member [a.txt]: listing with
    the empty inner path returns no entry, while the entries of [GetInfo]
    hold [a.txt]. *)
Theorem tar_list_empty_innerPath_misses_entries :
  ListFiles Samples.raw_codec Tar Samples.one_file_tar 10240 [] [] = Ok []
  /\ option_map Files
       (fst (GetInfo Samples.raw_codec Tar Samples.one_file_tar 10240 []))
     = Some [TarFormat.entry_of Samples.a_txt].
Proof. split; reflexivity. Qed.

(** C2 at the same archive: [a.txt] is a top-level entry, and listing with
    the inner path ["/"] returns no entry. *)
Theorem tar_list_root_misses_entries :
  top_level Samples.a_txt.(tar.Name) = true
  /\ ListFiles Samples.raw_codec Tar Samples.one_file_tar 10240 "/" []
     = Ok [].
Proof. split; reflexivity. Qed.

End ListProps.

(* ================================================================== *)
(** ** Properties of [lib/rangehttp]                                    *)
(* ================================================================== *)

Module RangeProps.
Import Strings Go Rangehttp Props StringsFacts.

Lemma wrap64_small (z : Z) :
  (- 2 ^ 63 <= z < 2 ^ 63)%Z -> wrap64 z = z.
Proof.
  intros H. unfold wrap64. rewrite Z.mod_small; lia.
Qed.

(** *** The read loop of [ReadAt] *)

(** A [Read] into a buffer with room that returns no error delivers at
    least one byte. *)
Lemma Read_progress (rd rd' : ReadCloser) (k : nat) (data : gostring) :
  0 < k -> Read rd k = ((data, None), rd') -> 0 < length data.
Proof.
  assert (HB : forall b k data b',
             0 < k -> Body_Read b k = ((data, None), b') -> 0 < length data).
  { intros b k0 data0 b' Hk0. unfold Body_Read.
    destruct (pending b) as [|x d] eqn:Hp; [discriminate|].
    intros H. injection H as <- _. rewrite length_firstn. simpl length. lia. }
  intros Hk. destruct rd as [b|s]; simpl.
  - destruct (Body_Read b k) as [res b'] eqn:E. intros H.
    injection H as -> _. eapply HB; eauto.
  - destruct (skipReader_Read s k) as [res s'] eqn:E. intros H.
    injection H as -> _. revert E. unfold skipReader_Read.
    set (first := if skipOnce s then _ else _). destruct first as [err s1].
    destruct err; [discriminate|].
    destruct ((0 <? length_ s1)%Z && (length_ s1 <=? read s1)%Z) eqn:Hfull;
      [discriminate|].
    match goal with
    | |- context [Body_Read (reader s1) ?k0] =>
        assert (Hk0 : 0 < k0); [|destruct (Body_Read (reader s1) k0)
                                   as [[p e] b] eqn:Hr]
    end.
    { destruct (0 <? length_ s1)%Z eqn:H1; [|exact Hk].
      simpl in Hfull. apply Z.ltb_lt in H1. apply Z.leb_gt in Hfull.
      destruct (_ <? _)%Z; lia. }
    intros H. injection H as -> -> _. eapply HB; eauto.
Qed.

(** Every round of the loop that does not return adds at least one byte,
    so [length] rounds are enough: more fuel changes nothing. *)
Lemma ReadAt_loop_fuel (f1 : nat) :
  forall (f2 : nat) (rd : ReadCloser) (plen : nat) (len : Z) (p : gostring),
    (len <= Z.of_nat plen)%Z ->
    (len - Z.of_nat (length p) <= Z.of_nat f1)%Z ->
    (len - Z.of_nat (length p) <= Z.of_nat f2)%Z ->
    ReadAt_loop f1 rd plen len p = ReadAt_loop f2 rd plen len p.
Proof.
  induction f1 as [|f1 IH]; intros f2 rd plen len p Hlen H1 H2.
  - destruct f2 as [|f2]; [reflexivity|]. simpl.
    assert (E : (Z.of_nat (length p) <? len)%Z = false)
      by (apply Z.ltb_ge; lia).
    now rewrite E.
  - destruct f2 as [|f2].
    { simpl. assert (E : (Z.of_nat (length p) <? len)%Z = false)
        by (apply Z.ltb_ge; lia).
      now rewrite E. }
    cbn [ReadAt_loop].
    destruct (Z.of_nat (length p) <? len)%Z eqn:Hlt; [|reflexivity].
    apply Z.ltb_lt in Hlt.
    destruct (Read rd (plen - length p)) as [[data err] rd'] eqn:Hr.
    destruct err as [e|]; [reflexivity|].
    apply Read_progress in Hr; [|lia].
    apply IH; [assumption| |]; rewrite length_app; lia.
Qed.

(** Reading four bytes at offset 3 through an origin that ignores the
    [Range] header: one request, and the bytes 3 to 6 of the file. *)
Lemma ReadAt_through_deaf_origin :
  ReadAt Samples.open_reader 4 3 []
  = ((list_ascii_of_string "3456", None),
     [mkRequest "GET" "http://host/a.bin"
                [(list_ascii_of_string "User-Agent",
                  list_ascii_of_string "Stream-7z/1.0");
                 (list_ascii_of_string "Range",
                  list_ascii_of_string "bytes=3-6")]]).
Proof. reflexivity. Qed.

(** *** Reads beyond the end *)

(** C4, as stated, fails: a reader that has been closed answers every
    [ReadAt] with its own error, also at [off >= size]; and a reader whose
    size is negative reports a negative offset first. *)
Lemma ReadAt_beyond_size_other_errors :
  ((Close Samples.open_reader).(size) <= 10)%Z
  /\ fst (ReadAt (Close Samples.open_reader) 4 10 [])
     = ([], Some (ErrorsNew "reader is closed"))
  /\ (Samples.unsized_reader.(size) <= -1)%Z
  /\ fst (ReadAt Samples.unsized_reader 4 (-1) [])
     = ([], Some (ErrorsNew "negative offset")).
Proof. repeat split; simpl; lia. Qed.

(** C4 (amended): for every RangeReader of fixed size [s] that has not
    been closed, every buffer and every offset [off] with [off >= s] and
    [off >= 0], ReadAt returns 0 bytes and end-of-input, and sends no
    request. *)
Theorem ReadAt_beyond_size :
  forall (r : RangeReader) (plen : nat) (off : Z) (net : Net),
    r.(closed) = false -> (0 <= off)%Z -> (r.(size) <= off)%Z ->
    ReadAt r plen off net = (([], Some EOF), net).
Proof.
  intros r plen off net Hc H0 Hs. unfold ReadAt. rewrite Hc.
  assert (E1 : (off <? 0)%Z = false) by (apply Z.ltb_ge; lia).
  assert (E2 : (size r <=? off)%Z = true) by (apply Z.leb_le; lia).
  now rewrite E1, E2.
Qed.

Lemma ReadAt_beyond_size_witness :
  ReadAt Samples.open_reader 4 10 [] = (([], Some EOF), [])
  /\ ReadAt Samples.open_reader 4 11 [] = (([], Some EOF), []).
Proof.
  split.
  - apply (ReadAt_beyond_size Samples.open_reader 4 10 []);
      [reflexivity|lia|simpl; lia].
  - apply (ReadAt_beyond_size Samples.open_reader 4 11 []);
      [reflexivity|lia|simpl; lia].
Defined.

(** *** Fetches of length zero *)

(** C10: for every URL and every offset, a range fetch of length exactly 0
    returns an empty reader at once and sends no HTTP request at all. *)
Theorem RangeRequest_zero_length :
  forall (c : Client) (url : gostring) (start : Z) (net : Net),
    RangeRequest c url start 0 net = (Ok empty_reader, net)
    /\ (forall k, Read empty_reader k = (([], Some EOF), empty_reader))
    /\ (forall k, ReadAll 1 k empty_reader = Some ([], None)).
Proof. intros. repeat split. Qed.

(** *** The fallback on 200 OK *)

Lemma firstn_add {A} (a b : nat) (l : list A) :
  firstn (a + b) l = firstn a l ++ firstn b (skipn a l).
Proof.
  revert l. induction a as [|a IH]; intros l; [reflexivity|].
  destruct l as [|x l]; simpl; [now rewrite firstn_nil|].
  now rewrite IH.
Qed.

(** Once the skip has run, draining the reader delivers the pending bytes
    up to the cap. *)
Lemma skipReader_drain (fuel : nat) :
  forall (d : gostring) (n : Z) (k sh : nat) (sk cap skd : Z),
    length d < fuel ->
    (0 <= n)%Z -> (n + Z.of_nat (length d) < 2 ^ 63)%Z ->
    ReadAll fuel (S k)
            (Skip (mkSkipReader (mkBody d sh) sk cap skd n true))
    = Some (capped cap n d, None).
Proof.
  induction fuel as [|fuel IH]; intros d n k sh sk cap skd Hf Hn Hb;
    [lia|].
  cbn [ReadAll Read]. unfold skipReader_Read. cbn [skipOnce length_ read reader].
  unfold capped.
  destruct ((0 <? cap)%Z && (cap <=? n)%Z) eqn:Hfull.
  { apply andb_true_iff in Hfull as [H1 H2]. rewrite H1.
    apply Z.leb_le in H2.
    replace (Z.to_nat (cap - n)) with 0 by lia. reflexivity. }
  set (k' := if (0 <? cap)%Z
             then if (cap - n <? Z.of_nat (S k))%Z
                  then Z.to_nat (cap - n) else S k
             else S k).
  assert (Hk' : 1 <= k' /\ ((0 < cap)%Z -> k' <= Z.to_nat (cap - n))).
  { subst k'. destruct (0 <? cap)%Z eqn:H1.
    - apply Z.ltb_lt in H1. simpl in Hfull. apply Z.leb_gt in Hfull.
      destruct (cap - n <? Z.of_nat (S k))%Z eqn:H2.
      + split; [lia|intros _; lia].
      + apply Z.ltb_ge in H2. split; [lia|intros _; lia].
    - apply Z.ltb_ge in H1. split; [lia|intros; lia]. }
  destruct Hk' as [Hk1 Hk2].
  unfold Body_Read. cbn [pending short].
  destruct d as [|x d'].
  { destruct (0 <? cap)%Z; [now rewrite firstn_nil|reflexivity]. }
  set (d := x :: d') in *.
  set (m := Nat.min k' (S sh)).
  assert (Hm : 1 <= m) by (subst m; lia).
  assert (Hlen : length (firstn m d) = Nat.min m (length d))
    by apply length_firstn.
  rewrite wrap64_small by (rewrite Hlen; lia).
  rewrite IH.
  - f_equal. f_equal. unfold capped.
    destruct (0 <? cap)%Z eqn:H1; [|apply firstn_skipn].
    apply Z.ltb_lt in H1. specialize (Hk2 H1).
    assert (Hmk : m <= Z.to_nat (cap - n)) by (subst m; lia).
    replace (Z.to_nat (cap - n)) with (m + (Z.to_nat (cap - n) - m)) by lia.
    rewrite firstn_add. f_equal.
    destruct (Nat.le_gt_cases m (length d)) as [Hle|Hgt].
    + f_equal. rewrite Hlen. lia.
    + rewrite skipn_all2 by lia. now rewrite !firstn_nil.
  - rewrite length_skipn. subst d. simpl length in *. lia.
  - rewrite Hlen. lia.
  - rewrite Hlen, length_skipn. lia.
Qed.

(** The first [Read] runs the skip: the reader then delivers what follows
    the first [skip] bytes of the body, up to the cap. *)
Lemma skipReader_delivers (body : gostring) (sh k fuel : nat)
      (sk cap : Z) :
  (0 < sk)%Z -> (Z.of_nat (length body) < 2 ^ 63)%Z ->
  length body < fuel ->
  ReadAll fuel (S k)
          (Skip (mkSkipReader (mkBody body sh) sk cap 0 0 false))
  = Some (capped cap 0 (skipn (Z.to_nat sk) body), None).
Proof.
  intros Hs Hb Hf. destruct fuel as [|fuel]; [lia|].
  destruct (Z.leb_spec sk (Z.of_nat (length body))) as [Hle|Hgt].
  - rewrite <- (skipReader_drain (S fuel) (skipn (Z.to_nat sk) body) 0 k
                  sh sk cap sk).
    + cbn [ReadAll Read]. unfold skipReader_Read, CopyN_Discard.
      cbn [skipOnce reader skip pending short].
      assert (E1 : (sk <=? 0)%Z = false) by (apply Z.leb_gt; lia).
      assert (E2 : (sk <=? Z.of_nat (length body))%Z = true)
        by (apply Z.leb_le; lia).
      rewrite E1, E2. reflexivity.
    + rewrite length_skipn. lia.
    + lia.
    + rewrite length_skipn. lia.
  - cbn [ReadAll Read]. unfold skipReader_Read, CopyN_Discard.
    cbn [skipOnce reader skip pending short].
    assert (E1 : (sk <=? 0)%Z = false) by (apply Z.leb_gt; lia).
    assert (E2 : (sk <=? Z.of_nat (length body))%Z = false)
      by (apply Z.leb_gt; lia).
    rewrite E1, E2. rewrite skipn_all2 by lia.
    unfold capped. destruct (0 <? cap)%Z; [now rewrite firstn_nil|reflexivity].
Qed.

(** C7: for every range fetch with [start > 0] and a requested length
    (not 0), when the origin answers 200 OK, the reader handed to the
    caller yields the response bytes from index [start] on, the first
    [start] bytes being discarded: exactly the first [len] of them when the
    length is bounded ([len > 0]), and all of them when it is not, given
    that the response's Content-Length is unknown or the length of its
    body. *)
Theorem RangeRequest_fallback_skips :
  forall (c : Client) (url : gostring) (start len : Z) (req0 : Request)
         (resp : Response) (net : Net) (k : nat),
    (0 < start < 2 ^ 63)%Z -> len <> 0%Z ->
    c.(httpClient).(NewRequestWithContext) "GET" url = Ok req0 ->
    c.(httpClient).(Do) (build_request c req0 start len) = Ok resp ->
    resp.(StatusCode) = StatusOK ->
    (-1 <= resp.(ContentLength) < 2 ^ 63)%Z ->
    (Z.of_nat (length resp.(Body_).(pending)) < 2 ^ 63)%Z ->
    let body := resp.(Body_).(pending) in
    exists rd data,
      RangeRequest c url start len net
      = (Ok rd, net ++ [build_request c req0 start len])
      /\ (forall fuel, length body < fuel ->
                       ReadAll fuel (S k) rd = Some (data, None))
      /\ (exists tail, skipn (Z.to_nat start) body = data ++ tail)
      /\ ((0 < len)%Z ->
          data = firstn (Z.to_nat len) (skipn (Z.to_nat start) body))
      /\ ((len < 0)%Z ->
          (len = (-1)%Z ->
           resp.(ContentLength) = (-1)%Z
           \/ resp.(ContentLength) = Z.of_nat (length body)) ->
          data = skipn (Z.to_nat start) body).
Proof.
  intros c url start len req0 resp net k Hstart Hlen Hnew Hdo Hst Hcl Hbody body.
  set (cap := if (len =? -1)%Z then wrap64 (ContentLength resp - start)
              else len).
  exists (Skip (mkSkipReader resp.(Body_) start cap 0 0 false)),
         (capped cap 0 (skipn (Z.to_nat start) body)).
  split; [|split; [|split; [|split]]].
  - unfold RangeRequest. apply Z.eqb_neq in Hlen. rewrite Hlen, Hnew.
    unfold bind, send, ret. rewrite Hdo, Hst.
    assert (E : (0 <? start)%Z = true) by (apply Z.ltb_lt; lia).
    rewrite E. reflexivity.
  - intros fuel Hf. subst body. destruct (Body_ resp) as [b sh].
    apply skipReader_delivers; [lia|exact Hbody|exact Hf].
  - unfold capped. destruct (0 <? cap)%Z.
    + exists (skipn (Z.to_nat (cap - 0)) (skipn (Z.to_nat start) body)).
      symmetry. apply firstn_skipn.
    + exists []. now rewrite app_nil_r.
  - intros Hpos. subst cap.
    assert (E : (len =? -1)%Z = false) by (apply Z.eqb_neq; lia).
    rewrite E. unfold capped.
    assert (E' : (0 <? len)%Z = true) by (apply Z.ltb_lt; lia).
    rewrite E'. now rewrite Z.sub_0_r.
  - intros Hneg Hhonest. subst cap. unfold capped.
    destruct (len =? -1)%Z eqn:E.
    + apply Z.eqb_eq in E. specialize (Hhonest E).
      rewrite wrap64_small by lia.
      destruct (0 <? ContentLength resp - start)%Z eqn:E'; [|reflexivity].
      apply Z.ltb_lt in E'. apply firstn_all2. rewrite length_skipn.
      fold body in Hhonest. lia.
    + assert (E' : (0 <? len)%Z = false) by (apply Z.ltb_ge; lia).
      now rewrite E'.
Qed.

Lemma RangeRequest_fallback_skips_witness :
  exists rd,
    fst (RangeRequest Samples.client "http://host/a.bin" 4 3 []) = Ok rd
    /\ ReadAll 11 5 rd = Some (list_ascii_of_string "456", None).
Proof.
  destruct (RangeRequest_fallback_skips Samples.client "http://host/a.bin"
              4 3 (mkRequest "GET" "http://host/a.bin" [])
              (mkResponse 200 10 (mkBody Samples.whole_file 3)) [] 4)
    as (rd & data & E & Hall & _ & Hb & _);
    [lia|discriminate|reflexivity|reflexivity|reflexivity|simpl; lia
     |simpl; lia|].
  exists rd. split; [now rewrite E|].
  rewrite (Hall 11) by (simpl; lia).
  rewrite Hb by lia. reflexivity.
Defined.

End RangeProps.

(* ================================================================== *)
(** ** More on [lib/utils]: idempotence, the guard, prefix matching     *)
(* ================================================================== *)

Module PathMore.
Import Strings Path Props StringsFacts PathFacts.

(** *** [Join] and [Split] *)

Lemma join_cons (e : gostring) (rest : list gostring) :
  join (e :: rest) = e ++ behind_slashes rest.
Proof.
  revert e. induction rest as [|e' rest IH]; intros e.
  - simpl. now rewrite app_nil_r.
  - change (join (e :: e' :: rest)) with (e ++ "/" ++ join (e' :: rest)).
    rewrite IH. reflexivity.
Qed.

Lemma join_segments_aux (cur s : gostring) :
  join (segments_aux cur s) = rev cur ++ s.
Proof.
  revert cur. induction s as [|c s IH]; intros cur; simpl.
  - now rewrite app_nil_r.
  - destruct (Ascii.eqb c "/") eqn:Hc.
    + apply Ascii.eqb_eq in Hc. subst c.
      pose proof (segments_aux_nonempty [] s) as Hne.
      destruct (segments_aux [] s) as [|e l] eqn:E; [congruence|].
      change (join (rev cur :: e :: l)) with (rev cur ++ "/" ++ join (e :: l)).
      rewrite <- E, IH. reflexivity.
    + rewrite IH. simpl. now rewrite <- app_assoc.
Qed.

(** Joining the segments of a path gives the path back. *)
Lemma join_segments (s : gostring) : join (segments s) = s.
Proof. apply join_segments_aux. Qed.

Lemma join_app (l1 l2 : list gostring) :
  l1 <> [] -> l2 <> [] -> join (l1 ++ l2) = join l1 ++ "/" ++ join l2.
Proof.
  intros H1 H2. destruct l1 as [|e l1]; [congruence|]. clear H1.
  revert e. induction l1 as [|e' l1 IH]; intros e.
  - destruct l2 as [|e2 l2]; [congruence|]. reflexivity.
  - change (join ((e :: e' :: l1) ++ l2))
      with (e ++ "/" ++ join ((e' :: l1) ++ l2)).
    rewrite IH.
    change (join (e :: e' :: l1)) with (e ++ "/" ++ join (e' :: l1)).
    now rewrite <- !app_assoc.
Qed.

(** *** [Clean] on a cleaned path *)

Lemma end_or_slash_behind (elems : list gostring) :
  end_or_slash (behind_slashes elems) = true.
Proof. destruct elems; reflexivity. Qed.

Lemma span_elem_app (s r : gostring) :
  ~ In "/"%char s -> end_or_slash r = true -> span_elem (s ++ r) = (s, r).
Proof.
  intros Hno Hr. induction s as [|c s IH]; simpl.
  - destruct r as [|c r]; [reflexivity|]. simpl in Hr. simpl. now rewrite Hr.
  - assert (Hc : Ascii.eqb c "/" = false).
    { apply Ascii.eqb_neq. intros ->. apply Hno. now left. }
    rewrite Hc, IH; [reflexivity|]. intros H. apply Hno. now right.
Qed.

Lemma end_or_slash_app_false (s r : gostring) :
  s <> [] -> ~ In "/"%char s -> end_or_slash (s ++ r) = false.
Proof.
  intros Hne Hno. destruct s as [|c s]; [congruence|]. simpl.
  apply Ascii.eqb_neq. intros ->. apply Hno. now left.
Qed.

(** One round of the loop on a slash. *)
Lemma Clean_loop_slash (fuel : nat) (rooted : bool) (r : gostring)
      (out : lazybuf) (dotdot : nat) :
  Clean_loop (S fuel) rooted ("/"%char :: r) out dotdot
  = Clean_loop fuel rooted r out dotdot.
Proof. reflexivity. Qed.

(** One round of the loop on a [..] element that cannot backtrack, in an
    unrooted path. *)
Lemma Clean_loop_dotdot (fuel : nat) (r : gostring) (out : lazybuf) :
  end_or_slash r = true ->
  Clean_loop (S fuel) false ("."%char :: "."%char :: r) out (length out)
  = Clean_loop fuel false r
      ("."%char :: "."%char
         :: (if 0 <? length out then "/"%char :: out else out))
      (S (S (length (if 0 <? length out then "/"%char :: out else out)))).
Proof.
  intros Hr. cbn [Clean_loop].
  change (Ascii.eqb "." "/") with false. cbv iota.
  change (Ascii.eqb "." ".") with true.
  cbn [end_or_slash andb]. change (Ascii.eqb "." "/") with false.
  cbv iota. rewrite Hr. cbv iota zeta. cbn [tl negb].
  rewrite Nat.ltb_irrefl. reflexivity.
Qed.

(** One round of the loop on a real element followed by [r]. *)
Lemma Clean_loop_copy (fuel : nat) (rooted : bool) (s r : gostring)
      (out : lazybuf) (dotdot : nat) :
  normal s -> end_or_slash r = true ->
  Clean_loop (S fuel) rooted (s ++ r) out dotdot
  = Clean_loop fuel rooted r
               (rev s ++ (if sep_needed rooted out then "/"%char :: out
                          else out))
               dotdot.
Proof.
  intros (Hne & Hno & Hd & Hdd) Hr.
  destruct s as [|c s1]; [congruence|].
  assert (Hc : Ascii.eqb c "/" = false).
  { apply Ascii.eqb_neq. intros ->. apply Hno. now left. }
  assert (Hno1 : ~ In "/"%char s1) by (intros H; apply Hno; now right).
  change ((c :: s1) ++ r) with (c :: (s1 ++ r)).
  cbn [Clean_loop]. rewrite Hc.
  assert (H1 : Ascii.eqb c "." && end_or_slash (s1 ++ r) = false).
  { destruct (Ascii.eqb c ".") eqn:Hcd; [|reflexivity]. simpl.
    apply Ascii.eqb_eq in Hcd. subst c.
    destruct s1 as [|c1 s2]; [now elim Hd|].
    now apply end_or_slash_app_false. }
  rewrite H1.
  assert (H2 : Ascii.eqb c "."
               && match s1 ++ r with
                  | c1 :: rest2 => Ascii.eqb c1 "." && end_or_slash rest2
                  | [] => false
                  end = false).
  { destruct (Ascii.eqb c ".") eqn:Hcd; [|reflexivity]. simpl.
    apply Ascii.eqb_eq in Hcd. subst c.
    destruct s1 as [|c1 s2]; [now elim Hd|]. simpl.
    destruct (Ascii.eqb c1 ".") eqn:Hc1; [|reflexivity]. simpl.
    apply Ascii.eqb_eq in Hc1. subst c1.
    destruct s2 as [|c2 s3]; [now elim Hdd|].
    apply end_or_slash_app_false; [discriminate|].
    intros H. apply Hno1. now right. }
  rewrite H2.
  change (c :: s1 ++ r) with ((c :: s1) ++ r).
  rewrite span_elem_app by assumption. reflexivity.
Qed.

(** The real elements [elems], each behind its slash, are pushed as they
    come. *)
Lemma Clean_loop_normals (elems : list gostring) :
  forall (fuel : nat) (out : lazybuf) (dotdot : nat),
    Forall normal elems -> out <> [] ->
    length (behind_slashes elems) <= fuel ->
    rev (Clean_loop fuel false (behind_slashes elems) out dotdot)
    = rev out ++ behind_slashes elems.
Proof.
  induction elems as [|e rest IH]; intros fuel out dotdot Hn Hout Hf.
  - simpl. destruct fuel; simpl; now rewrite app_nil_r.
  - inversion Hn as [|? ? He Hrest]; subst.
    simpl in Hf. rewrite length_app in Hf.
    pose proof (normal_nonempty e He) as Hlen.
    destruct fuel as [|[|fuel]]; [lia|lia|].
    change (behind_slashes (e :: rest))
      with ("/"%char :: e ++ behind_slashes rest).
    rewrite Clean_loop_slash.
    rewrite Clean_loop_copy by (auto using end_or_slash_behind).
    assert (Hsep : sep_needed false out = true).
    { unfold sep_needed. simpl. destruct out; [congruence|reflexivity]. }
    rewrite Hsep, IH; [|assumption| |lia].
    + rewrite rev_app_distr, rev_involutive. simpl.
      now rewrite <- !app_assoc.
    + intros E. apply app_eq_nil in E as [_ E]. discriminate.
Qed.

Lemma dotdots_nonempty (j : nat) : 1 <= j -> dotdots j <> [].
Proof. destruct j; [lia|discriminate]. Qed.

Lemma rev_dotdots_S (j : nat) :
  1 <= j ->
  rev (dotdots (S j)) = rev (dotdots j) ++ list_ascii_of_string "/..".
Proof.
  intros Hj. destruct j as [|j]; [lia|].
  change (dotdots (S (S j)))
    with ("."%char :: "."%char :: "/"%char :: dotdots (S j)).
  simpl rev. now rewrite <- !app_assoc.
Qed.

(** Leading [..] elements behind their slashes, on a buffer that holds
    nothing but [..] elements, are appended; the real elements follow. *)
Lemma Clean_loop_dotdots (n : nat) :
  forall (j fuel : nat) (elems : list gostring),
    Forall normal elems -> 1 <= j ->
    length (behind_slashes (repeat (list_ascii_of_string "..") n)
            ++ behind_slashes elems) <= fuel ->
    rev (Clean_loop fuel false
           (behind_slashes (repeat (list_ascii_of_string "..") n)
            ++ behind_slashes elems)
           (dotdots j) (length (dotdots j)))
    = rev (dotdots j)
      ++ behind_slashes (repeat (list_ascii_of_string "..") n)
      ++ behind_slashes elems.
Proof.
  induction n as [|n IH]; intros j fuel elems Hn Hj Hf.
  - simpl. apply Clean_loop_normals; auto using dotdots_nonempty.
  - simpl repeat in *.
    change (behind_slashes (list_ascii_of_string ".." :: ?l))
      with ("/"%char :: "."%char :: "."%char :: behind_slashes l) in *.
    simpl app in *. simpl length in Hf.
    destruct fuel as [|[|fuel]]; [lia|lia|].
    set (rest := behind_slashes (repeat (list_ascii_of_string "..") n)
                 ++ behind_slashes elems) in *.
    assert (Hrest : end_or_slash rest = true).
    { subst rest. destruct n; simpl; [apply end_or_slash_behind|reflexivity]. }
    rewrite Clean_loop_slash, Clean_loop_dotdot by assumption.
    specialize (IH (S j) fuel elems Hn).
    change (dotdots (S j))
      with ("."%char :: "."%char
              :: (if 0 <? length (dotdots j) then "/"%char :: dotdots j
                  else dotdots j)) in IH.
    cbn [length] in IH. rewrite IH by lia.
    change ("."%char :: "."%char
              :: (if 0 <? length (dotdots j) then "/"%char :: dotdots j
                  else dotdots j))
      with (dotdots (S j)).
    rewrite rev_dotdots_S by assumption.
    now rewrite <- !app_assoc.
Qed.

(** [Clean] leaves a cleaned relative path as it is. *)
Lemma Clean_clean_form (p : gostring) :
  clean_form p -> p <> [] -> Clean p = p.
Proof.
  intros Hcf Hne.
  assert (Hslash := clean_form_no_lead_slash p Hcf).
  destruct (clean_form_segments p Hcf) as [E|(k & elems & Hn & Hseg)];
    [contradiction|].
  assert (Hp : p = join (repeat (list_ascii_of_string "..") k ++ elems))
    by (now rewrite <- Hseg, join_segments).
  destruct p as [|c p']; [congruence|].
  change (list_ascii_of_string "/") with ["/"%char] in Hslash.
  rewrite HasPrefix_cons in Hslash.
  unfold Clean. rewrite Hslash. cbv zeta.
  assert (Hrev : rev (Clean_loop (length (c :: p')) false (c :: p') [] 0)
                 = c :: p').
  { rewrite Hp at 2 3. rewrite Hp at 1. clear Hp Hseg Hslash Hcf Hne.
    destruct k as [|k].
    - destruct elems as [|e rest].
      { reflexivity. }
      inversion Hn as [|? ? He Hrest]; subst.
      cbn [repeat app]. rewrite join_cons.
      pose proof (normal_nonempty e He) as Hlen.
      destruct (length (e ++ behind_slashes rest)) as [|fuel] eqn:Hf.
      { rewrite length_app in Hf. lia. }
      rewrite Clean_loop_copy by (auto using end_or_slash_behind).
      cbn [sep_needed length Nat.eqb negb andb orb]. rewrite app_nil_r.
      destruct rest as [|e' rest'].
      { simpl. destruct fuel; simpl; now rewrite rev_involutive, app_nil_r. }
      rewrite Clean_loop_normals; [now rewrite rev_involutive|assumption| |].
      + destruct He as (Hne & _). intros E. apply Hne.
        now rewrite <- (rev_involutive e), E.
      + rewrite length_app in Hf. lia.
    - cbn [repeat app]. rewrite join_cons.
      change (behind_slashes (repeat (list_ascii_of_string "..") k ++ elems))
        with (behind_slashes (repeat (list_ascii_of_string "..") k ++ elems)).
      assert (Hb : forall l1 l2,
                 behind_slashes (l1 ++ l2)
                 = behind_slashes l1 ++ behind_slashes l2).
      { induction l1 as [|x l1 IHl]; intros l2; simpl; [reflexivity|].
        now rewrite IHl, <- app_assoc. }
      rewrite Hb.
      set (rest := behind_slashes (repeat (list_ascii_of_string "..") k)
                   ++ behind_slashes elems).
      assert (Hrest : end_or_slash rest = true).
      { subst rest. destruct k; simpl; [apply end_or_slash_behind|reflexivity]. }
      change (list_ascii_of_string ".." ++ rest)
        with ("."%char :: "."%char :: rest).
      cbn [length].
      pose proof (Clean_loop_dotdot (S (length rest)) rest [] Hrest) as Hstep.
      cbn [length] in Hstep. rewrite Hstep. clear Hstep.
      pose proof (Clean_loop_dotdots k 1 (S (length rest)) elems Hn
                    (le_n 1)) as H.
      fold rest in H. exact (H (Nat.le_succ_diag_r _)). }
  destruct (length (Clean_loop (length (c :: p')) false (c :: p') [] 0) =? 0)
    eqn:Hz; [|exact Hrev].
  apply Nat.eqb_eq in Hz.
  apply (f_equal (@length _)) in Hrev. rewrite length_rev, Hz in Hrev.
  discriminate.
Qed.

(** X1: normalizing twice is normalizing once, for every path whose normal
    form is not empty; a path whose normal form is empty (such as [//])
    normalizes to ["."] the second time. *)
Theorem NormalizePath_idempotent :
  forall p : gostring,
    (Utils.NormalizePath p <> [] ->
     Utils.NormalizePath (Utils.NormalizePath p) = Utils.NormalizePath p)
    /\ (Utils.NormalizePath p = [] ->
        Utils.NormalizePath (Utils.NormalizePath p)
        = list_ascii_of_string ".").
Proof.
  intros p. split; [|now intros ->].
  intros Hne. destruct (NormalizePath_form p) as [->|Hcf]; [reflexivity|].
  set (u := Utils.NormalizePath p) in *.
  unfold Utils.NormalizePath. unfold TrimPrefix at 2.
  rewrite (clean_form_no_lead_slash u Hcf).
  rewrite (Clean_clean_form u Hcf Hne).
  unfold TrimPrefix. now rewrite (clean_form_no_lead_slash u Hcf).
Qed.

Lemma NormalizePath_idempotent_witness :
  Utils.NormalizePath (Utils.NormalizePath "/a/../b/./c")
  = Utils.NormalizePath "/a/../b/./c"
  /\ Utils.NormalizePath (Utils.NormalizePath "//")
     = list_ascii_of_string ".".
Proof.
  split.
  - apply (NormalizePath_idempotent "/a/../b/./c"). discriminate.
  - apply (NormalizePath_idempotent "//"). reflexivity.
Defined.

(** X2: a path that [IsValidPath] accepts normalizes to ["."], to the empty
    path, or to a sequence of real path elements: none of its segments is
    empty, [.] or [..], so it names something inside the archive. *)
Theorem IsValidPath_confines :
  forall p : gostring,
    Utils.IsValidPath p = true ->
    Utils.NormalizePath p = list_ascii_of_string "."
    \/ Utils.NormalizePath p = []
    \/ Forall normal (segments (Utils.NormalizePath p)).
Proof.
  intros p Hv.
  destruct (NormalizePath_form p) as [E|Hcf]; [now left|right].
  destruct (clean_form_segments _ Hcf) as [E|(k & rest & Hn & Hseg)];
    [now left|right].
  assert (Hno : ~ In (list_ascii_of_string "..")
                  (segments (Utils.NormalizePath p))).
  { intros Hin. apply segment_substring, Contains_iff in Hin.
    unfold Utils.IsValidPath in Hv.
    destruct (Contains p ".."); [discriminate|].
    rewrite Hin in Hv. discriminate. }
  rewrite Hseg in *. destruct k as [|k]; [exact Hn|].
  exfalso. apply Hno. now left.
Qed.

Lemma IsValidPath_confines_witness :
  Forall normal (segments (Utils.NormalizePath "/docs/./guide.pdf")).
Proof.
  destruct (IsValidPath_confines "/docs/./guide.pdf" eq_refl)
    as [H|[H|H]]; [discriminate H|discriminate H|exact H].
Defined.

(** X3: [PathMatchesPrefix] compares whole path elements of the normalized
    paths: it holds exactly when the normalized prefix is empty or its
    segments begin the segments of the normalized file path.  As the empty
    prefix normalizes to ["."], it matches only the paths that normalize to
    ["."] themselves. *)
Theorem PathMatchesPrefix_segments :
  forall filePath prefix : gostring,
    (Utils.PathMatchesPrefix filePath prefix = true
     <-> Utils.NormalizePath prefix = []
         \/ exists rest,
             segments (Utils.NormalizePath filePath)
             = segments (Utils.NormalizePath prefix) ++ rest)
    /\ (Utils.PathMatchesPrefix filePath [] = true
        <-> Utils.NormalizePath filePath = list_ascii_of_string ".").
Proof.
  intros filePath prefix.
  assert (G : forall f q,
             Utils.PathMatchesPrefix f q = true
             <-> Utils.NormalizePath q = []
                 \/ exists rest,
                     segments (Utils.NormalizePath f)
                     = segments (Utils.NormalizePath q) ++ rest).
  { intros f q. unfold Utils.PathMatchesPrefix.
    set (nf := Utils.NormalizePath f). set (nq := Utils.NormalizePath q).
    destruct (streq nq []) eqn:Hq.
    { apply streq_eq in Hq. split; auto. }
    apply streq_neq in Hq. rewrite orb_true_iff, HasPrefix_iff, streq_eq.
    split.
    - intros [[t Ht]|E]; right.
      + exists (segments t). rewrite Ht.
        change (nq ++ list_ascii_of_string "/") with (nq ++ ["/"%char]).
        rewrite <- app_assoc. apply segments_app_slash.
      + exists []. now rewrite E, app_nil_r.
    - intros [E|[rest Hrest]]; [contradiction|].
      destruct rest as [|r rest'].
      + right. rewrite app_nil_r in Hrest.
        now rewrite <- (join_segments nf), Hrest, join_segments.
      + left. exists (join (r :: rest')).
        rewrite <- (join_segments nf), Hrest.
        rewrite join_app;
          [|apply segments_aux_nonempty|discriminate].
        rewrite join_segments.
        change (nq ++ list_ascii_of_string "/") with (nq ++ ["/"%char]).
        now rewrite <- app_assoc. }
  split; [apply G|].
  rewrite G. change (Utils.NormalizePath []) with (list_ascii_of_string ".").
  split.
  - intros [E|[rest Hrest]]; [discriminate|].
    destruct (NormalizePath_form filePath) as [E|Hcf]; [exact E|].
    exfalso. apply (clean_form_no_dot_segment _ Hcf).
    rewrite Hrest. now left.
  - intros ->. right. exists []. reflexivity.
Qed.

End PathMore.

(* ================================================================== *)
(** ** More on [lib/rangehttp]: what a read returns and costs           *)
(* ================================================================== *)

Module RangeMore.
Import Strings Go Rangehttp Props StringsFacts RangeProps.

(** *** One [Read] *)

Lemma Body_Read_sound (b b' : Body) (k : nat) (data : gostring)
      (err : option error) :
  0 < k -> Body_Read b k = ((data, err), b') ->
  short b' = short b
  /\ length data <= k
  /\ pending b = data ++ pending b'
  /\ match err with
     | None => data <> []
     | Some e => e = EOF /\ data = [] /\ pending b = []
     end.
Proof.
  intros Hk. unfold Body_Read. destruct (pending b) as [|x d] eqn:Hp.
  - intros H. injection H as <- <- <-. rewrite Hp.
    repeat split; auto. simpl. lia.
  - intros H. injection H as <- <- <-. cbn [short pending].
    split; [reflexivity|]. split; [rewrite length_firstn; lia|].
    split; [symmetry; apply firstn_skipn|].
    destruct (Nat.min k (S (short b))) eqn:E; [lia|discriminate].
Qed.

Lemma capped_split (cap n : Z) (m : nat) (d : gostring) :
  ((0 < cap)%Z -> m <= Z.to_nat (cap - n)) -> (0 <= n)%Z ->
  capped cap n d
  = firstn m d
    ++ capped cap (n + Z.of_nat (length (firstn m d))) (skipn m d).
Proof.
  intros Hm Hn. unfold capped.
  destruct (0 <? cap)%Z eqn:H1; [|symmetry; apply firstn_skipn].
  apply Z.ltb_lt in H1. specialize (Hm H1).
  replace (Z.to_nat (cap - n)) with (m + (Z.to_nat (cap - n) - m)) by lia.
  rewrite firstn_add. f_equal.
  destruct (Nat.le_gt_cases m (length d)) as [Hle|Hgt].
  - f_equal. rewrite length_firstn. lia.
  - rewrite skipn_all2 by lia. now rewrite !firstn_nil.
Qed.

(** What one [Read] into a buffer with room does to a reader: it hands
    over a first part of the stream, at most the buffer's length and not
    empty, or reports the end of a stream that is empty. *)
Lemma Read_sound (rd rd' : ReadCloser) (k : nat) (data : gostring)
      (err : option error) :
  in_range rd -> 0 < k -> Read rd k = ((data, err), rd') ->
  in_range rd'
  /\ length data <= k
  /\ stream rd = data ++ stream rd'
  /\ match err with
     | None => data <> []
     | Some e => e = EOF /\ data = [] /\ stream rd = []
     end.
Proof.
  intros Hwf Hk. destruct rd as [b|s]; cbn [Read].
  - destruct (Body_Read b k) as [res b'] eqn:E. intros H.
    injection H as -> <-. apply Body_Read_sound in E; [|exact Hk].
    destruct E as (_ & H1 & H2 & H3). cbn [stream in_range]. auto.
  - destruct (skipReader_Read s k) as [res s'] eqn:E. intros H.
    injection H as -> <-. revert E. unfold skipReader_Read.
    destruct s as [[d sh] sk cap skd n once]. cbn [in_range] in Hwf.
    cbn [skipOnce reader skip length_ skipped read pending] in *.
    destruct Hwf as [Hn Hb].
    (* the state after the skip, and the error of the skip *)
    assert (Hskip :
              exists d1 skd1,
                (if once
                 then (@None error,
                       mkSkipReader (mkBody d sh) sk cap skd n once)
                 else
                   let (err0, b) := CopyN_Discard (mkBody d sh) sk in
                   match err0 with
                   | Some _ => (err0, mkSkipReader b sk cap skd n true)
                   | None => (err0, mkSkipReader b sk cap sk n true)
                   end)
                = ((if (negb once && (Z.of_nat (length d) <? sk)%Z)
                    then Some EOF else None),
                   mkSkipReader (mkBody d1 sh) sk cap skd1 n true)
                /\ d1 = (if once then d else skipn (Z.to_nat sk) d)).
    { destruct once.
      - exists d, skd. split; reflexivity.
      - unfold CopyN_Discard. cbn [pending short negb andb].
        destruct (sk <=? 0)%Z eqn:E0.
        + apply Z.leb_le in E0. exists d, sk.
          replace (Z.of_nat (length d) <? sk)%Z with false
            by (symmetry; apply Z.ltb_ge; lia).
          replace (Z.to_nat sk) with 0 by lia. split; reflexivity.
        + apply Z.leb_gt in E0.
          destruct (sk <=? Z.of_nat (length d))%Z eqn:E1.
          * apply Z.leb_le in E1. exists (skipn (Z.to_nat sk) d), sk.
            replace (Z.of_nat (length d) <? sk)%Z with false
              by (symmetry; apply Z.ltb_ge; lia).
            split; reflexivity.
          * apply Z.leb_gt in E1. exists [], skd.
            replace (Z.of_nat (length d) <? sk)%Z with true
              by (symmetry; apply Z.ltb_lt; lia).
            split; [reflexivity|]. symmetry. apply skipn_all2. lia. }
    destruct Hskip as (d1 & skd1 & -> & Hd1).
    assert (Hlen1 : length d1 <= length d).
    { subst d1. destruct once; [lia|]. rewrite length_skipn. lia. }
    cbn [stream skipOnce reader skip length_ read pending]. rewrite <- Hd1.
    destruct (negb once && (Z.of_nat (length d) <? sk)%Z) eqn:Hfail.
    { intros H. injection H as <- <- <-.
      cbn [stream in_range skipOnce reader length_ read pending].
      apply andb_true_iff in Hfail as [Ho Hlt]. apply Z.ltb_lt in Hlt.
      destruct once; [discriminate|].
      assert (d1 = []) by (subst d1; apply skipn_all2; lia). subst d1.
      rewrite H. unfold capped. destruct (0 <? cap)%Z;
        rewrite ?firstn_nil; repeat split; auto; simpl; lia. }
    cbn [length_ read reader].
    destruct ((0 <? cap)%Z && (cap <=? n)%Z) eqn:Hfull.
    { intros H. injection H as <- <- <-.
      cbn [stream in_range skipOnce reader length_ read pending].
      apply andb_true_iff in Hfull as [H1 H2]. apply Z.leb_le in H2.
      unfold capped. rewrite H1.
      replace (Z.to_nat (cap - n)) with 0 by lia.
      repeat split; auto; simpl; lia. }
    set (k' := if (0 <? cap)%Z
               then if (cap - n <? Z.of_nat k)%Z
                    then Z.to_nat (cap - n) else k
               else k).
    assert (Hk' : 1 <= k' <= k
                  /\ ((0 < cap)%Z -> k' <= Z.to_nat (cap - n))).
    { subst k'. destruct (0 <? cap)%Z eqn:H1.
      - apply Z.ltb_lt in H1. simpl in Hfull. apply Z.leb_gt in Hfull.
        destruct (cap - n <? Z.of_nat k)%Z eqn:H2.
        + apply Z.ltb_lt in H2. split; [lia|intros _; lia].
        + apply Z.ltb_ge in H2. split; [lia|intros _; lia].
      - apply Z.ltb_ge in H1. split; [lia|intros; lia]. }
    destruct Hk' as [[Hk1 Hk2] Hk3].
    destruct (Body_Read (mkBody d1 sh) k') as [[p e] b'] eqn:Hr.
    apply Body_Read_sound in Hr; [|lia].
    destruct Hr as (Hsh & Hpl & Hpend & Herr). cbn [pending] in Hpend.
    intros H. injection H as <- <- <-.
    cbn [stream in_range skipOnce reader length_ read pending].
    assert (Hw : wrap64 (n + Z.of_nat (length p)) = (n + Z.of_nat (length p))%Z).
    { apply wrap64_small. rewrite Hpend, length_app in Hlen1. lia. }
    rewrite Hw.
    split; [|split; [lia|]].
    { split; [lia|]. rewrite Hpend, length_app in Hlen1. lia. }
    destruct e as [e|].
    + cbn [pending] in Herr. destruct Herr as (-> & -> & Hd1e).
      simpl in Hpend. rewrite <- Hpend, Hd1e.
      assert (Hc : forall m, capped cap m [] = [])
        by (intros; unfold capped; destruct (0 <? cap)%Z;
            now rewrite ?firstn_nil).
      rewrite !Hc. auto.
    + split; [|exact Herr].
      assert (Hp : p = firstn (length p) d1 /\ pending b' = skipn (length p) d1).
      { rewrite Hpend. rewrite firstn_app, Nat.sub_diag, firstn_all.
        rewrite skipn_app, Nat.sub_diag, skipn_all. simpl.
        now rewrite app_nil_r. }
      destruct Hp as [Hp1 Hp2].
      rewrite (capped_split cap n (length p) d1) by lia.
      rewrite <- Hp1, <- Hp2. reflexivity.
Qed.

(** *** Draining a reader *)

(** [io.ReadAll] delivers the stream of any reader. *)
Lemma ReadAll_stream (fuel : nat) :
  forall (rd : ReadCloser) (k : nat),
    in_range rd -> length (stream rd) < fuel ->
    ReadAll fuel (S k) rd = Some (stream rd, None).
Proof.
  induction fuel as [|fuel IH]; intros rd k Hwf Hf; [lia|].
  cbn [ReadAll]. destruct (Read rd (S k)) as [[data err] rd'] eqn:Hr.
  apply Read_sound in Hr; [|exact Hwf|lia].
  destruct Hr as (Hwf' & Hlen & Hs & Herr).
  destruct err as [e|].
  - destruct Herr as (-> & -> & ->). reflexivity.
  - assert (0 < length data) by (destruct data; [congruence|simpl; lia]).
    rewrite IH; [now rewrite Hs|exact Hwf'|].
    rewrite Hs, length_app in Hf. lia.
Qed.

(** The loop of [ReadAt] fills the buffer from the stream of the reader:
    it returns the first [len] bytes still missing, with [io.EOF] when the
    stream ends before. *)
Lemma ReadAt_loop_stream (fuel : nat) :
  forall (rd : ReadCloser) (plen : nat) (len : Z) (p : gostring),
    in_range rd ->
    (Z.of_nat (length p) <= len <= Z.of_nat plen)%Z ->
    (len - Z.of_nat (length p) <= Z.of_nat fuel)%Z ->
    (len = Z.of_nat plen
     \/ (Z.of_nat (length (stream rd)) <= len - Z.of_nat (length p))%Z) ->
    ReadAt_loop fuel rd plen len p
    = (p ++ firstn (Z.to_nat (len - Z.of_nat (length p))) (stream rd),
       if (len <=? Z.of_nat (length p + length (stream rd)))%Z
       then None else Some EOF).
Proof.
  induction fuel as [|fuel IH]; intros rd plen len p Hwf Hp Hf Hfit.
  - replace (Z.to_nat (len - Z.of_nat (length p))) with 0 by lia.
    simpl. rewrite app_nil_r.
    replace (len <=? Z.of_nat (length p + length (stream rd)))%Z with true
      by (symmetry; apply Z.leb_le; lia).
    reflexivity.
  - cbn [ReadAt_loop].
    destruct (Z.of_nat (length p) <? len)%Z eqn:Hlt.
    2:{ apply Z.ltb_ge in Hlt.
        replace (Z.to_nat (len - Z.of_nat (length p))) with 0 by lia.
        simpl. rewrite app_nil_r.
        replace (len <=? Z.of_nat (length p + length (stream rd)))%Z
          with true by (symmetry; apply Z.leb_le; lia).
        reflexivity. }
    apply Z.ltb_lt in Hlt.
    destruct (Read rd (plen - length p)) as [[data err] rd'] eqn:Hr.
    apply Read_sound in Hr; [|exact Hwf|lia].
    destruct Hr as (Hwf' & Hlen & Hs & Herr).
    destruct err as [e|].
    + destruct Herr as (-> & -> & Hempty). rewrite Hempty, app_nil_r.
      rewrite firstn_nil, app_nil_r.
      replace (Z.of_nat (length p) =? len)%Z with false
        by (symmetry; apply Z.eqb_neq; lia).
      replace (len <=? Z.of_nat (length p + length (@nil ascii)))%Z
        with false by (symmetry; apply Z.leb_gt; simpl; lia).
      reflexivity.
    + assert (Hd : 0 < length data)
        by (destruct data; [congruence|simpl; lia]).
      assert (Hslen : length (stream rd)
                      = length data + length (stream rd'))
        by (now rewrite Hs, length_app).
      assert (Hdl : (Z.of_nat (length data) <= len - Z.of_nat (length p))%Z)
        by (destruct Hfit; lia).
      rewrite IH; [|exact Hwf'|rewrite length_app; lia
                   |rewrite length_app; lia|rewrite length_app; lia].
      rewrite length_app, Hs. f_equal.
      * rewrite <- app_assoc. f_equal.
        replace (Z.to_nat (len - Z.of_nat (length p)))
          with (length data
                + Z.to_nat (len - Z.of_nat (length p + length data)))
          by lia.
        rewrite firstn_add, firstn_app, Nat.sub_diag, firstn_all.
        simpl firstn. rewrite app_nil_r.
        rewrite skipn_app, Nat.sub_diag, skipn_all. reflexivity.
      * rewrite length_app.
        replace (length p + length data + length (stream rd'))
          with (length p + (length data + length (stream rd'))) by lia.
        reflexivity.
Qed.

(** *** What [ReadAt] returns and costs *)

Lemma Read_length (rd : ReadCloser) (k : nat) :
  length (fst (fst (Read rd k))) <= k.
Proof.
  assert (HB : forall b k0, length (fst (fst (Body_Read b k0))) <= k0).
  { intros b k0. unfold Body_Read. destruct (pending b); simpl; [lia|].
    rewrite length_firstn. lia. }
  destruct rd as [b|s]; cbn [Read].
  - specialize (HB b k). destruct (Body_Read b k). exact HB.
  - destruct (skipReader_Read s k) as [res s'] eqn:E. cbn [fst].
    revert E. unfold skipReader_Read.
    destruct (if skipOnce s then _ else _) as [[e|] s1].
    + intros H. injection H as <- _. simpl. lia.
    + destruct (_ && _).
      * intros H. injection H as <- _. simpl. lia.
      * match goal with
        | |- context [Body_Read (reader s1) ?k0] =>
            assert (Hk0 : k0 <= k);
            [|specialize (HB (reader s1) k0);
              destruct (Body_Read (reader s1) k0) as [[p e] b]]
        end.
        { destruct (0 <? length_ s1)%Z; [|lia].
          destruct (_ <? _)%Z eqn:E; [|lia]. apply Z.ltb_lt in E. lia. }
        intros H. injection H as <- _. simpl in *. lia.
Qed.

Lemma ReadAt_loop_length (fuel : nat) :
  forall (rd : ReadCloser) (plen : nat) (len : Z) (p : gostring),
    length p <= plen ->
    length (fst (ReadAt_loop fuel rd plen len p)) <= plen.
Proof.
  induction fuel as [|fuel IH]; intros rd plen len p Hp; [exact Hp|].
  cbn [ReadAt_loop]. destruct (_ <? _)%Z; [|exact Hp].
  pose proof (Read_length rd (plen - length p)) as Hr.
  destruct (Read rd (plen - length p)) as [[data err] rd']. cbn [fst] in Hr.
  assert (Hpd : length (p ++ data) <= plen) by (rewrite length_app; lia).
  destruct err as [e|]; [|now apply IH].
  destruct e; try exact Hpd. destruct (_ =? _)%Z; exact Hpd.
Qed.

Lemma RangeRequest_log (c : Client) (url : gostring) (start len : Z)
      (net : Net) :
  snd (RangeRequest c url start len net) = net
  \/ exists req, snd (RangeRequest c url start len net) = net ++ [req].
Proof.
  unfold RangeRequest. destruct (len =? 0)%Z; [now left|].
  destruct (NewRequestWithContext _ _ _) as [req|e]; [|now left].
  right. exists (build_request c req start len).
  unfold bind, send, ret.
  destruct (Do _ _) as [resp|e]; [|reflexivity].
  destruct (_ || _); [|reflexivity].
  destruct (_ && _); reflexivity.
Qed.

Lemma ReadAt_footprint :
  forall (r : RangeReader) (plen : nat) (off : Z) (net : Net),
    length (fst (fst (ReadAt r plen off net))) <= plen
    /\ (snd (ReadAt r plen off net) = net
        \/ exists req, snd (ReadAt r plen off net) = net ++ [req]).
Proof.
  intros r plen off net. unfold ReadAt.
  destruct (closed r); [simpl; split; [lia|now left]|].
  destruct (off <? 0)%Z; [simpl; split; [lia|now left]|].
  destruct (size r <=? off)%Z; [simpl; split; [lia|now left]|].
  unfold bind.
  match goal with
  | |- context [RangeRequest ?c ?u ?o ?l net] =>
      pose proof (RangeRequest_log c u o l net) as Hlog;
      destruct (RangeRequest c u o l net) as [[rd|e] net'] eqn:E
  end; cbn [snd] in Hlog; unfold ret; cbn [fst snd].
  - split; [|exact Hlog]. apply ReadAt_loop_length. simpl. lia.
  - split; [simpl; lia|exact Hlog].
Qed.

(** X4: whatever the origin answers, [ReadAt] returns at most [len(p)]
    bytes and sends at most one request. *)
Theorem ReadAt_bounded :
  forall (r : RangeReader) (plen : nat) (off : Z) (net : Net),
    length (fst (fst (ReadAt r plen off net))) <= plen
    /\ (snd (ReadAt r plen off net) = net
        \/ exists req, snd (ReadAt r plen off net) = net ++ [req]).
Proof. exact ReadAt_footprint. Qed.

Lemma firstn_min {A} (a : nat) (l : list A) :
  firstn (Nat.min a (length l)) l = firstn a l.
Proof.
  destruct (Nat.le_gt_cases a (length l)) as [H|H].
  - now rewrite Nat.min_l.
  - rewrite Nat.min_r by lia. rewrite firstn_all. symmetry.
    apply firstn_all2. lia.
Qed.

(** X5: a read inside the file, through an origin that serves the file,
    returns exactly the bytes asked for, as many as the buffer holds or as
    are left before the end, without error and with one request: whether
    the origin honours the range (206 with the window) or ignores it (200
    with the whole file). *)
Theorem ReadAt_exact :
  forall (r : RangeReader) (file : gostring) (plen : nat) (off : Z)
         (req0 : Request) (resp : Response) (net : Net),
    r.(closed) = false ->
    r.(size) = Z.of_nat (length file) ->
    (0 <= off < r.(size))%Z -> (r.(size) < 2 ^ 63)%Z -> 0 < plen ->
    (off + Z.of_nat plen < 2 ^ 63)%Z ->
    let len := Z.min (Z.of_nat plen) (r.(size) - off) in
    r.(client).(httpClient).(NewRequestWithContext) "GET" r.(url) = Ok req0 ->
    r.(client).(httpClient).(Do) (build_request r.(client) req0 off len)
    = Ok resp ->
    (resp.(StatusCode) = StatusPartialContent
     /\ resp.(Body_).(pending)
        = firstn (Z.to_nat len) (skipn (Z.to_nat off) file))
    \/ (resp.(StatusCode) = StatusOK /\ resp.(Body_).(pending) = file) ->
    ReadAt r plen off net
    = ((firstn plen (skipn (Z.to_nat off) file), None),
       net ++ [build_request r.(client) req0 off len]).
Proof.
  intros r file plen off req0 resp net Hcl Hsize Hoff Hmax Hplen Hfit len
         Hnew Hdo Hresp.
  assert (Hrest : length (skipn (Z.to_nat off) file)
                  = Z.to_nat (size r - off))
    by (rewrite length_skipn; lia).
  assert (Hlen : (0 < len <= Z.of_nat plen)%Z) by (subst len; lia).
  assert (Hlen' : Z.to_nat len
                  = Nat.min plen (length (skipn (Z.to_nat off) file)))
    by (rewrite Hrest; subst len; lia).
  assert (Hresult : firstn (Z.to_nat len) (skipn (Z.to_nat off) file)
                    = firstn plen (skipn (Z.to_nat off) file))
    by (rewrite Hlen'; apply firstn_min).
  unfold ReadAt. rewrite Hcl.
  replace (off <? 0)%Z with false by (symmetry; apply Z.ltb_ge; lia).
  replace (size r <=? off)%Z with false by (symmetry; apply Z.leb_gt; lia).
  rewrite (wrap64_small (off + Z.of_nat plen)) by lia.
  assert (Hl : (if (size r <? off + Z.of_nat plen)%Z
                then wrap64 (size r - off) else Z.of_nat plen) = len).
  { destruct (size r <? off + Z.of_nat plen)%Z eqn:E.
    - apply Z.ltb_lt in E. rewrite wrap64_small by lia. subst len. lia.
    - apply Z.ltb_ge in E. subst len. lia. }
  rewrite Hl. unfold bind at 1. unfold RangeRequest.
  replace (len =? 0)%Z with false by (symmetry; apply Z.eqb_neq; lia).
  rewrite Hnew. unfold bind, send, ret. rewrite Hdo.
  assert (Hloop : forall rd,
             in_range rd ->
             firstn (Z.to_nat len) (stream rd)
             = firstn plen (skipn (Z.to_nat off) file) ->
             (len <= Z.of_nat (length (stream rd)))%Z ->
             (len = Z.of_nat plen
              \/ (Z.of_nat (length (stream rd)) <= len)%Z) ->
             ReadAt_loop (S (Z.to_nat len)) rd plen len []
             = (firstn plen (skipn (Z.to_nat off) file), None)).
  { intros rd Hwf Hfirst Hge Hcase.
    rewrite ReadAt_loop_stream; simpl length; try lia; try assumption.
    simpl Z.of_nat at 1. rewrite Z.sub_0_r. simpl app. rewrite Hfirst.
    replace (len <=? Z.of_nat (0 + length (stream rd)))%Z with true
      by (symmetry; apply Z.leb_le; lia).
    reflexivity. }
  destruct Hresp as [[Hst Hbody]|[Hst Hbody]]; rewrite Hst.
  - (* 206 Partial Content *)
    cbn [StatusPartialContent StatusOK Z.eqb orb andb Pos.eqb].
    rewrite Hloop; [reflexivity|exact I| | |]; cbn [stream]; rewrite Hbody.
    + rewrite firstn_firstn, Nat.min_id. exact Hresult.
    + rewrite length_firstn. lia.
    + right. rewrite length_firstn. lia.
  - (* 200 OK *)
    cbn [StatusPartialContent StatusOK Z.eqb orb andb Pos.eqb].
    destruct (0 <? off)%Z eqn:Hpos.
    + apply Z.ltb_lt in Hpos.
      replace (len =? -1)%Z with false by (symmetry; apply Z.eqb_neq; lia).
      assert (Hs : stream (Skip (mkSkipReader (Body_ resp) off len 0 0 false))
                   = firstn (Z.to_nat len) (skipn (Z.to_nat off) file)).
      { cbn [stream length_ read skipOnce skip reader]. rewrite Hbody.
        unfold capped.
        replace (0 <? len)%Z with true by (symmetry; apply Z.ltb_lt; lia).
        now rewrite Z.sub_0_r. }
      rewrite Hloop; [reflexivity| | | |]; rewrite ?Hs.
      * cbn [in_range read reader]. rewrite Hbody. split; lia.
      * rewrite firstn_firstn, Nat.min_id. exact Hresult.
      * rewrite length_firstn. lia.
      * right. rewrite length_firstn. lia.
    + apply Z.ltb_ge in Hpos. assert (off = 0%Z) by lia. subst off.
      simpl skipn in *.
      rewrite Hloop; [reflexivity|exact I| | |]; cbn [stream];
        rewrite Hbody.
      * exact Hresult.
      * lia.
      * lia.
Qed.

Lemma ReadAt_exact_witness :
  ReadAt Samples.open_reader 4 8 []
  = ((list_ascii_of_string "89", None),
     [build_request Samples.client
        (mkRequest "GET" "http://host/a.bin" []) 8 2]).
Proof.
  apply (ReadAt_exact Samples.open_reader Samples.whole_file 4 8
           (mkRequest "GET" "http://host/a.bin" [])
           (mkResponse 200 10 (mkBody Samples.whole_file 3)) []);
    try reflexivity; try (simpl; lia).
  right. split; reflexivity.
Defined.

(** *** Closing and seeking *)

(** X6: closing twice is closing once, and on a closed reader every
    [ReadAt], at whatever offset, fails with the closed-reader error
    without sending a request. *)
Theorem Close_stops_reads :
  forall (r : RangeReader) (plen : nat) (off : Z) (net : Net),
    Close (Close r) = Close r
    /\ (Close r).(size) = r.(size)
    /\ ReadAt (Close r) plen off net
       = (([], Some (ErrorsNew "reader is closed")), net).
Proof.
  intros r plen off net. unfold Close, ReadAt.
  destruct (closed r) eqn:Hc; cbn [closed size]; rewrite ?Hc; auto.
Qed.

(** X7: a successful [Seek] on a RangeReader returns a position between 0
    and the size: the offset itself from the start, size plus offset from
    the end; every offset within those bounds succeeds, and a seek
    relative to the current position is refused. *)
Theorem Seek_within_file :
  forall (r : RangeReader) (offset whence : Z),
    (0 <= r.(size) < 2 ^ 63)%Z -> (- 2 ^ 63 <= offset < 2 ^ 63)%Z ->
    (forall pos, Seek r offset whence = Ok pos ->
                 (0 <= pos <= r.(size))%Z
                 /\ ((whence = SeekStart /\ pos = offset)
                     \/ (whence = SeekEnd /\ pos = (r.(size) + offset)%Z)))
    /\ ((0 <= offset <= r.(size))%Z -> Seek r offset SeekStart = Ok offset)
    /\ ((- r.(size) <= offset <= 0)%Z ->
        Seek r offset SeekEnd = Ok (r.(size) + offset)%Z)
    /\ Seek r offset SeekCurrent = Err (ErrorsNew "invalid whence").
Proof.
  intros r offset whence Hs Ho. unfold Seek.
  rewrite (wrap64_small (- size r)) by lia.
  split; [|split; [|split]].
  - intros pos. destruct (whence =? SeekStart)%Z eqn:E0.
    + apply Z.eqb_eq in E0.
      destruct (_ || _) eqn:E; [discriminate|].
      apply orb_false_iff in E as [E1 E2].
      apply Z.ltb_ge in E1, E2. intros H. injection H as <-. split; auto; lia.
    + destruct (whence =? SeekEnd)%Z eqn:E1; [|discriminate].
      apply Z.eqb_eq in E1.
      destruct (_ || _) eqn:E; [discriminate|].
      apply orb_false_iff in E as [E2 E3].
      apply Z.ltb_ge in E2, E3. rewrite wrap64_small by lia.
      intros H. injection H as <-. split; auto; lia.
  - intros H. cbn [SeekStart Z.eqb].
    replace (offset <? 0)%Z with false by (symmetry; apply Z.ltb_ge; lia).
    replace (size r <? offset)%Z with false
      by (symmetry; apply Z.ltb_ge; lia).
    reflexivity.
  - intros H. cbn [SeekStart SeekEnd Z.eqb Pos.eqb].
    replace (0 <? offset)%Z with false by (symmetry; apply Z.ltb_ge; lia).
    replace (offset <? - size r)%Z with false
      by (symmetry; apply Z.ltb_ge; lia).
    simpl orb. cbv iota. now rewrite wrap64_small by lia.
  - reflexivity.
Qed.

Lemma Seek_within_file_witness :
  Seek Samples.open_reader 4 SeekStart = Ok 4%Z
  /\ Seek Samples.open_reader (-4) SeekEnd = Ok 6%Z.
Proof.
  destruct (Seek_within_file Samples.open_reader 4 SeekStart)
    as (_ & H1 & _); [simpl; lia|lia|].
  destruct (Seek_within_file Samples.open_reader (-4) SeekEnd)
    as (_ & _ & H2 & _); [simpl; lia|lia|].
  split; [apply H1; simpl; lia|apply H2; simpl; lia].
Defined.

(** *** The section reader *)

(** X8: the cursor of a SectionReader stays within its section.  [Seek]
    either fails and leaves the reader as it was, or moves the cursor to a
    position of the section and returns that position relative to the
    section's start; [Read] advances the cursor by the number of bytes it
    returns, never past the section's end. *)
Theorem Section_cursor_invariant :
  forall (s : SectionReader),
    cursor_ok s ->
    (forall offset whence,
        let (res, s') := Section_Seek s offset whence in
        cursor_ok s'
        /\ match res with
           | Ok pos =>
               (0 <= pos <= Section_Size s)%Z
               /\ s'.(current) = (s.(off) + pos)%Z
               /\ s'.(off) = s.(off) /\ s'.(limit) = s.(limit)
           | Err _ => s' = s
           end)
    /\ (forall plen net,
           let '((data, err), s') := fst (Section_Read s plen net) in
           cursor_ok s'
           /\ s'.(current) = (s.(current) + Z.of_nat (length data))%Z
           /\ length data <= plen).
Proof.
  intros s (Ho & Hl). split.
  - intros offset whence. unfold Section_Seek, Section_Size.
    destruct (if (whence =? SeekStart)%Z then _ else _) as [target|];
      [|split; [split; assumption|reflexivity]].
    destruct (target <? off s)%Z eqn:E1;
      [split; [split; assumption|reflexivity]|].
    destruct (limit s <? target)%Z eqn:E2;
      [split; [split; assumption|reflexivity]|].
    apply Z.ltb_ge in E1, E2. cbn [off limit current].
    rewrite !wrap64_small by lia.
    split; [split; cbn [off limit current]; lia|]. repeat split; lia.
  - intros plen net. unfold Section_Read.
    destruct (limit s <=? current s)%Z eqn:E.
    + cbn [ret fst snd]. simpl. repeat split; try lia; assumption.
    + apply Z.leb_gt in E. unfold bind, ret.
      rewrite (wrap64_small (limit s - current s)) by lia.
      set (plen' := if (limit s - current s <? Z.of_nat plen)%Z
                    then Z.to_nat (limit s - current s) else plen).
      assert (Hp : plen' <= plen
                   /\ (Z.of_nat plen' <= limit s - current s)%Z).
      { subst plen'. destruct (_ <? _)%Z eqn:E'.
        - apply Z.ltb_lt in E'. lia.
        - apply Z.ltb_ge in E'. lia. }
      pose proof (ReadAt_footprint (r_ s) plen' (current s) net) as [Hb _].
      destruct (ReadAt (r_ s) plen' (current s) net) as [[data err] net'].
      cbn [fst snd] in *. cbn [current off limit].
      rewrite wrap64_small by lia.
      split; [split; cbn [off limit current]; lia|].
      split; [reflexivity|lia].
Qed.

Lemma Section_cursor_invariant_witness :
  cursor_ok (NewSectionReader Samples.open_reader 2 6)
  /\ fst (Section_Seek (NewSectionReader Samples.open_reader 2 6) (-1) SeekEnd)
     = Ok 5%Z.
Proof.
  assert (H : cursor_ok (NewSectionReader Samples.open_reader 2 6))
    by (vm_compute; repeat split; easy).
  split; [exact H|].
  destruct (Section_cursor_invariant _ H) as [Hseek _].
  specialize (Hseek (-1)%Z SeekEnd).
  destruct (Section_Seek (NewSectionReader Samples.open_reader 2 6) (-1)
                         SeekEnd) as [res s'] eqn:E.
  vm_compute in E. injection E as <- _. reflexivity.
Defined.

Lemma RangeRequest_sends (c : Client) (url : gostring) (start len : Z)
      (net : Net) :
  snd (RangeRequest c url start len net) = net
  \/ exists req0,
      len <> 0%Z
      /\ c.(httpClient).(NewRequestWithContext) "GET" url = Ok req0
      /\ snd (RangeRequest c url start len net)
         = net ++ [build_request c req0 start len].
Proof.
  unfold RangeRequest. destruct (len =? 0)%Z eqn:E; [now left|].
  apply Z.eqb_neq in E.
  destruct (NewRequestWithContext _ _ _) as [req|e]; [|now left].
  right. exists req. split; [exact E|]. split; [reflexivity|].
  unfold bind, send, ret.
  destruct (Do _ _) as [resp|e]; [|reflexivity].
  destruct (_ || _); [|reflexivity].
  destruct (_ && _); reflexivity.
Qed.

(** The one request that [ReadAt] may send asks for a window that starts
    at the offset, is not longer than the buffer and ends inside the
    file. *)
Lemma ReadAt_window (r : RangeReader) (plen : nat) (off : Z) (net : Net) :
  (r.(size) < 2 ^ 63)%Z -> (off + Z.of_nat plen < 2 ^ 63)%Z ->
  snd (ReadAt r plen off net) = net
  \/ exists req0 len,
      r.(client).(httpClient).(NewRequestWithContext) "GET" r.(url) = Ok req0
      /\ snd (ReadAt r plen off net)
         = net ++ [build_request r.(client) req0 off len]
      /\ (0 <= off)%Z /\ (0 < len <= Z.of_nat plen)%Z
      /\ (off + len <= r.(size))%Z.
Proof.
  intros Hsize Hsum. unfold ReadAt.
  destruct (closed r); [now left|].
  destruct (off <? 0)%Z eqn:E0; [now left|]. apply Z.ltb_ge in E0.
  destruct (size r <=? off)%Z eqn:E1; [now left|]. apply Z.leb_gt in E1.
  rewrite (wrap64_small (off + Z.of_nat plen)) by lia.
  rewrite (wrap64_small (size r - off)) by lia.
  set (len := if (size r <? off + Z.of_nat plen)%Z
              then (size r - off)%Z else Z.of_nat plen).
  assert (Hlen : (0 <= len <= Z.of_nat plen)%Z /\ (off + len <= size r)%Z).
  { subst len. destruct (size r <? off + Z.of_nat plen)%Z eqn:E2.
    - apply Z.ltb_lt in E2. lia.
    - apply Z.ltb_ge in E2. lia. }
  unfold bind.
  destruct (RangeRequest_sends (client r) (url r) off len net)
    as [H|(req0 & Hne & Hnew & H)];
    destruct (RangeRequest (client r) (url r) off len net) as [[rd|e] net'];
    cbn [snd] in H; unfold ret; cbn [snd]; subst net';
    try (now left);
    right; exists req0, len; repeat split; auto; lia.
Qed.

(** X9: [ReadAt] on a SectionReader never reads outside the section.  The
    one request it may send asks the origin for a window that starts at
    the section's start plus the offset, is not longer than the buffer,
    and ends within the section and within the file.  It returns at most
    as many bytes as the buffer holds and as the section has left after
    the offset, and reports an error ([io.EOF] if none other) whenever
    the buffer reaches past the section's end. *)
Theorem Section_ReadAt_within_section :
  forall (s : SectionReader) (plen : nat) (off_ : Z) (net : Net),
    cursor_ok s -> (- 2 ^ 63 <= off_ < 2 ^ 63)%Z ->
    (s.(r_).(size) < 2 ^ 63)%Z ->
    let '((data, err), net') := Section_ReadAt s plen off_ net in
    length data <= plen
    /\ (Z.of_nat (length data) <= Z.max 0 (Section_Size s - off_))%Z
    /\ ((Section_Size s - off_ < Z.of_nat plen)%Z -> err <> None)
    /\ (net' = net
        \/ exists req0 len,
            s.(r_).(client).(httpClient).(NewRequestWithContext)
              "GET" s.(r_).(url) = Ok req0
            /\ net' = net ++ [build_request s.(r_).(client) req0
                                            (s.(off) + off_) len]
            /\ (0 <= off_)%Z /\ (0 < len <= Z.of_nat plen)%Z
            /\ (s.(off) + off_ + len <= s.(limit))%Z
            /\ (s.(off) + off_ + len <= s.(r_).(size))%Z).
Proof.
  intros s plen off_ net (Ho & Hl) Hoff Hsize.
  unfold Section_ReadAt, Section_Size.
  rewrite (wrap64_small (limit s - off s)) by lia.
  destruct ((off_ <? 0)%Z || (limit s - off s <=? off_)%Z) eqn:E.
  - cbn [ret]. simpl length. repeat split; try lia; [discriminate|now left].
  - apply orb_false_iff in E as [E1 E2]. apply Z.ltb_ge in E1.
    apply Z.leb_gt in E2.
    rewrite (wrap64_small (off_ + off s)) by lia.
    rewrite (wrap64_small (limit s - (off_ + off s))) by lia.
    replace (off_ + off s)%Z with (off s + off_)%Z by lia.
    destruct (limit s - (off s + off_) <? Z.of_nat plen)%Z eqn:E3.
    + apply Z.ltb_lt in E3. unfold bind.
      pose proof (ReadAt_footprint (r_ s)
                    (Z.to_nat (limit s - (off s + off_))) (off s + off_) net)
        as [Hb _].
      pose proof (ReadAt_window (r_ s)
                    (Z.to_nat (limit s - (off s + off_))) (off s + off_) net
                    Hsize ltac:(lia)) as Hw.
      destruct (ReadAt (r_ s) (Z.to_nat (limit s - (off s + off_)))
                       (off s + off_) net) as [[data err] net'].
      cbn [fst snd] in *.
      assert (Hlog : net' = net
                \/ exists req0 len,
                    NewRequestWithContext (httpClient (client (r_ s)))
                      "GET" (url (r_ s)) = Ok req0
                    /\ net' = net ++ [build_request (client (r_ s)) req0
                                                    (off s + off_) len]
                    /\ (0 <= off_)%Z /\ (0 < len <= Z.of_nat plen)%Z
                    /\ (off s + off_ + len <= limit s)%Z
                    /\ (off s + off_ + len <= size (r_ s))%Z).
      { destruct Hw as [Hw|(req0 & len & Hnew & Hnet & H0 & Hlen & Hend)];
          [now left|].
        right. exists req0, len. repeat split; auto; lia. }
      destruct err as [e|]; cbn [ret];
        (split; [lia|]; split; [lia|]; split; [discriminate|exact Hlog]).
    + apply Z.ltb_ge in E3.
      pose proof (ReadAt_footprint (r_ s) plen (off s + off_) net)
        as [Hb _].
      pose proof (ReadAt_window (r_ s) plen (off s + off_) net
                    Hsize ltac:(lia)) as Hw.
      destruct (ReadAt (r_ s) plen (off s + off_) net)
        as [[data err] net'].
      cbn [fst snd] in *.
      split; [lia|]. split; [lia|]. split; [lia|].
      destruct Hw as [Hw|(req0 & len & Hnew & Hnet & H0 & Hlen & Hend)];
        [now left|].
      right. exists req0, len. repeat split; auto; lia.
Qed.

Lemma Section_ReadAt_within_section_witness :
  Section_ReadAt (NewSectionReader Samples.open_reader 2 6) 4 4 []
  = ((list_ascii_of_string "67", Some EOF),
     [build_request Samples.client
        (mkRequest "GET" "http://host/a.bin" []) 6 2]).
Proof.
  pose proof (Section_ReadAt_within_section
                (NewSectionReader Samples.open_reader 2 6) 4 4 []) as H.
  assert (Hc : cursor_ok (NewSectionReader Samples.open_reader 2 6))
    by (vm_compute; repeat split; easy).
  specialize (H Hc ltac:(lia) ltac:(simpl; lia)). reflexivity.
Defined.

(** *** The request that is sent *)

Lemma canonical_byte_valid (upper : bool) (c : ascii) :
  validHeaderFieldByte (canonical_byte upper c) = validHeaderFieldByte c.
Proof.
  destruct c as [b0 b1 b2 b3 b4 b5 b6 b7].
  destruct upper, b0, b1, b2, b3, b4, b5, b6, b7; vm_compute; reflexivity.
Qed.

Lemma canonical_byte_twice (upper : bool) (c : ascii) :
  canonical_byte upper (canonical_byte upper c) = canonical_byte upper c.
Proof.
  destruct c as [b0 b1 b2 b3 b4 b5 b6 b7].
  destruct upper, b0, b1, b2, b3, b4, b5, b6, b7; vm_compute; reflexivity.
Qed.

Lemma canonical_loop_valid (upper : bool) (a : gostring) :
  forallb validHeaderFieldByte (canonical_loop upper a)
  = forallb validHeaderFieldByte a.
Proof.
  revert upper. induction a as [|c a IH]; intros upper; [reflexivity|].
  cbn [canonical_loop forallb]. now rewrite canonical_byte_valid, IH.
Qed.

Lemma canonical_loop_twice (upper : bool) (a : gostring) :
  canonical_loop upper (canonical_loop upper a) = canonical_loop upper a.
Proof.
  revert upper. induction a as [|c a IH]; intros upper; [reflexivity|].
  cbn [canonical_loop]. now rewrite canonical_byte_twice, IH.
Qed.

Lemma CanonicalMIMEHeaderKey_twice (s : gostring) :
  CanonicalMIMEHeaderKey (CanonicalMIMEHeaderKey s) = CanonicalMIMEHeaderKey s.
Proof.
  unfold CanonicalMIMEHeaderKey.
  destruct (forallb validHeaderFieldByte s) eqn:E.
  - now rewrite canonical_loop_valid, E, canonical_loop_twice.
  - now rewrite E.
Qed.

Lemma Header_put_keys (h : list (gostring * gostring)) (k v : gostring) :
  (In k (map fst h) /\ map fst (Header_put h k v) = map fst h)
  \/ (~ In k (map fst h) /\ map fst (Header_put h k v) = map fst h ++ [k]).
Proof.
  induction h as [|[k' v'] h IH]; simpl.
  - right. split; [intros []|reflexivity].
  - destruct (streq k' k) eqn:E.
    + apply streq_eq in E. subst k'. left. simpl. auto.
    + apply streq_neq in E. simpl.
      destruct IH as [[Hin ->]|[Hn ->]].
      * left. auto.
      * right. split; [|reflexivity]. intros [H|H]; auto.
Qed.

Lemma Header_put_In (h : list (gostring * gostring)) (k v : gostring) :
  In (k, v) (Header_put h k v).
Proof.
  induction h as [|[k' v'] h IH]; simpl; [now left|].
  destruct (streq k' k); simpl; auto.
Qed.

Lemma Header_put_keeps (h : list (gostring * gostring))
      (k v k' v' : gostring) :
  k' <> k -> In (k', v') h -> In (k', v') (Header_put h k v).
Proof.
  intros Hne. induction h as [|[k1 v1] h IH]; simpl; [auto|].
  intros [H|H].
  - injection H as -> ->. apply streq_neq in Hne. rewrite Hne. now left.
  - destruct (streq k1 k); simpl; auto.
Qed.

Lemma Header_lookup_put_same (h : list (gostring * gostring))
      (k v : gostring) :
  Header_lookup (Header_put h k v) k = v.
Proof.
  induction h as [|[k' v'] h IH]; simpl.
  - now rewrite streq_refl.
  - destruct (streq k' k) eqn:E; simpl.
    + now rewrite streq_refl.
    + now rewrite E.
Qed.

Lemma Header_lookup_put_other (h : list (gostring * gostring))
      (k v key : gostring) :
  k <> key -> Header_lookup (Header_put h k v) key = Header_lookup h key.
Proof.
  intros Hne. apply streq_neq in Hne.
  induction h as [|[k' v'] h IH]; simpl.
  - now rewrite Hne.
  - destruct (streq k' k) eqn:E; simpl.
    + apply streq_eq in E. subst k'. now rewrite Hne.
    + now rewrite IH.
Qed.

Lemma one_entry_per_key (h : list (gostring * gostring))
      (k v v' : gostring) :
  NoDup (map fst h) -> In (k, v) h -> In (k, v') h -> v = v'.
Proof.
  induction h as [|[k1 v1] h IH]; simpl; [intros _ []|].
  intros Hnd. inversion Hnd as [|? ? Hnotin Hnd']; subst.
  intros [H|H] [H'|H'].
  - congruence.
  - injection H as -> ->. exfalso. apply Hnotin.
    now apply (in_map fst) in H'.
  - injection H' as -> ->. exfalso. apply Hnotin.
    now apply (in_map fst) in H.
  - now apply IH.
Qed.

Lemma well_keyed_Set (h : list (gostring * gostring)) (k v : gostring) :
  well_keyed h -> well_keyed (Header_Set h k v).
Proof.
  intros [Hnd Hcan]. unfold Header_Set, well_keyed.
  destruct (Header_put_keys h (CanonicalMIMEHeaderKey k) v)
    as [[Hin ->]|[Hn ->]]; [auto|].
  split.
  - apply NoDup_app; [exact Hnd|repeat constructor; intros []|].
    intros x Hx [<-|[]]. contradiction.
  - intros x Hx. apply in_app_or in Hx as [Hx|[<-|[]]]; [auto|].
    apply CanonicalMIMEHeaderKey_twice.
Qed.

Lemma fold_set_header (h : list (gostring * gostring)) (q : Request) :
  Method (fold_left (fun r kv => set_header r (fst kv) (snd kv)) h q)
  = Method q
  /\ URL (fold_left (fun r kv => set_header r (fst kv) (snd kv)) h q)
     = URL q
  /\ (well_keyed (Header q) ->
      well_keyed
        (Header (fold_left (fun r kv => set_header r (fst kv) (snd kv))
                           h q))).
Proof.
  revert q. induction h as [|kv h IH]; intros q; simpl; [auto|].
  destruct (IH (set_header q (fst kv) (snd kv))) as (-> & -> & Hw).
  split; [reflexivity|]. split; [reflexivity|].
  intros Hq. apply Hw. simpl. now apply well_keyed_Set.
Qed.

(** X10: whatever headers the client carries, under whatever spelling of
    their keys, the request that a range fetch sends has the [Range]
    header of the window asked for ([start] to [start+len-1] when the
    length is positive, [start] to the end otherwise), and the client's
    user agent when it has one.  Built on a request whose header map has
    one entry per key and canonical keys, as [http.NewRequest] returns it,
    the request has such a header map again, and its only entry that
    reads as [Range], or as [User-Agent], is the one set here: neither can
    be overridden by a custom header. *)
Theorem build_request_headers :
  forall (c : Client) (req0 : Request) (start len : Z),
    let hdr := (build_request c req0 start len).(Header) in
    let window :=
      if (0 <? len)%Z
      then "bytes=" ++ itoa start ++ "-"
                    ++ itoa (wrap64 (wrap64 (start + len) - 1))
      else "bytes=" ++ itoa start ++ "-" in
    (forall key,
        CanonicalMIMEHeaderKey key = list_ascii_of_string "Range" ->
        Header_Get hdr key = window)
    /\ (c.(userAgent) <> [] ->
        forall key,
          CanonicalMIMEHeaderKey key = list_ascii_of_string "User-Agent" ->
          Header_Get hdr key = c.(userAgent))
    /\ (build_request c req0 start len).(Method) = req0.(Method)
    /\ (build_request c req0 start len).(URL) = req0.(URL)
    /\ (well_keyed req0.(Header) ->
        well_keyed hdr
        /\ (forall k v,
               In (k, v) hdr ->
               CanonicalMIMEHeaderKey k = list_ascii_of_string "Range" ->
               k = list_ascii_of_string "Range" /\ v = window)
        /\ (c.(userAgent) <> [] ->
            forall k v,
              In (k, v) hdr ->
              CanonicalMIMEHeaderKey k
              = list_ascii_of_string "User-Agent" ->
              k = list_ascii_of_string "User-Agent"
              /\ v = c.(userAgent))).
Proof.
  intros c req0 start len hdr window.
  set (req1 := fold_left (fun r kv => set_header r (fst kv) (snd kv))
                         (headers c) req0).
  destruct (fold_set_header (headers c) req0) as (Hm1 & Hu1 & Hw1).
  fold req1 in Hm1, Hu1, Hw1.
  set (req2 := if negb (streq (userAgent c) [])
               then set_header req1 "User-Agent" (userAgent c) else req1).
  assert (Hreq : build_request c req0 start len
                 = set_header req2 "Range" window).
  { unfold build_request. fold req1. fold req2. subst window.
    now destruct (0 <? len)%Z. }
  assert (Hhdr : hdr = Header_put (Header req2) "Range" window).
  { subst hdr. rewrite Hreq. reflexivity. }
  assert (H2 : Method req2 = Method req0 /\ URL req2 = URL req0
               /\ (well_keyed (Header req1) -> well_keyed (Header req2))
               /\ (userAgent c <> [] ->
                   Header req2
                   = Header_put (Header req1) "User-Agent" (userAgent c))).
  { unfold req2. destruct (streq (userAgent c) []) eqn:E; cbn [negb].
    - apply streq_eq in E. split; [|split; [|split]]; auto.
      intros Hne. now elim Hne.
    - split; [|split; [|split]]; auto. intros Hw. simpl.
      now apply well_keyed_Set. }
  destruct H2 as (Hm2 & Hu2 & Hw2 & Hua).
  split; [|split; [|split; [|split]]].
  - intros key Hk. unfold Header_Get. rewrite Hk, Hhdr.
    apply Header_lookup_put_same.
  - intros Hne key Hk. unfold Header_Get. rewrite Hk, Hhdr.
    rewrite Header_lookup_put_other by discriminate.
    rewrite (Hua Hne). apply Header_lookup_put_same.
  - rewrite Hreq. exact Hm2.
  - rewrite Hreq. exact Hu2.
  - intros Hw0.
    assert (Hw : well_keyed hdr).
    { subst hdr. rewrite Hreq. simpl. apply well_keyed_Set. auto. }
    split; [exact Hw|]. destruct Hw as [Hnd Hcan]. split.
    + intros k v Hin Hk.
      assert (Hkey : k = list_ascii_of_string "Range").
      { rewrite <- Hk. symmetry. apply Hcan.
        now apply (in_map fst) in Hin. }
      split; [exact Hkey|]. subst k.
      apply (one_entry_per_key hdr "Range"); [exact Hnd|exact Hin|].
      rewrite Hhdr. apply Header_put_In.
    + intros Hne k v Hin Hk.
      assert (Hkey : k = list_ascii_of_string "User-Agent").
      { rewrite <- Hk. symmetry. apply Hcan.
        now apply (in_map fst) in Hin. }
      split; [exact Hkey|]. subst k.
      apply (one_entry_per_key hdr "User-Agent"); [exact Hnd|exact Hin|].
      rewrite Hhdr. apply Header_put_keeps; [discriminate|].
      rewrite (Hua Hne). apply Header_put_In.
Qed.

Lemma build_request_headers_witness :
  (build_request
     (mkClient Samples.deaf_origin
        [(list_ascii_of_string "range", list_ascii_of_string "bytes=0-0");
         (list_ascii_of_string "user-agent", list_ascii_of_string "curl");
         (list_ascii_of_string "x-trace", list_ascii_of_string "on")]
        "Stream-7z/1.0" 30)
     (mkRequest "GET" "http://host/a.bin" []) 4 3).(Header)
  = [(list_ascii_of_string "Range", list_ascii_of_string "bytes=4-6");
     (list_ascii_of_string "User-Agent",
      list_ascii_of_string "Stream-7z/1.0");
     (list_ascii_of_string "X-Trace", list_ascii_of_string "on")]
  /\ forall k v,
      In (k, v)
         (build_request
            (mkClient Samples.deaf_origin
               [(list_ascii_of_string "range",
                 list_ascii_of_string "bytes=0-0");
                (list_ascii_of_string "user-agent",
                 list_ascii_of_string "curl");
                (list_ascii_of_string "x-trace", list_ascii_of_string "on")]
               "Stream-7z/1.0" 30)
            (mkRequest "GET" "http://host/a.bin" []) 4 3).(Header) ->
      CanonicalMIMEHeaderKey k = list_ascii_of_string "Range" ->
      k = list_ascii_of_string "Range"
      /\ v = list_ascii_of_string "bytes=4-6".
Proof.
  split; [reflexivity|].
  refine (proj1 (proj2 (proj2 (proj2 (proj2 (proj2
            (build_request_headers
               (mkClient Samples.deaf_origin
                  [(list_ascii_of_string "range",
                    list_ascii_of_string "bytes=0-0");
                   (list_ascii_of_string "user-agent",
                    list_ascii_of_string "curl");
                   (list_ascii_of_string "x-trace",
                    list_ascii_of_string "on")]
                  "Stream-7z/1.0" 30)
               (mkRequest "GET" "http://host/a.bin" []) 4 3)))) _))).
  split; [constructor|intros k []].
Defined.

(** X11: how a range fetch answers the status of the response, once the
    request has been sent: any status other than 200 and 206 fails the
    read with the unexpected-status error; on 206, and on 200 when the
    fetch starts at 0, the body is handed over as it is, so that a reader
    obtained for a bounded length yields the whole body however long. *)
Theorem RangeRequest_by_status :
  forall (c : Client) (url : gostring) (start len : Z) (req0 : Request)
         (resp : Response) (net : Net) (k : nat),
    len <> 0%Z ->
    c.(httpClient).(NewRequestWithContext) "GET" url = Ok req0 ->
    c.(httpClient).(Do) (build_request c req0 start len) = Ok resp ->
    (resp.(StatusCode) <> StatusOK ->
     resp.(StatusCode) <> StatusPartialContent ->
     RangeRequest c url start len net
     = (Err (ErrorsNew ("unexpected status code: " ++ itoa resp.(StatusCode))),
        net ++ [build_request c req0 start len]))
    /\ (resp.(StatusCode) = StatusPartialContent
        \/ (resp.(StatusCode) = StatusOK /\ (start <= 0)%Z) ->
        RangeRequest c url start len net
        = (Ok (Plain resp.(Body_)), net ++ [build_request c req0 start len])
        /\ forall fuel,
            length resp.(Body_).(pending) < fuel ->
            ReadAll fuel (S k) (Plain resp.(Body_))
            = Some (resp.(Body_).(pending), None)).
Proof.
  intros c url start len req0 resp net k Hlen Hnew Hdo.
  apply Z.eqb_neq in Hlen. unfold RangeRequest.
  rewrite Hlen, Hnew. unfold bind, send, ret. rewrite Hdo. split.
  - intros H1 H2. apply Z.eqb_neq in H1, H2. now rewrite H1, H2.
  - intros H. split.
    + destruct H as [->|[-> Hs]]; [reflexivity|].
      cbn [StatusPartialContent StatusOK Z.eqb Pos.eqb orb andb].
      replace (0 <? start)%Z with false by (symmetry; apply Z.ltb_ge; lia).
      reflexivity.
    + intros fuel Hf.
      apply (ReadAll_stream fuel (Plain (Body_ resp)) k); [exact I|exact Hf].
Qed.

Lemma RangeRequest_by_status_witness :
  exists rd,
    fst (RangeRequest Samples.client "http://host/a.bin" 0 3 []) = Ok rd
    /\ ReadAll 11 5 rd = Some (Samples.whole_file, None).
Proof.
  destruct (RangeRequest_by_status Samples.client "http://host/a.bin" 0 3
              (mkRequest "GET" "http://host/a.bin" [])
              (mkResponse 200 10 (mkBody Samples.whole_file 3)) [] 4)
    as (_ & H); [discriminate|reflexivity|reflexivity|].
  destruct H as [E Hall]; [right; split; [reflexivity|lia]|].
  eexists. split; [now rewrite E|]. apply Hall. simpl. lia.
Defined.

End RangeMore.

(* ================================================================== *)
(** ** Further properties of the format handlers                        *)
(* ================================================================== *)

Module FormatMore.
Import Strings Go Formats Props StringsFacts.

(** X12: whenever [GetInfo] of any handler returns an info record, with or
    without an error beside it, its totals agree with its entries:
    [TotalFiles] is the number of entries that are not directories and
    [TotalSize] the sum of their sizes, in 64-bit arithmetic. *)
Theorem GetInfo_totals :
  forall (codec : chardet.Codec) (h : Handler) (reader : ReaderAt)
         (size : Z) (password : gostring) (info : ArchiveInfo)
         (err : option error),
    GetInfo codec h reader size password = (Some info, err) ->
    totals_ok info.
Proof.
  intros codec h reader size password info err.
  apply InfoProps.GetInfo_inv.
  - apply InfoProps.totals_ok_add.
  - intros b i H. exact H.
  - intros b i H. exact H.
  - intros comment. split; reflexivity.
  - split; reflexivity.
Qed.

Lemma GetInfo_totals_witness :
  exists info,
    GetInfo Samples.raw_codec Zip Samples.encrypted_zip 512 [] 
    = (Some info, Some ErrPasswordRequired)
    /\ info.(TotalFiles) = 1%Z /\ info.(TotalSize) = 12%Z.
Proof.
  eexists. split; [reflexivity|].
  exact (GetInfo_totals Samples.raw_codec Zip Samples.encrypted_zip 512 []
           _ _ eq_refl).
Defined.

(** *** A successful [GetInfo] *)

Lemma zip_loop_success codec files password verified info info' :
  (info.(RequiresPassword) = true ->
   info.(IsEncrypted) = true /\ password = []) ->
  ZipFormat.GetInfo_loop codec files password verified info
  = (Some info', None) ->
  info'.(RequiresPassword) = false
  /\ (info'.(IsEncrypted) = true -> password <> []).
Proof.
  revert verified info.
  induction files as [|file rest IH]; intros verified info Hi; simpl.
  - destruct (IsEncrypted info && streq password []) eqn:Hc; [discriminate|].
    intros H; injection H as <-.
    apply andb_false_iff in Hc.
    split.
    + destruct (RequiresPassword info) eqn:Hr; [|reflexivity].
      destruct (Hi eq_refl) as [He ->]. rewrite He in Hc.
      destruct Hc; discriminate.
    + intros He ->. rewrite He in Hc. destruct Hc; discriminate.
  - destruct (zip.IsEncrypted file); [|apply IH; exact Hi].
    destruct (negb verified && negb (streq password [])).
    + destruct (zip.Open file (Some password)) as [e|].
      * destruct (Contains _ _); discriminate.
      * apply IH. simpl. intros Hr. destruct (Hi Hr) as [_ Hp]. auto.
    + destruct (streq password []) eqn:Hp; apply IH; simpl.
      * intros _. apply streq_eq in Hp. auto.
      * intros Hr. destruct (Hi Hr) as [_ Hp']. auto.
Qed.

Lemma rar_loop_success headers stop password info info' :
  info.(RequiresPassword) = false -> info.(IsEncrypted) = false ->
  RarFormat.GetInfo_loop headers stop password info = (Some info', None) ->
  info'.(RequiresPassword) = false /\ info'.(IsEncrypted) = false.
Proof.
  revert info.
  induction headers as [|header rest IH]; intros info Hr He; simpl.
  - destruct stop as [|t].
    + rewrite He. simpl. intros H; injection H as <-. auto.
    + destruct (password_error _); [|discriminate].
      destruct (negb _); discriminate.
  - apply IH; assumption.
Qed.

Lemma sevenzip_loop_success files password info :
  (info.(RequiresPassword) = true -> info.(IsEncrypted) = true) ->
  (info.(IsEncrypted) = true -> password = []) ->
  let info' := SevenZipFormat.GetInfo_loop files password info in
  (info'.(RequiresPassword) = true -> info'.(IsEncrypted) = true)
  /\ (info'.(IsEncrypted) = true -> password = []).
Proof.
  revert info. induction files as [|file rest IH]; intros info Hr He; simpl.
  - auto.
  - unfold SevenZipFormat.entry_encrypted.
    destruct (streq password []) eqn:Hp.
    + apply streq_eq in Hp.
      destruct (sevenzip.Open file) as [e|]; [|apply IH; auto].
      destruct (password_error (of_lib e)); [simpl; auto|apply IH; auto].
    + apply IH; auto.
Qed.

Lemma handler_success_flags :
  forall (codec : chardet.Codec) (h : Handler) (reader : ReaderAt)
         (size : Z) (password : gostring) (info : ArchiveInfo),
    GetInfo codec h reader size password = (Some info, None) ->
    info.(RequiresPassword) = false
    /\ (info.(IsEncrypted) = true -> h = Zip /\ password <> []).
Proof.
  intros codec h reader size password info. destruct h; simpl.
  - unfold ZipFormat.GetInfo.
    destruct (zip_NewReader reader) as [zr|e]; [|discriminate].
    intros H. apply zip_loop_success in H; [|discriminate].
    destruct H as [Hr He]. auto.
  - unfold RarFormat.GetInfo.
    destruct (RarFormat.open reader password) as [rr|e]; [|discriminate].
    intros H. apply rar_loop_success in H; [|reflexivity|reflexivity].
    destruct H as [Hr He]. split; [exact Hr|]. congruence.
  - unfold SevenZipFormat.GetInfo.
    destruct (SevenZipFormat.open reader password) as [sr|e].
    + pose proof (sevenzip_loop_success (sevenzip.File_ sr) password
                    (mkArchiveInfo false false 0 0 [] [])) as Hl.
      simpl in Hl. destruct Hl as [Hr He]; [discriminate|discriminate|].
      destruct (_ && _) eqn:Hc; [discriminate|].
      intros H; injection H as <-.
      assert (Hne : IsEncrypted
                      (SevenZipFormat.GetInfo_loop (sevenzip.File_ sr)
                         password (mkArchiveInfo false false 0 0 [] []))
                    = false).
      { destruct (IsEncrypted _) eqn:E; [|reflexivity].
        rewrite (He eq_refl) in Hc. discriminate. }
      split; [|congruence].
      destruct (RequiresPassword _) eqn:E; [|reflexivity].
      rewrite (Hr eq_refl) in Hne. discriminate.
    + destruct (password_error _); [|discriminate].
      destruct (negb _); discriminate.
  - intros H. apply InfoProps.tar_info_flags in H as [He Hr].
    split; [exact Hr|congruence].
Qed.

(** X13: an info record that [GetInfo] returns without an error never
    asks for a password, whatever the handler: [RequiresPassword] is
    false.  Its [IsEncrypted] can be set only by the ZIP handler, and then
    a password was given. *)
Theorem GetInfo_success_flags :
  forall (codec : chardet.Codec) (h : Handler) (reader : ReaderAt)
         (size : Z) (password : gostring) (info : ArchiveInfo),
    GetInfo codec h reader size password = (Some info, None) ->
    info.(RequiresPassword) = false
    /\ (info.(IsEncrypted) = true -> h = Zip /\ password <> []).
Proof. exact handler_success_flags. Qed.

Lemma GetInfo_success_flags_witness :
  exists info,
    GetInfo Samples.raw_codec Zip Samples.encrypted_zip 512 "hunter2"
    = (Some info, None)
    /\ info.(RequiresPassword) = false /\ info.(IsEncrypted) = true.
Proof.
  eexists. split; [reflexivity|].
  split; [|reflexivity].
  apply (GetInfo_success_flags Samples.raw_codec Zip Samples.encrypted_zip
           512 "hunter2" _ eq_refl).
Defined.

(** *** Listing and info of the forward-only handlers *)

Lemma tar_info_loop_eof headers info :
  exists info',
    TarFormat.GetInfo_loop headers io_EOF info = (Some info', None)
    /\ info'.(Files) = info.(Files) ++ map TarFormat.entry_of headers.
Proof.
  revert info. induction headers as [|header rest IH]; intros info; simpl.
  - exists info. now rewrite app_nil_r.
  - destruct (IH (add_entry (TarFormat.entry_of header) info))
      as (info' & E & HF).
    exists info'. split; [exact E|]. rewrite HF. simpl.
    now rewrite <- app_assoc.
Qed.

Lemma tar_info_loop_stop headers t info :
  fst (TarFormat.GetInfo_loop headers (lib_error t) info) = None.
Proof.
  revert info. induction headers as [|header rest IH]; intros info; simpl;
    auto.
Qed.

Lemma tar_list_loop_eof headers ip acc :
  TarFormat.ListFiles_loop headers io_EOF ip acc
  = Ok (acc ++ filter (fun e => negb (skip_entry ip
                                        (Utils.NormalizePath e.(Path))))
                      (map TarFormat.entry_of headers)).
Proof.
  revert acc. induction headers as [|header rest IH]; intros acc; simpl.
  - now rewrite app_nil_r.
  - destruct (skip_entry ip _); simpl; rewrite IH; [reflexivity|].
    now rewrite <- app_assoc.
Qed.

Lemma tar_list_loop_stop headers t ip acc files :
  TarFormat.ListFiles_loop headers (lib_error t) ip acc <> Ok files.
Proof.
  revert acc. induction headers as [|header rest IH]; intros acc; simpl.
  - discriminate.
  - destruct (skip_entry ip _); apply IH.
Qed.

Lemma rar_info_loop_eof headers password info :
  info.(IsEncrypted) = false ->
  exists info',
    RarFormat.GetInfo_loop headers io_EOF password info = (Some info', None)
    /\ info'.(Files) = info.(Files) ++ map RarFormat.entry_of headers.
Proof.
  revert info. induction headers as [|header rest IH]; intros info He; simpl.
  - exists info. rewrite He, app_nil_r. auto.
  - destruct (IH (add_entry (RarFormat.entry_of header) info) He)
      as (info' & E & HF).
    exists info'. split; [exact E|]. rewrite HF. simpl.
    now rewrite <- app_assoc.
Qed.

Lemma rar_info_loop_stop headers t password info info' :
  RarFormat.GetInfo_loop headers (lib_error t) password info
  <> (Some info', None).
Proof.
  revert info. induction headers as [|header rest IH]; intros info; simpl.
  - destruct (password_error _); [|discriminate].
    destruct (negb _); discriminate.
  - apply IH.
Qed.

Lemma rar_list_loop_eof headers ip password acc :
  RarFormat.ListFiles_loop headers io_EOF ip password acc
  = Ok (acc ++ filter (fun e => negb (skip_entry ip
                                        (Utils.NormalizePath e.(Path))))
                      (map RarFormat.entry_of headers)).
Proof.
  revert acc. induction headers as [|header rest IH]; intros acc; simpl.
  - now rewrite app_nil_r.
  - destruct (skip_entry ip _); simpl; rewrite IH; [reflexivity|].
    now rewrite <- app_assoc.
Qed.

Lemma rar_list_loop_stop headers t ip password acc files :
  RarFormat.ListFiles_loop headers (lib_error t) ip password acc <> Ok files.
Proof.
  revert acc. induction headers as [|header rest IH]; intros acc; simpl.
  - discriminate.
  - destruct (skip_entry ip _); apply IH.
Qed.

(** X14: for the TAR and the RAR handler, listing a directory is getting
    the info and keeping the entries the directory filter lets through:
    [ListFiles] succeeds exactly when [GetInfo], called with the same
    password, returns an info record and no error, and its result is then
    the entries of that record, in their order, that are listed under
    [innerPath]. *)
Theorem ListFiles_filters_info :
  forall (reader : ReaderAt) (size : Z) (innerPath password : gostring)
         (files : list FileEntry),
    (TarFormat.ListFiles reader size innerPath password = Ok files
     <-> exists info,
          TarFormat.GetInfo reader size password = (Some info, None)
          /\ files = filter (listed innerPath) info.(Files))
    /\ (RarFormat.ListFiles reader size innerPath password = Ok files
        <-> exists info,
             RarFormat.GetInfo reader size password = (Some info, None)
             /\ files = filter (listed innerPath) info.(Files)).
Proof.
  intros reader size innerPath password files. split.
  - unfold TarFormat.ListFiles, TarFormat.GetInfo.
    destruct (negb (streq password []));
      [split; [discriminate|intros (i & H & _); discriminate]|].
    destruct (TarFormat.detectCompression reader) as [c|e];
      [|split; [discriminate|intros (i & H & _); discriminate]].
    destruct (TarFormat.wrapReader reader c) as [[headers stop]|e];
      [|split; [discriminate|intros (i & H & _); discriminate]].
    cbn [items Go.stop]. destruct stop as [|t].
    + rewrite tar_list_loop_eof.
      destruct (tar_info_loop_eof headers
                  (mkArchiveInfo false false 0 0 [] [])) as (info & E & HF).
      rewrite E. simpl in HF. split.
      * intros H. injection H as <-. exists info. now rewrite HF.
      * intros (i & H & ->). injection H as <-. now rewrite HF.
    + split.
      * intros H. now apply tar_list_loop_stop in H.
      * intros (i & H & _).
        pose proof (tar_info_loop_stop headers t
                      (mkArchiveInfo false false 0 0 [] [])) as Hn.
        rewrite H in Hn. discriminate.
  - unfold RarFormat.ListFiles, RarFormat.GetInfo.
    destruct (RarFormat.open reader password) as [[headers stop]|e];
      [|split; [discriminate|intros (i & H & _); discriminate]].
    cbn [items Go.stop]. destruct stop as [|t].
    + rewrite rar_list_loop_eof.
      destruct (rar_info_loop_eof headers password
                  (mkArchiveInfo false false 0 0 [] []) eq_refl)
        as (info & E & HF).
      rewrite E. simpl in HF. split.
      * intros H. injection H as <-. exists info. now rewrite HF.
      * intros (i & H & ->). injection H as <-. now rewrite HF.
    + split.
      * intros H. now apply rar_list_loop_stop in H.
      * intros (i & H & _). now apply rar_info_loop_stop in H.
Qed.

(** X15: what the directory filter of the TAR, RAR and 7z handlers lets
    through.  The prefix it compares with is never the single slash, so
    that the branch for the root directory is never taken.  When
    [innerPath] normalizes to the empty string every entry is listed;
    otherwise an entry is listed exactly when its normalized name is the
    normalized [innerPath], a slash, and one more path element. *)
Theorem listed_direct_children :
  forall (innerPath : gostring) (e : FileEntry),
    inner_prefix innerPath <> list_ascii_of_string "/"
    /\ (Utils.NormalizePath innerPath = [] -> listed innerPath e = true)
    /\ (Utils.NormalizePath innerPath <> [] ->
        (listed innerPath e = true
         <-> exists child,
              child <> [] /\ ~ In "/"%char child
              /\ Utils.NormalizePath e.(Path)
                 = Utils.NormalizePath innerPath ++ "/" ++ child)).
Proof.
  intros innerPath e. unfold listed, inner_prefix.
  set (N := Utils.NormalizePath innerPath).
  set (nn := Utils.NormalizePath (Path e)).
  destruct (streq N []) eqn:HN; cbn [negb].
  - apply streq_eq in HN. rewrite HN.
    split; [discriminate|]. split; [reflexivity|congruence].
  - apply streq_neq in HN.
    assert (Hroot : N ++ list_ascii_of_string "/"
                    <> list_ascii_of_string "/").
    { destruct N as [|c N']; [congruence|].
      destruct N'; discriminate. }
    split; [exact Hroot|]. split; [congruence|]. intros _.
    unfold skip_entry.
    assert (H1 : streq (N ++ list_ascii_of_string "/") [] = false).
    { apply streq_neq. destruct N; discriminate. }
    rewrite H1. cbn [negb]. apply streq_neq in Hroot. rewrite Hroot.
    rewrite negb_true_iff.
    destruct (HasPrefix nn (N ++ list_ascii_of_string "/")) eqn:HP;
      cbn [negb].
    + apply HasPrefix_iff in HP as [rel Hrel].
      rewrite Hrel, TrimPrefix_app.
      assert (Hsuf : HasSuffix rel "/" = false).
      { destruct (HasSuffix rel "/") eqn:E; [|reflexivity].
        apply PathFacts.HasSuffix_iff in E as [t ->].
        pose proof (PathFacts.NormalizePath_no_trailing_slash (Path e))
          as Hn.
        fold nn in Hn. rewrite Hrel in Hn.
        assert (HasSuffix
                  ((N ++ list_ascii_of_string "/")
                     ++ t ++ list_ascii_of_string "/") "/" = true)
          by (apply PathFacts.HasSuffix_iff;
              exists ((N ++ list_ascii_of_string "/") ++ t);
              now rewrite <- !app_assoc).
        congruence. }
      unfold TrimSuffix. rewrite Hsuf.
      assert (Hne : rel <> []).
      { intros ->. rewrite app_nil_r in Hrel.
        pose proof (PathFacts.NormalizePath_no_trailing_slash (Path e))
          as Hn.
        fold nn in Hn. rewrite Hrel in Hn.
        assert (HasSuffix (N ++ list_ascii_of_string "/") "/" = true)
          by (apply PathFacts.HasSuffix_iff; now exists N).
        congruence. }
      split.
      * intros Hc. exists rel. split; [exact Hne|]. split.
        -- intros Hin. apply Contains_slash_In in Hin. congruence.
        -- now rewrite <- app_assoc.
      * intros (child & _ & Hns & Hchild).
        rewrite <- app_assoc in Hchild.
        apply app_inv_head in Hchild.
        apply app_inv_head in Hchild. subst child.
        destruct (Contains rel "/") eqn:E; [|reflexivity].
        apply Contains_slash_In in E. contradiction.
    + split; [discriminate|].
      intros (child & _ & _ & Hchild).
      assert (HasPrefix nn (N ++ list_ascii_of_string "/") = true)
        by (apply HasPrefix_iff; exists child; rewrite Hchild;
            now rewrite <- !app_assoc).
      congruence.
Qed.

Lemma listed_direct_children_witness :
  listed "docs/./"
         (mkFileEntry "docs/a.txt" 5 0 1700000000 false) = true.
Proof.
  destruct (listed_direct_children
              "docs/./" (mkFileEntry "docs/a.txt" 5 0 1700000000 false))
    as (_ & _ & H).
  apply H; [discriminate|].
  exists (list_ascii_of_string "a.txt"). split; [discriminate|].
  split; [|reflexivity].
  simpl. intros [H'|[H'|[H'|[H'|[H'|[]]]]]]; discriminate.
Defined.

(** *** ZIP: passwords *)

Lemma zip_list_loop_no_password codec zfiles listAll isRoot ip acc :
  ZipFormat.ListFiles_loop codec zfiles listAll isRoot ip [] false acc
  = Err ErrPasswordRequired
  \/ exists files,
      (forall password verified acc',
          ZipFormat.ListFiles_loop codec zfiles listAll isRoot ip password
                                   verified acc'
          = Ok (acc' ++ files))
      /\ forall e, In e files ->
                   exists file, In file zfiles
                                /\ file.(zip.IsEncrypted) = false
                                /\ e = ZipFormat.entry_of codec file.
Proof.
  revert acc. induction zfiles as [|file rest IH]; intros acc.
  - right. exists []. split; [|intros e []].
    intros. simpl. now rewrite app_nil_r.
  - cbn [ZipFormat.ListFiles_loop].
    destruct (ZipFormat.skip_entry_zip listAll isRoot ip _) eqn:Hs.
    + destruct (IH acc) as [E|(files & Hall & Hin)]; [now left|].
      right. exists files. split.
      * intros. apply Hall.
      * intros e He. destruct (Hin e He) as (f & Hf & Hrest).
        exists f. split; [now right|exact Hrest].
    + destruct (zip.IsEncrypted file) eqn:Hf; cbn [negb]; [now left|].
      destruct (IH (acc ++ [ZipFormat.entry_of codec file]))
        as [E|(files & Hall & Hin)]; [now left|].
      right. exists (ZipFormat.entry_of codec file :: files). split.
      * intros. rewrite Hall. now rewrite <- app_assoc.
      * intros e [<-|He].
        -- exists file. split; [now left|auto].
        -- destruct (Hin e He) as (f & Hf' & Hrest).
           exists f. split; [now right|exact Hrest].
Qed.

(** X16: listing a ZIP archive without a password, once the archive is
    open, either fails with the password-required error or succeeds with
    entries of members that are not encrypted; when it succeeds, the same
    listing is returned under every password, none of which is tried. *)
Theorem zip_list_without_password :
  forall (codec : chardet.Codec) (reader : ReaderAt) (size : Z)
         (innerPath : gostring) (zr : zip.Reader),
    reader.(zip_NewReader) = Ok zr ->
    ZipFormat.ListFiles codec reader size innerPath []
    = Err ErrPasswordRequired
    \/ exists files,
        (forall password,
            ZipFormat.ListFiles codec reader size innerPath password
            = Ok files)
        /\ forall e, In e files ->
                     exists file, In file zr.(zip.File_)
                                  /\ file.(zip.IsEncrypted) = false
                                  /\ e = ZipFormat.entry_of codec file.
Proof.
  intros codec reader size innerPath zr Hz. unfold ZipFormat.ListFiles.
  rewrite Hz.
  match goal with
  | |- ZipFormat.ListFiles_loop _ _ ?la ?ir ?ip _ _ _ = _ \/ _ =>
      destruct (zip_list_loop_no_password codec (zip.File_ zr) la ir ip [])
        as [E|(files & Hall & Hin)]
  end.
  - now left.
  - right. exists files. split; [|exact Hin].
    intros password. now rewrite Hall.
Qed.

Lemma zip_list_without_password_witness :
  Samples.encrypted_zip.(zip_NewReader)
  = Ok (zip.mkReader [Samples.secret_txt] [])
  /\ (ZipFormat.ListFiles Samples.raw_codec Samples.encrypted_zip 512 "docs"
                          []
      = Err ErrPasswordRequired
      \/ exists files,
          (forall password,
              ZipFormat.ListFiles Samples.raw_codec Samples.encrypted_zip 512
                                  "docs" password
              = Ok files)
          /\ forall e, In e files ->
                       exists file,
                         In file [Samples.secret_txt]
                         /\ file.(zip.IsEncrypted) = false
                         /\ e = ZipFormat.entry_of Samples.raw_codec file).
Proof.
  split; [reflexivity|].
  apply (zip_list_without_password Samples.raw_codec Samples.encrypted_zip
           512 "docs" (zip.mkReader [Samples.secret_txt] [])).
  reflexivity.
Defined.

Lemma zip_info_loop_prefix codec pre rest password verified info :
  none_encrypted pre ->
  ZipFormat.GetInfo_loop codec (pre ++ rest) password verified info
  = ZipFormat.GetInfo_loop codec rest password verified
      (fold_left (fun i f => add_entry (ZipFormat.entry_of codec f) i)
                 pre info).
Proof.
  revert info. induction pre as [|file pre IH]; intros info Hn; [reflexivity|].
  apply ListProps.none_encrypted_cons in Hn as [Hf Hn].
  cbn [app ZipFormat.GetInfo_loop fold_left]. rewrite Hf. now apply IH.
Qed.

Lemma fold_add_entry {A} (f : A -> FileEntry) (l : list A) info :
  let info' := fold_left (fun i x => add_entry (f x) i) l info in
  info'.(Files) = info.(Files) ++ map f l
  /\ info'.(IsEncrypted) = info.(IsEncrypted)
  /\ info'.(RequiresPassword) = info.(RequiresPassword).
Proof.
  revert info. induction l as [|x l IH]; intros info; simpl.
  - now rewrite app_nil_r.
  - destruct (IH (add_entry (f x) info)) as (HF & HE & HR).
    rewrite HF, HE, HR. simpl. now rewrite <- app_assoc.
Qed.

Lemma zip_info_loop_verified codec files password info :
  password <> [] ->
  exists info',
    ZipFormat.GetInfo_loop codec files password true info
    = (Some info', None)
    /\ info'.(Files) = info.(Files) ++ map (ZipFormat.entry_of codec) files
    /\ info'.(RequiresPassword) = info.(RequiresPassword)
    /\ (info.(IsEncrypted) = true -> info'.(IsEncrypted) = true).
Proof.
  intros Hp. apply streq_neq in Hp.
  revert info. induction files as [|file rest IH]; intros info;
    cbn [ZipFormat.GetInfo_loop].
  - rewrite Hp, andb_false_r. exists info. now rewrite app_nil_r.
  - cbn [negb andb]. rewrite Hp.
    destruct (zip.IsEncrypted file).
    + destruct (IH (add_entry (ZipFormat.entry_of codec file)
                              (set_IsEncrypted true info)))
        as (info' & E & HF & HR & HE).
      exists info'. split; [exact E|]. rewrite HF, HR. simpl.
      rewrite <- app_assoc. auto.
    + destruct (IH (add_entry (ZipFormat.entry_of codec file) info))
        as (info' & E & HF & HR & HE).
      exists info'. split; [exact E|]. rewrite HF, HR. simpl.
      rewrite <- app_assoc. auto.
Qed.

(** X17: the ZIP handler tries a password on the first encrypted member
    only.  If that member rejects it with a password error, [GetInfo]
    returns the incorrect-password error beside an info record that holds
    the entries before that member and both flags set; if the member
    opens, [GetInfo] succeeds with the entries of all members, whatever
    the later members would make of the password. *)
Theorem zip_password_tried_once :
  forall (codec : chardet.Codec) (reader : ReaderAt) (size : Z)
         (password : gostring) (comment : gostring)
         (pre post : list zip.File) (file : zip.File),
    password <> [] ->
    reader.(zip_NewReader) = Ok (zip.mkReader (pre ++ file :: post) comment) ->
    none_encrypted pre -> file.(zip.IsEncrypted) = true ->
    exists info,
      info.(IsEncrypted) = true
      /\ match file.(zip.Open) (Some password) with
         | None =>
             ZipFormat.GetInfo codec reader size password = (Some info, None)
             /\ info.(Files)
                = map (ZipFormat.entry_of codec) (pre ++ file :: post)
             /\ info.(RequiresPassword) = false
         | Some err =>
             Contains (Error (of_lib err)) "password" = true ->
             ZipFormat.GetInfo codec reader size password
             = (Some info, Some ErrPasswordIncorrect)
             /\ info.(Files) = map (ZipFormat.entry_of codec) pre
             /\ info.(RequiresPassword) = true
         end.
Proof.
  intros codec reader size password comment pre post file Hp Hz Hn Hf.
  unfold ZipFormat.GetInfo. rewrite Hz. cbn [zip.File_ zip.Comment].
  rewrite zip_info_loop_prefix by exact Hn.
  set (info0 := fold_left _ pre _).
  destruct (fold_add_entry (ZipFormat.entry_of codec) pre
              (mkArchiveInfo false false 0 0 [] comment))
    as (HF & HE & HR).
  fold info0 in HF, HE, HR. cbn [Files IsEncrypted RequiresPassword app] in *.
  cbn [ZipFormat.GetInfo_loop]. rewrite Hf. cbn [negb andb].
  pose proof Hp as Hp'. apply streq_neq in Hp'. rewrite Hp'. cbn [negb].
  destruct (zip.Open file (Some password)) as [err|].
  - exists (set_RequiresPassword true (set_IsEncrypted true info0)).
    split; [reflexivity|]. intros Hc. rewrite Hc. auto.
  - destruct (zip_info_loop_verified codec post password
                (add_entry (ZipFormat.entry_of codec file)
                           (set_IsEncrypted true info0)) Hp)
      as (info' & E & HF' & HR' & HE').
    exists info'. split; [now apply HE'|]. split; [exact E|].
    rewrite HF', HR'. cbn [Files RequiresPassword add_entry set_IsEncrypted].
    rewrite HF, HR, map_app. simpl. now rewrite <- app_assoc.
Qed.

Lemma zip_password_tried_once_witness :
  exists info,
    ZipFormat.GetInfo Samples.raw_codec Samples.encrypted_zip 512 "letmein"
    = (Some info, Some ErrPasswordIncorrect)
    /\ info.(Files) = [] /\ info.(RequiresPassword) = true.
Proof.
  destruct (zip_password_tried_once Samples.raw_codec Samples.encrypted_zip
              512 "letmein" [] [] [] Samples.secret_txt)
    as (info & _ & H).
  - discriminate.
  - reflexivity.
  - intros f [].
  - reflexivity.
  - exists info. apply H. reflexivity.
Defined.

(** *** 7z: where [GetInfo] stops *)

Lemma sevenzip_info_loop_prefix pre rest password info :
  (forall file, In file pre ->
                SevenZipFormat.entry_encrypted file password = false) ->
  SevenZipFormat.GetInfo_loop (pre ++ rest) password info
  = SevenZipFormat.GetInfo_loop rest password
      (fold_left (fun i f => add_entry (SevenZipFormat.entry_of f) i)
                 pre info).
Proof.
  revert info. induction pre as [|file pre IH]; intros info Hn; [reflexivity|].
  cbn [app SevenZipFormat.GetInfo_loop fold_left].
  rewrite (Hn file) by now left. apply IH. intros f Hf. apply Hn. now right.
Qed.

Lemma sevenzip_list_loop files ip acc :
  SevenZipFormat.ListFiles_loop files ip acc
  = acc ++ filter (fun e => negb (skip_entry ip
                                    (Utils.NormalizePath e.(Path))))
                  (map SevenZipFormat.entry_of files).
Proof.
  revert acc. induction files as [|file rest IH]; intros acc; simpl.
  - now rewrite app_nil_r.
  - destruct (skip_entry ip _); simpl; rewrite IH; [reflexivity|].
    now rewrite <- app_assoc.
Qed.

(** X18: without a password the 7z handler's [GetInfo] stops at the first
    member that cannot be opened for want of a password: it returns the
    password-required error beside an info record that holds the entries
    up to and including that member, with both flags set.  [ListFiles]
    opens no member, and lists among all of them. *)
Theorem sevenzip_info_stops_at_encrypted :
  forall (reader : ReaderAt) (size : Z) (innerPath : gostring)
         (pre post : list sevenzip.File) (file : sevenzip.File),
    reader.(sevenzip_NewReader) = Ok (sevenzip.mkReader (pre ++ file :: post)) ->
    (forall f, In f pre -> SevenZipFormat.entry_encrypted f [] = false) ->
    SevenZipFormat.entry_encrypted file [] = true ->
    (exists info,
        SevenZipFormat.GetInfo reader size [] 
        = (Some info, Some ErrPasswordRequired)
        /\ info.(Files) = map SevenZipFormat.entry_of (pre ++ [file])
        /\ info.(IsEncrypted) = true /\ info.(RequiresPassword) = true)
    /\ SevenZipFormat.ListFiles reader size innerPath []
       = Ok (filter (listed innerPath)
                    (map SevenZipFormat.entry_of (pre ++ file :: post))).
Proof.
  intros reader size innerPath pre post file Hz Hn Hf. split.
  - unfold SevenZipFormat.GetInfo, SevenZipFormat.open. cbn [streq negb].
    rewrite Hz. cbn [sevenzip.File_].
    rewrite sevenzip_info_loop_prefix by exact Hn.
    set (info0 := fold_left _ pre _).
    destruct (fold_add_entry SevenZipFormat.entry_of pre
                (mkArchiveInfo false false 0 0 [] []))
      as (HF & HE & HR).
    fold info0 in HF, HE, HR. cbn [Files app] in HF.
    cbn [SevenZipFormat.GetInfo_loop]. rewrite Hf.
    cbn [add_entry set_RequiresPassword set_IsEncrypted IsEncrypted
         RequiresPassword Files TotalFiles TotalSize Comment andb].
    eexists. split; [reflexivity|].
    cbn [add_entry set_RequiresPassword set_IsEncrypted Files IsEncrypted
         RequiresPassword].
    rewrite HF, map_app. auto.
  - unfold SevenZipFormat.ListFiles, SevenZipFormat.open. cbn [streq negb].
    rewrite Hz. cbn [sevenzip.File_]. now rewrite sevenzip_list_loop.
Qed.

Lemma sevenzip_info_stops_at_encrypted_witness :
  exists info,
    SevenZipFormat.GetInfo Samples.locked_7z 512 []
    = (Some info, Some ErrPasswordRequired)
    /\ info.(Files) = [SevenZipFormat.entry_of Samples.readme_md;
                       SevenZipFormat.entry_of Samples.vault_bin].
Proof.
  destruct (sevenzip_info_stops_at_encrypted Samples.locked_7z 512 []
              [Samples.readme_md] [Samples.notes_md] Samples.vault_bin)
    as [(info & E & HF & _) _].
  - reflexivity.
  - intros f [<-|[]]. reflexivity.
  - reflexivity.
  - exists info. split; [exact E|exact HF].
Defined.

(** *** Extraction *)

Lemma tar_extract_match headers stop filePath name n :
  TarFormat.ExtractFile_loop headers stop filePath = Ok (name, n) ->
  Utils.NormalizePath name = filePath.
Proof.
  induction headers as [|header rest IH]; simpl.
  - destruct stop; discriminate.
  - destruct (streq _ filePath) eqn:E; [|exact IH].
    apply streq_eq in E. intros H. injection H as <- _. exact E.
Qed.

Lemma zip_extract_match codec zfiles filePath password name n :
  ZipFormat.ExtractFile_loop codec zfiles filePath password = Ok (name, n) ->
  Utils.NormalizePath name = filePath.
Proof.
  induction zfiles as [|file rest IH]; simpl; [discriminate|].
  destruct (streq _ filePath) eqn:E; [|exact IH].
  apply streq_eq in E.
  destruct (zip.IsEncrypted file && streq password []); [discriminate|].
  destruct (zip.Open file _) as [err|].
  - destruct (_ && _); discriminate.
  - intros H. injection H as <- _. exact E.
Qed.

Lemma rar_extract_match headers stop filePath password name n :
  RarFormat.ExtractFile_loop headers stop filePath password = Ok (name, n) ->
  Utils.NormalizePath name = filePath.
Proof.
  induction headers as [|header rest IH]; simpl.
  - destruct stop; discriminate.
  - destruct (streq _ filePath) eqn:E; [|exact IH].
    apply streq_eq in E. intros H. injection H as <- _. exact E.
Qed.

Lemma sevenzip_extract_match szfiles filePath password name n :
  SevenZipFormat.ExtractFile_loop szfiles filePath password = Ok (name, n) ->
  Utils.NormalizePath name = filePath.
Proof.
  induction szfiles as [|file rest IH]; simpl; [discriminate|].
  destruct (streq _ filePath) eqn:E; [|exact IH].
  apply streq_eq in E.
  destruct (sevenzip.Open file); [discriminate|].
  intros H. injection H as <- _. exact E.
Qed.

Lemma handler_extract_match codec h reader size filePath password name n :
  ExtractFile codec h reader size filePath password = Ok (name, n) ->
  Utils.NormalizePath name = Utils.NormalizePath filePath.
Proof.
  destruct h; simpl.
  - unfold ZipFormat.ExtractFile.
    destruct (zip_NewReader reader); [apply zip_extract_match|discriminate].
  - unfold RarFormat.ExtractFile.
    destruct (RarFormat.open reader password);
      [apply rar_extract_match|discriminate].
  - unfold SevenZipFormat.ExtractFile.
    destruct (SevenZipFormat.open reader password);
      [apply sevenzip_extract_match|discriminate].
  - unfold TarFormat.ExtractFile.
    destruct (negb (streq password [])); [discriminate|].
    destruct (TarFormat.detectCompression reader) as [c|e]; [|discriminate].
    destruct (TarFormat.wrapReader reader c); [|discriminate].
    apply tar_extract_match.
Qed.

(** X19: the member that [Archive.ExtractFile] hands over is the one asked
    for, up to normalization: whatever the handler, the name of the
    extracted member normalizes to the same path as the requested one.
    The requested path then had no [..] in it, and the normalized name of
    the member has no [..] segment. *)
Theorem ExtractFile_returns_requested :
  forall (codec : chardet.Codec) (traffic : Traffic) (h : Handler)
         (a : Lib.Archive) (filePath password : gostring)
         (net net' : Rangehttp.Net) (name : gostring) (n : Z),
    a.(Lib.format) = as_Format codec traffic h ->
    Lib.ExtractFile a filePath password net = (Ok (name, n), net') ->
    Utils.NormalizePath name = Utils.NormalizePath filePath
    /\ Contains filePath ".." = false
    /\ ~ has_segment ".." (Utils.NormalizePath name).
Proof.
  intros codec traffic h a filePath password net net' name n Hfmt.
  unfold Lib.ExtractFile.
  destruct (Utils.IsValidPath filePath) eqn:Hv; cbn [negb];
    [|discriminate].
  rewrite Hfmt. cbn [as_Format Format.ExtractFile]. unfold reading.
  intros H. injection H as H _.
  apply handler_extract_match in H. rewrite H.
  split; [reflexivity|]. split.
  - unfold Utils.IsValidPath in Hv.
    destruct (Contains filePath ".."); [discriminate|reflexivity].
  - now apply PathProps.IsValidPath_no_dotdot_segment.
Qed.

Lemma ExtractFile_returns_requested_witness :
  Lib.ExtractFile Samples.tar_archive "/./a.txt" [] []
  = (Ok (list_ascii_of_string "a.txt", 5%Z), [])
  /\ Utils.NormalizePath "a.txt" = Utils.NormalizePath "/./a.txt".
Proof.
  split; [reflexivity|].
  apply (ExtractFile_returns_requested Samples.raw_codec Samples.quiet Tar
           Samples.tar_archive "/./a.txt" [] [] [] "a.txt" 5);
    reflexivity.
Defined.

Lemma tar_extract_loop_first pre hd post stop filePath :
  (forall g, In g pre -> Utils.NormalizePath g.(tar.Name) <> filePath) ->
  Utils.NormalizePath hd.(tar.Name) = filePath ->
  TarFormat.ExtractFile_loop (pre ++ hd :: post) stop filePath
  = Ok (hd.(tar.Name), hd.(tar.Size)).
Proof.
  intros Hpre Hhd. induction pre as [|g pre IH]; simpl.
  - apply streq_eq in Hhd. now rewrite Hhd.
  - assert (Hg : streq (Utils.NormalizePath (tar.Name g)) filePath = false)
      by (apply streq_neq, Hpre; now left).
    rewrite Hg. apply IH. intros g' Hin. apply Hpre. now right.
Qed.

Lemma tar_extract_loop_none headers stop filePath :
  (forall g, In g headers -> Utils.NormalizePath g.(tar.Name) <> filePath) ->
  TarFormat.ExtractFile_loop headers stop filePath
  = match stop with
    | io_EOF => Err ErrFileNotFound
    | lib_error t =>
        Err (WrapError "failed to read TAR header" (External t))
    end.
Proof.
  intros Hno. induction headers as [|g rest IH]; simpl.
  - now destruct stop.
  - assert (Hg : streq (Utils.NormalizePath (tar.Name g)) filePath = false)
      by (apply streq_neq, Hno; now left).
    rewrite Hg. apply IH. intros g' Hin. apply Hno. now right.
Qed.

(** X20: the TAR handler extracts the first member whose normalized name
    is the normalized path asked for, whatever follows it in the archive,
    be it a member of the same name or a header that cannot be read.
    When no member matches, the result is the not-found error if the
    archive ends regularly, and the header error otherwise. *)
Theorem tar_extract_first_match :
  forall (reader : ReaderAt) (size : Z) (filePath compression : gostring)
         (headers : list tar.Header) (stop : liberr),
    TarFormat.detectCompression reader = Ok compression ->
    TarFormat.wrapReader reader compression = Ok (mkStream headers stop) ->
    (forall pre hd post,
        headers = pre ++ hd :: post ->
        (forall g, In g pre ->
                   Utils.NormalizePath g.(tar.Name)
                   <> Utils.NormalizePath filePath) ->
        Utils.NormalizePath hd.(tar.Name) = Utils.NormalizePath filePath ->
        TarFormat.ExtractFile reader size filePath []
        = Ok (hd.(tar.Name), hd.(tar.Size)))
    /\ ((forall g, In g headers ->
                   Utils.NormalizePath g.(tar.Name)
                   <> Utils.NormalizePath filePath) ->
        TarFormat.ExtractFile reader size filePath []
        = match stop with
          | io_EOF => Err ErrFileNotFound
          | lib_error t =>
              Err (WrapError "failed to read TAR header" (External t))
          end).
Proof.
  intros reader size filePath compression headers stop Hc Hw.
  unfold TarFormat.ExtractFile. cbn [streq negb]. rewrite Hc, Hw.
  cbn [items Go.stop]. split.
  - intros pre hd post -> Hpre Hhd. now apply tar_extract_loop_first.
  - apply tar_extract_loop_none.
Qed.

Lemma tar_extract_first_match_witness :
  TarFormat.ExtractFile Samples.twice_tar 10240 "a.txt" []
  = Ok (list_ascii_of_string "./a.txt", 5%Z).
Proof.
  destruct (tar_extract_first_match Samples.twice_tar 10240 "a.txt" "none"
              [Samples.readme; Samples.dot_a_txt; Samples.a_txt]
              (lib_error "unexpected EOF") eq_refl eq_refl) as [H _].
  apply (H [Samples.readme] Samples.dot_a_txt [Samples.a_txt] eq_refl).
  - intros g [<-|[]]. discriminate.
  - reflexivity.
Defined.

End FormatMore.

(* ================================================================== *)
(** ** Detection of the format                                          *)
(* ================================================================== *)

Module DetectMore.
Import Strings Go Formats Props StringsFacts.

Lemma byte_at_firstn (file : gostring) (k i : nat) :
  i < k ->
  TarFormat.byte_at (firstn k file) i = TarFormat.byte_at file i.
Proof.
  unfold TarFormat.byte_at. revert k i.
  induction file as [|c file IH]; intros k i Hi.
  - rewrite firstn_nil. reflexivity.
  - destruct k as [|k]; [lia|]. destruct i as [|i]; [reflexivity|].
    simpl. apply IH. lia.
Qed.

Lemma head_read reader file n data :
  reads_file reader file -> 0 < n ->
  reader.(ReadAt) n 0%Z = (data, None) ->
  TarFormat.byte_at data 0 = TarFormat.byte_at file 0.
Proof.
  intros Hr Hn H. apply Hr in H. subst data. simpl skipn.
  now apply byte_at_firstn.
Qed.

Lemma detected_lead reader size file h :
  reads_file reader file -> h <> Tar ->
  detected h reader size = true ->
  TarFormat.byte_at file 0 = lead h.
Proof.
  intros Hr Hh. unfold detected. destruct h; simpl; [| | |congruence].
  - unfold ZipFormat.Detect.
    destruct (ReadAt reader 4 0%Z) as [magic [e|]] eqn:E; [discriminate|].
    rewrite <- (head_read reader file 4 magic Hr ltac:(lia) E).
    destruct (Ascii.eqb (TarFormat.byte_at magic 0) "P") eqn:E0;
      [|discriminate].
    intros _. now apply Ascii.eqb_eq in E0.
  - unfold RarFormat.Detect.
    destruct (ReadAt reader 8 0%Z) as [magic [e|]] eqn:E; [discriminate|].
    rewrite <- (head_read reader file 8 magic Hr ltac:(lia) E).
    destruct (Ascii.eqb (TarFormat.byte_at magic 0) "R") eqn:E0;
      [|discriminate].
    intros _. now apply Ascii.eqb_eq in E0.
  - unfold SevenZipFormat.Detect.
    destruct (ReadAt reader 6 0%Z) as [magic [e|]] eqn:E; [discriminate|].
    rewrite <- (head_read reader file 6 magic Hr ltac:(lia) E).
    destruct (Ascii.eqb (TarFormat.byte_at magic 0) (ascii_of_nat 55))
             eqn:E0; [|discriminate].
    intros _. now apply Ascii.eqb_eq in E0.
Qed.

(** A TAR archive that is known by its compression starts with a byte
    that no other format starts with. *)
Lemma tar_detected_lead reader size file :
  reads_file reader file ->
  detected Tar reader size = true ->
  TarFormat.detectCompression reader = Ok (list_ascii_of_string "none")
  \/ (TarFormat.byte_at file 0 <> lead Zip
      /\ TarFormat.byte_at file 0 <> lead Rar
      /\ TarFormat.byte_at file 0 <> lead SevenZip).
Proof.
  intros Hr. unfold detected. simpl.
  unfold TarFormat.Detect, TarFormat.detectCompression.
  destruct (ReadAt reader 10 0%Z) as [magic [e|]] eqn:E; [discriminate|].
  rewrite <- (head_read reader file 10 magic Hr ltac:(lia) E).
  destruct (Ascii.eqb (TarFormat.byte_at magic 0) (ascii_of_nat 31)) eqn:E1.
  { apply Ascii.eqb_eq in E1. rewrite E1. intros _. right.
    repeat split; discriminate. }
  destruct (Ascii.eqb (TarFormat.byte_at magic 0) "B") eqn:E2.
  { apply Ascii.eqb_eq in E2. rewrite E2. intros _. right.
    repeat split; discriminate. }
  destruct (Ascii.eqb (TarFormat.byte_at magic 0) (ascii_of_nat 253)) eqn:E3.
  { apply Ascii.eqb_eq in E3. rewrite E3. intros _. right.
    repeat split; discriminate. }
  cbn [andb]. intros _. now left.
Qed.

Lemma by_content_sound order reader size h :
  by_content order reader size = Some h -> detected h reader size = true.
Proof.
  induction order as [|g order IH]; simpl; [discriminate|].
  destruct (detected g reader size) eqn:E; [|exact IH].
  intros H. now injection H as <-.
Qed.

Lemma by_content_complete order reader size h :
  by_content order reader size = None -> In h order ->
  detected h reader size = false.
Proof.
  induction order as [|g order IH]; simpl; [intros _ []|].
  destruct (detected g reader size) eqn:E; [discriminate|].
  intros H [<-|Hin]; auto.
Qed.

Lemma try_extensions_sound h exts reader size extension :
  try_extensions h exts reader size extension = true ->
  detected h reader size = true.
Proof.
  induction exts as [|ext exts IH]; simpl; [discriminate|].
  destruct (streq ext extension); [|exact IH].
  destruct (detected h reader size); auto.
Qed.

Lemma by_extension_sound order reader size extension h :
  by_extension order reader size extension = Some h ->
  detected h reader size = true.
Proof.
  induction order as [|g order IH]; simpl; [discriminate|].
  destruct (try_extensions g _ reader size extension) eqn:E; [|exact IH].
  intros H. injection H as <-. now apply try_extensions_sound in E.
Qed.

Lemma DetectFormat_sound first second reader size extension h :
  DetectFormat first second reader size extension = Ok h ->
  detected h reader size = true.
Proof.
  unfold DetectFormat.
  destruct (by_extension first reader size extension) as [g|] eqn:E1.
  - intros H. injection H as <-. now apply by_extension_sound in E1.
  - destruct (by_content second reader size) as [g|] eqn:E2; [|discriminate].
    intros H. injection H as <-. now apply by_content_sound in E2.
Qed.

Lemma DetectFormat_complete first second reader size extension e h :
  DetectFormat first second reader size extension = Err e ->
  In h second ->
  e = ErrFormatNotDetected /\ detected h reader size = false.
Proof.
  unfold DetectFormat.
  destruct (by_extension first reader size extension); [discriminate|].
  destruct (by_content second reader size) eqn:E2; [discriminate|].
  intros H Hin. injection H as <-. split; [reflexivity|].
  now apply (by_content_complete second).
Qed.

Lemma detected_unique reader size file h1 h2 :
  reads_file reader file -> ~ ustar_only reader size ->
  detected h1 reader size = true -> detected h2 reader size = true ->
  h1 = h2.
Proof.
  intros Hr Hu H1 H2.
  assert (Htar : detected Tar reader size = true ->
                 TarFormat.byte_at file 0 <> lead Zip
                 /\ TarFormat.byte_at file 0 <> lead Rar
                 /\ TarFormat.byte_at file 0 <> lead SevenZip).
  { intros Ht. destruct (tar_detected_lead reader size file Hr Ht) as [Hn|H];
      [|exact H].
    exfalso. apply Hu. now split. }
  assert (Hl : forall h, h <> Tar -> detected h reader size = true ->
                         TarFormat.byte_at file 0 = lead h)
    by (intros h; apply detected_lead; exact Hr).
  destruct h1, h2; try reflexivity; exfalso;
    try (pose proof (Hl Zip ltac:(discriminate) ltac:(assumption)) as L1);
    try (pose proof (Hl Rar ltac:(discriminate) ltac:(assumption)) as L2);
    try (pose proof (Hl SevenZip ltac:(discriminate) ltac:(assumption))
          as L3);
    try (destruct (Htar ltac:(assumption)) as (T1 & T2 & T3));
    try contradiction;
    try (rewrite L1 in *; discriminate);
    try (rewrite L2 in *; discriminate).
Qed.

(** X21: on a file that is not taken for a TAR archive for its mark at
    offset 257 alone, at most one of the four handlers detects its
    format, and [DetectFormat] returns the same result in whatever orders
    its two loops go through the registry: the one handler that detects
    the format, or the not-detected error. *)
Theorem DetectFormat_order_independent :
  forall (reader : ReaderAt) (size : Z) (file extension : gostring)
         (first second first' second' : list Handler),
    reads_file reader file -> ~ ustar_only reader size ->
    (forall h, In h second) -> (forall h, In h second') ->
    (forall h1 h2, detected h1 reader size = true ->
                   detected h2 reader size = true -> h1 = h2)
    /\ DetectFormat first second reader size extension
       = DetectFormat first' second' reader size extension
    /\ (forall h, DetectFormat first second reader size extension = Ok h
                  <-> detected h reader size = true).
Proof.
  intros reader size file extension first second first' second'
         Hr Hu Hall Hall'.
  assert (Huniq : forall h1 h2, detected h1 reader size = true ->
                                detected h2 reader size = true -> h1 = h2)
    by (intros h1 h2; apply (detected_unique reader size file); assumption).
  assert (Hchar : forall f s, (forall h, In h s) ->
            forall h, DetectFormat f s reader size extension = Ok h
                      <-> detected h reader size = true).
  { intros f s Hs h. split; [apply DetectFormat_sound|].
    intros Hd.
    destruct (DetectFormat f s reader size extension) as [g|e] eqn:E.
    - apply DetectFormat_sound in E. f_equal. now apply Huniq.
    - destruct (DetectFormat_complete f s reader size extension e h E (Hs h))
        as [_ Hn].
      congruence. }
  split; [exact Huniq|]. split; [|apply Hchar, Hall].
  destruct (DetectFormat first second reader size extension) as [g|e] eqn:E.
  - symmetry. apply (Hchar first' second' Hall').
    now apply DetectFormat_sound in E.
  - destruct (DetectFormat first' second' reader size extension) as [g'|e']
      eqn:E'.
    + apply DetectFormat_sound in E'.
      destruct (DetectFormat_complete _ _ _ _ _ _ g' E (Hall g')) as [_ Hn].
      congruence.
    + destruct (DetectFormat_complete _ _ _ _ _ _ Zip E (Hall Zip))
        as [-> _].
      destruct (DetectFormat_complete _ _ _ _ _ _ Zip E' (Hall' Zip))
        as [-> _].
      reflexivity.
Qed.

Lemma DetectFormat_order_independent_witness :
  DetectFormat handlers handlers (Samples.surface Samples.gz_file) 512 ".gz"
  = DetectFormat (rev handlers) (rev handlers)
                 (Samples.surface Samples.gz_file) 512 ".gz".
Proof.
  destruct (DetectFormat_order_independent (Samples.surface Samples.gz_file)
              512 Samples.gz_file ".gz" handlers handlers (rev handlers)
              (rev handlers)) as (_ & H & _).
  - intros n off data H. injection H as <-. reflexivity.
  - intros [_ H]. vm_compute in H. discriminate.
  - intros h. destruct h; simpl; auto.
  - intros h. destruct h; simpl; auto.
  - exact H.
Defined.

(** X22: a plain TAR archive whose first bytes are the signature of a ZIP
    local file header is detected by the ZIP handler and by the TAR
    handler alike.  When the extension decides nothing, [DetectFormat]
    returns whichever of the two its second loop meets first. *)
Theorem DetectFormat_order_dependent :
  forall (reader : ReaderAt) (size : Z) (file tail : gostring)
         (extension : gostring) (first rest : list Handler),
    reads_file reader file ->
    snd (reader.(ReadAt) 4 0%Z) = None ->
    snd (reader.(ReadAt) 10 0%Z) = None ->
    snd (reader.(ReadAt) 6 257%Z) = None ->
    firstn 4 file
    = ["P"%char; "K"%char; ascii_of_nat 3; ascii_of_nat 4] ->
    skipn 257 file = list_ascii_of_string "ustar" ++ tail ->
    by_extension first reader size extension = None ->
    detected Zip reader size = true
    /\ detected Tar reader size = true
    /\ DetectFormat first (Zip :: rest) reader size extension = Ok Zip
    /\ DetectFormat first (Tar :: rest) reader size extension = Ok Tar.
Proof.
  intros reader size file tail extension first rest Hr H4 H10 H6 Hpk Hus Hext.
  assert (Hz : detected Zip reader size = true).
  { unfold detected. simpl. unfold ZipFormat.Detect.
    destruct (ReadAt reader 4 0%Z) as [magic err] eqn:E.
    simpl in H4. subst err. apply Hr in E. simpl skipn in E.
    rewrite Hpk in E. subst magic. reflexivity. }
  assert (Ht : detected Tar reader size = true).
  { unfold detected. simpl. unfold TarFormat.Detect.
    destruct (ReadAt reader 10 0%Z) as [magic err] eqn:E.
    simpl in H10. subst err.
    pose proof (head_read reader file 10 magic Hr ltac:(lia) E) as H0.
    assert (Hf0 : TarFormat.byte_at file 0 = "P"%char).
    { rewrite <- (byte_at_firstn file 4 0) by lia. now rewrite Hpk. }
    rewrite Hf0 in H0. rewrite H0. cbn [Ascii.eqb Bool.eqb ascii_of_nat
      ascii_of_pos andb].
    replace (Ascii.eqb "P" (ascii_of_nat 31)) with false by reflexivity.
    replace (Ascii.eqb "P" "B") with false by reflexivity.
    replace (Ascii.eqb "P" (ascii_of_nat 253)) with false by reflexivity.
    cbn [andb].
    destruct (ReadAt reader 6 257%Z) as [ustar err] eqn:E6.
    simpl in H6. subst err. apply Hr in E6.
    change (Z.to_nat 257) with 257 in E6. rewrite Hus in E6.
    subst ustar. reflexivity. }
  split; [exact Hz|]. split; [exact Ht|].
  unfold DetectFormat. rewrite Hext. simpl. now rewrite Hz, Ht.
Qed.

Lemma DetectFormat_order_dependent_witness :
  DetectFormat handlers [Zip; Rar; SevenZip; Tar]
               (Samples.surface Samples.pk_tar_file) 512 ".bin" = Ok Zip
  /\ DetectFormat handlers [Tar; Zip; Rar; SevenZip]
                  (Samples.surface Samples.pk_tar_file) 512 ".bin" = Ok Tar.
Proof.
  assert (Hr : reads_file (Samples.surface Samples.pk_tar_file)
                          Samples.pk_tar_file)
    by (intros n off data H; injection H as <-; reflexivity).
  split.
  - exact (proj1 (proj2 (proj2
             (DetectFormat_order_dependent
                (Samples.surface Samples.pk_tar_file) 512
                Samples.pk_tar_file (repeat zero 250) ".bin" handlers
                [Rar; SevenZip; Tar] Hr eq_refl eq_refl eq_refl eq_refl
                eq_refl eq_refl)))).
  - exact (proj2 (proj2 (proj2
             (DetectFormat_order_dependent
                (Samples.surface Samples.pk_tar_file) 512
                Samples.pk_tar_file (repeat zero 250) ".bin" handlers
                [Zip; Rar; SevenZip] Hr eq_refl eq_refl eq_refl eq_refl
                eq_refl eq_refl)))).
Defined.

(** X23: the TAR handler's [Detect] and [detectCompression] read the
    same ten bytes and agree on them: one fails exactly when the other
    does, with the same error; a file in which [detectCompression] finds a
    compression is detected as TAR; and a file that [Detect] turns down is
    still read as a plain TAR archive by the other methods. *)
Theorem tar_Detect_agrees_with_detectCompression :
  forall (reader : ReaderAt) (size : Z),
    (forall err,
        TarFormat.Detect reader size = (false, Some err)
        <-> TarFormat.detectCompression reader = Err err)
    /\ (forall compression,
           TarFormat.detectCompression reader = Ok compression ->
           compression <> list_ascii_of_string "none" ->
           TarFormat.Detect reader size = (true, None))
    /\ (TarFormat.Detect reader size = (false, None) ->
        TarFormat.detectCompression reader
        = Ok (list_ascii_of_string "none")).
Proof.
  intros reader size.
  unfold TarFormat.Detect, TarFormat.detectCompression.
  destruct (ReadAt reader 10 0%Z) as [magic [e|]].
  - split; [|split].
    + intros err. split; intros H; injection H as <-; reflexivity.
    + discriminate.
    + discriminate.
  - destruct (Ascii.eqb (TarFormat.byte_at magic 0) (ascii_of_nat 31)
              && Ascii.eqb (TarFormat.byte_at magic 1) (ascii_of_nat 139)).
    { split; [|split]; try discriminate.
      intros err; split; discriminate. reflexivity. }
    destruct (Ascii.eqb (TarFormat.byte_at magic 0) "B"
              && Ascii.eqb (TarFormat.byte_at magic 1) "Z").
    { split; [|split]; try discriminate.
      intros err; split; discriminate. reflexivity. }
    destruct (Ascii.eqb (TarFormat.byte_at magic 0) (ascii_of_nat 253)
              && Ascii.eqb (TarFormat.byte_at magic 1) (ascii_of_nat 55)
              && Ascii.eqb (TarFormat.byte_at magic 2) (ascii_of_nat 122)
              && Ascii.eqb (TarFormat.byte_at magic 3) (ascii_of_nat 88)
              && Ascii.eqb (TarFormat.byte_at magic 4) (ascii_of_nat 90)
              && Ascii.eqb (TarFormat.byte_at magic 5) (ascii_of_nat 0)).
    { split; [|split]; try discriminate.
      intros err; split; discriminate. reflexivity. }
    split; [|split].
    + intros err. split; [|discriminate].
      destruct (ReadAt reader 6 257%Z) as [ustar [e|]]; [discriminate|].
      destruct (streq _ _); discriminate.
    + intros c H. injection H as <-. intros Hne. now elim Hne.
    + reflexivity.
Qed.

End DetectMore.

(* ================================================================== *)
(** ** Properties of the HTTP handlers                                  *)
(* ================================================================== *)

Module HandlerMore.
Import Strings Go Formats Props StringsFacts.

Lemma tar_info_loop_not_nil headers stop info :
  TarFormat.GetInfo_loop headers stop info <> (None, None).
Proof.
  revert info. induction headers as [|header rest IH]; intros info; simpl.
  - destruct stop; discriminate.
  - apply IH.
Qed.

Lemma zip_info_loop_not_nil codec files password verified info :
  ZipFormat.GetInfo_loop codec files password verified info <> (None, None).
Proof.
  revert verified info.
  induction files as [|file rest IH]; intros verified info; simpl.
  - destruct (_ && _); discriminate.
  - destruct (zip.IsEncrypted file); [|apply IH].
    destruct (negb verified && negb (streq password [])).
    + destruct (zip.Open file (Some password)) as [e|]; [|apply IH].
      destruct (Contains _ _); discriminate.
    + destruct (streq password []); apply IH.
Qed.

Lemma rar_info_loop_not_nil headers stop password info :
  RarFormat.GetInfo_loop headers stop password info <> (None, None).
Proof.
  revert info. induction headers as [|header rest IH]; intros info; simpl.
  - destruct stop as [|t].
    + destruct (_ && _); discriminate.
    + destruct (password_error _); [|discriminate].
      destruct (negb _); discriminate.
  - apply IH.
Qed.

(** No handler returns neither an info record nor an error. *)
Lemma handler_info_not_nil codec h reader size password :
  GetInfo codec h reader size password <> (None, None).
Proof.
  destruct h; simpl.
  - unfold ZipFormat.GetInfo.
    destruct (zip_NewReader reader);
      [apply zip_info_loop_not_nil|discriminate].
  - unfold RarFormat.GetInfo.
    destruct (RarFormat.open reader password);
      [apply rar_info_loop_not_nil|discriminate].
  - unfold SevenZipFormat.GetInfo.
    destruct (SevenZipFormat.open reader password).
    + destruct (_ && _); discriminate.
    + destruct (password_error _); [|discriminate].
      destruct (negb _); discriminate.
  - unfold TarFormat.GetInfo.
    destruct (negb (streq password [])); [discriminate|].
    destruct (TarFormat.detectCompression reader) as [c|e]; [|discriminate].
    destruct (TarFormat.wrapReader reader c); [|discriminate].
    apply tar_info_loop_not_nil.
Qed.

Ltac split_ifs :=
  cbv zeta;
  repeat match goal with
         | |- context [if ?c then _ else _] => destruct c
         end.

Lemma password_reply_error password :
  exists st msg code,
    Handlers.password_reply password = Handlers.respondError st msg code.
Proof.
  unfold Handlers.password_reply. destruct (negb _); eauto.
Qed.

(** X24: the info handler, over archives of the registered formats,
    never dereferences a nil info record, and what it answers with status
    200 never asks for a password: [requiresPassword] is false in every
    info response, and [isEncrypted] is true only when the request carried
    a password. *)
Theorem Info_never_requires_password :
  forall (codec : chardet.Codec) (traffic : Traffic)
         (NewArchive : gostring -> Rangehttp.IO (Result error Lib.Archive))
         (req : Handlers.InfoRequest) (net net' : Rangehttp.Net)
         (reply : Handlers.Reply),
    registered_formats codec traffic NewArchive ->
    Handlers.Info NewArchive req net = (reply, net') ->
    reply <> Handlers.panic
    /\ forall status response,
        reply = Handlers.respondInfo status response ->
        status = 200%Z
        /\ response.(Handlers.RequiresPassword) = false
        /\ (response.(Handlers.IsEncrypted) = true ->
            req.(Handlers.info_Password) <> []).
Proof.
  intros codec traffic NewArchive req net net' reply Hreg.
  unfold Handlers.Info.
  destruct (streq (Handlers.info_URL req) []).
  { intros H. injection H as <- _. split; [discriminate|].
    intros st r H. discriminate. }
  unfold Lib.QuickInfo, Rangehttp.bind.
  destruct (NewArchive (Handlers.info_URL req) net) as [[a|e] net1] eqn:EN.
  - destruct (Hreg _ _ _ _ EN) as [h Hfmt].
    unfold Lib.GetInfo. rewrite Hfmt. cbn [as_Format Format.GetInfo].
    unfold reading.
    destruct (GetInfo codec h (Lib.reader a) (Lib.size a)
                      (Handlers.info_Password req))
      as [info err] eqn:EG.
    cbn [fst snd]. destruct err as [err|].
    + unfold Rangehttp.ret.
      destruct (password_reply_error (Handlers.info_Password req))
        as (st & msg & code & ->).
      intros H. injection H as <- _.
      split_ifs; (split; [discriminate|intros st' r H; discriminate]).
    + destruct info as [info|];
        [|now apply handler_info_not_nil in EG].
      apply FormatMore.handler_success_flags in EG as [Hr He].
      destruct (NewArchive (Handlers.info_URL req) (traffic h (Lib.reader a) net1))
        as [[a'|e'] net2]; unfold Rangehttp.ret;
        intros H; injection H as <- _;
        (split; [discriminate|]);
        intros st r H; injection H as <- <-;
        cbn [Handlers.RequiresPassword Handlers.IsEncrypted];
        (split; [reflexivity|]); (split; [exact Hr|]);
        intros Henc; now destruct (He Henc).
  - cbn [fst snd]. unfold Rangehttp.ret.
    destruct (password_reply_error (Handlers.info_Password req))
      as (st & msg & code & ->).
    intros H. injection H as <- _.
    split_ifs; (split; [discriminate|intros st' r H; discriminate]).
Qed.

Lemma Info_never_requires_password_witness :
  fst (Handlers.Info Samples.open_zip
         (Handlers.mkInfoRequest "http://host/s.zip" []) [])
  = Handlers.respondError 401 "Password required" "PASSWORD_REQUIRED"
  /\ exists response,
      fst (Handlers.Info Samples.open_zip
             (Handlers.mkInfoRequest "http://host/s.zip" "hunter2") [])
      = Handlers.respondInfo 200 response
      /\ response.(Handlers.RequiresPassword) = false.
Proof.
  split; [reflexivity|].
  eexists. split; [reflexivity|].
  destruct (Info_never_requires_password Samples.raw_codec Samples.quiet
              Samples.open_zip
              (Handlers.mkInfoRequest "http://host/s.zip" "hunter2") [] []
              _ ltac:(intros url net a net' H; injection H as <- _;
                      exists Zip; reflexivity)
              eq_refl) as [_ H].
  exact (proj1 (proj2 (H _ _ eq_refl))).
Defined.

(** X25: the extract handler streams a member only for a path that
    [IsValidPath] accepts, and the member it streams is the one asked for
    up to normalization; a path that [IsValidPath] rejects is answered,
    once the archive is open, with status 400 and the code INVALID_PATH,
    without a call to the format handler. *)
Theorem Extract_invalid_path :
  forall (codec : chardet.Codec) (traffic : Traffic)
         (NewArchive : gostring -> Rangehttp.IO (Result error Lib.Archive))
         (filepath_Base : gostring -> gostring)
         (req : Handlers.ExtractRequest) (net : Rangehttp.Net),
    registered_formats codec traffic NewArchive ->
    (forall filename n member,
        fst (Handlers.Extract NewArchive filepath_Base req net)
        = Handlers.download filename n member ->
        Utils.IsValidPath req.(Handlers.extract_File) = true
        /\ Utils.NormalizePath member
           = Utils.NormalizePath req.(Handlers.extract_File)
        /\ filename = filepath_Base req.(Handlers.extract_File))
    /\ (forall archive net1,
           req.(Handlers.extract_URL) <> [] ->
           req.(Handlers.extract_File) <> [] ->
           Utils.IsValidPath req.(Handlers.extract_File) = false ->
           NewArchive req.(Handlers.extract_URL) net = (Ok archive, net1) ->
           Handlers.Extract NewArchive filepath_Base req net
           = (Handlers.respondError 400 "Invalid file path" "INVALID_PATH",
              net1)).
Proof.
  intros codec traffic NewArchive filepath_Base req net Hreg. split.
  - intros filename n member. unfold Handlers.Extract.
    destruct (streq (Handlers.extract_URL req) []); [discriminate|].
    destruct (streq (Handlers.extract_File req) []); [discriminate|].
    unfold Lib.QuickExtract, Rangehttp.bind.
    destruct (NewArchive (Handlers.extract_URL req) net) as [[a|e] net1]
      eqn:EN.
    + destruct (Hreg _ _ _ _ EN) as [h Hfmt].
      unfold Lib.ExtractFile.
      destruct (Utils.IsValidPath (Handlers.extract_File req)) eqn:Hv;
        cbn [negb]; [|discriminate].
      rewrite Hfmt. cbn [as_Format Format.ExtractFile]. unfold reading.
      destruct (ExtractFile codec h (Lib.reader a) (Lib.size a)
                  (Handlers.extract_File req) (Handlers.extract_Password req))
        as [[member' n']|err] eqn:EX; unfold Rangehttp.ret; cbn [fst].
      * intros H. injection H as <- <- <-.
        apply FormatMore.handler_extract_match in EX. auto.
      * destruct (password_reply_error (Handlers.extract_Password req))
          as (st & msg & code & ->).
        split_ifs; discriminate.
    + unfold Rangehttp.ret. cbn [fst].
      destruct (password_reply_error (Handlers.extract_Password req))
        as (st & msg & code & ->).
      split_ifs; discriminate.
  - intros a net1 Hu Hf Hv EN. unfold Handlers.Extract.
    apply streq_neq in Hu, Hf. rewrite Hu, Hf.
    unfold Lib.QuickExtract, Rangehttp.bind. rewrite EN.
    rewrite (FacadeProps.ExtractFile_guard_first a _ _ net1 Hv).
    reflexivity.
Qed.

Lemma Extract_invalid_path_witness :
  Handlers.Extract Samples.open_tar Samples.last_element
    (Handlers.mkExtractRequest "http://host/a.tar" [] "docs/../a.txt") []
  = (Handlers.respondError 400 "Invalid file path" "INVALID_PATH", []).
Proof.
  refine (proj2 (Extract_invalid_path Samples.raw_codec Samples.quiet
                   Samples.open_tar Samples.last_element
                   (Handlers.mkExtractRequest "http://host/a.tar" []
                                              "docs/../a.txt") [] _)
                Samples.tar_archive [] _ _ eq_refl eq_refl).
  - intros url net a net' H. injection H as <- _. exists Tar. reflexivity.
  - discriminate.
  - discriminate.
Defined.

(** X26: a password sent along with a TAR archive is answered by all three
    handlers with status 400 and the code UNSUPPORTED_FORMAT: the refusal
    of the TAR handler mentions the word format. *)
Theorem tar_password_is_unsupported_format :
  forall (codec : chardet.Codec) (traffic : Traffic)
         (NewArchive : gostring -> Rangehttp.IO (Result error Lib.Archive))
         (filepath_Base : gostring -> gostring)
         (url password innerPath file : gostring)
         (archive : Lib.Archive) (net net1 : Rangehttp.Net),
    url <> [] -> password <> [] ->
    NewArchive url net = (Ok archive, net1) ->
    archive.(Lib.format) = as_Format codec traffic Tar ->
    let unsupported :=
      Handlers.respondError 400 "Unsupported archive format"
                            "UNSUPPORTED_FORMAT" in
    fst (Handlers.Info NewArchive (Handlers.mkInfoRequest url password) net)
    = unsupported
    /\ fst (Handlers.List NewArchive
              (Handlers.mkListRequest url password innerPath) net)
       = unsupported
    /\ (file <> [] -> Utils.IsValidPath file = true ->
        fst (Handlers.Extract NewArchive filepath_Base
               (Handlers.mkExtractRequest url password file) net)
        = unsupported).
Proof.
  intros codec traffic NewArchive filepath_Base url password innerPath file
         a net net1 Hu Hp EN Hfmt unsupported.
  apply streq_neq in Hu. pose proof Hp as Hp'. apply streq_neq in Hp'.
  split; [|split].
  - unfold Handlers.Info. cbn [Handlers.info_URL Handlers.info_Password].
    rewrite Hu. unfold Lib.QuickInfo, Rangehttp.bind. rewrite EN.
    unfold Lib.GetInfo. rewrite Hfmt. cbn [as_Format Format.GetInfo].
    unfold reading. cbn [GetInfo]. unfold TarFormat.GetInfo.
    rewrite Hp'. reflexivity.
  - unfold Handlers.List.
    cbn [Handlers.list_URL Handlers.list_Password Handlers.list_InnerPath].
    rewrite Hu. unfold Lib.QuickList, Rangehttp.bind. rewrite EN.
    unfold Lib.ListFiles. rewrite Hfmt. cbn [as_Format Format.ListFiles].
    unfold reading. cbn [ListFiles]. unfold TarFormat.ListFiles.
    rewrite Hp'. reflexivity.
  - intros Hf Hv. apply streq_neq in Hf. unfold Handlers.Extract.
    cbn [Handlers.extract_URL Handlers.extract_Password
         Handlers.extract_File].
    rewrite Hu, Hf. unfold Lib.QuickExtract, Rangehttp.bind. rewrite EN.
    unfold Lib.ExtractFile. rewrite Hv. cbn [negb].
    rewrite Hfmt. cbn [as_Format Format.ExtractFile].
    unfold reading. cbn [ExtractFile]. unfold TarFormat.ExtractFile.
    rewrite Hp'. reflexivity.
Qed.

Lemma tar_password_is_unsupported_format_witness :
  fst (Handlers.List Samples.open_tar
         (Handlers.mkListRequest "http://host/a.tar" "hunter2" "docs") [])
  = Handlers.respondError 400 "Unsupported archive format"
                          "UNSUPPORTED_FORMAT".
Proof.
  refine (proj1 (proj2 (tar_password_is_unsupported_format
                          Samples.raw_codec Samples.quiet Samples.open_tar
                          Samples.last_element "http://host/a.tar" "hunter2"
                          "docs" "a.txt" Samples.tar_archive [] [] _ _
                          eq_refl eq_refl))); discriminate.
Defined.

Lemma handler_password_required codec h reader size :
  encryption_seen h reader ->
  snd (GetInfo codec h reader size []) = Some ErrPasswordRequired.
Proof.
  destruct h; simpl.
  - unfold ZipFormat.GetInfo. intros (zr & file & -> & Hin & Hf).
    destruct (InfoProps.zip_loop_no_password codec (zip.File_ zr) false
                (mkArchiveInfo false false 0 0 [] (zip.Comment zr)))
      as (info' & E & Hreq & Henc).
    assert (He : Formats.IsEncrypted info' = true)
      by (apply Henc; right; eauto).
    rewrite E, He. reflexivity.
  - unfold RarFormat.GetInfo, RarFormat.open. simpl.
    intros (rr & -> & Hp).
    destruct (InfoProps.rar_loop_no_password (items rr) (stop rr)
                (mkArchiveInfo false false 0 0 [] []) eq_refl) as [H _].
    destruct (H Hp) as (info' & -> & _). reflexivity.
  - unfold SevenZipFormat.GetInfo, SevenZipFormat.open. simpl.
    intros [(e & -> & Hp)|(sr & file & e & -> & Hd)].
    + now rewrite Hp.
    + assert (He := InfoProps.sevenzip_loop_detects (sevenzip.File_ sr)
                      (mkArchiveInfo false false 0 0 [] [])
                      (ex_intro _ file (ex_intro _ e Hd))).
      now rewrite He.
  - intros [].
Qed.

(** X27: when the archive shows encryption and the request carries no
    password, the info handler answers with status 401 and the code
    PASSWORD_REQUIRED: the info record that [GetInfo] returns beside the
    error is dropped, and the archive is not opened a second time. *)
Theorem Info_password_required :
  forall (codec : chardet.Codec) (traffic : Traffic) (h : Handler)
         (NewArchive : gostring -> Rangehttp.IO (Result error Lib.Archive))
         (url : gostring) (archive : Lib.Archive) (net net1 : Rangehttp.Net),
    url <> [] ->
    NewArchive url net = (Ok archive, net1) ->
    archive.(Lib.format) = as_Format codec traffic h ->
    encryption_seen h archive.(Lib.reader) ->
    Handlers.Info NewArchive (Handlers.mkInfoRequest url []) net
    = (Handlers.respondError 401 "Password required" "PASSWORD_REQUIRED",
       traffic h archive.(Lib.reader) net1).
Proof.
  intros codec traffic h NewArchive url a net net1 Hu EN Hfmt Hseen.
  apply streq_neq in Hu. unfold Handlers.Info.
  cbn [Handlers.info_URL Handlers.info_Password]. rewrite Hu.
  unfold Lib.QuickInfo, Rangehttp.bind. rewrite EN.
  unfold Lib.GetInfo. rewrite Hfmt. cbn [as_Format Format.GetInfo].
  unfold reading.
  rewrite (handler_password_required codec h (Lib.reader a) (Lib.size a)
             Hseen).
  reflexivity.
Qed.

Lemma Info_password_required_witness :
  Handlers.Info Samples.open_zip
    (Handlers.mkInfoRequest "http://host/s.zip" []) []
  = (Handlers.respondError 401 "Password required" "PASSWORD_REQUIRED", []).
Proof.
  apply (Info_password_required Samples.raw_codec Samples.quiet Zip
           Samples.open_zip "http://host/s.zip" Samples.zip_archive [] []).
  - discriminate.
  - reflexivity.
  - reflexivity.
  - exists (zip.mkReader [Samples.secret_txt] []), Samples.secret_txt.
    split; [reflexivity|]. split; [now left|reflexivity].
Defined.

End HandlerMore.
